(** * Guro: progression engine and code validators

    A shallow embedding of the learning application's core:
    - [App] (the component holding the progress store, the unlock
      computation, level selection and persistence),
    - [LevelView] (the per-level session: feedback and code edits),
    - the two structural validators of the level catalog
      ([validateHTMLStructure], [validateCSSProperties]).

    JavaScript strings are modelled as [string] (sequences of 8-bit
    characters), array indices and [indexOf] results as [Z] (so that the
    "not found" value [-1] is the one the code tests), a [Set<string>] as
    [gset string], and the [UserProgress] object as [gmap string _]. *)

From Stdlib Require Import ZArith String Ascii List Bool Lia.
From stdpp Require Import base option gmap strings pretty list fin_maps fin_sets.

#[local] Set Warnings "-clear-no-such-hyp".

Local Open Scope string_scope.
Local Open Scope list_scope.
Local Open Scope Z_scope.

(* ===================================================================== *)
(** * Data model (types.ts) *)
(* ===================================================================== *)

Inductive Language := HTML | CSS | JavaScript.

(** [interface ProjectCode { html?: string; css?: string; js?: string }] *)
Record ProjectCode := mkProjectCode {
  html : option string;
  css : option string;
  js : option string;
}.

(** The object literal [{}] typed as [ProjectCode]. *)
Definition emptyProjectCode : ProjectCode :=
  {| html := None; css := None; js := None |}.

Record ValidationResult := mkResult {
  success : bool;
  message : string;
  updatedProjectCode : option ProjectCode;
}.

(** The fields of a task that the progression engine reads. The
    presentational fields (instruction, hint, preview) and the per-task
    [validate] closure are catalog content; the two shared validator
    helpers are embedded further down. *)
Module Task.
Record t := mk {
  id : string;
  language : Language;
}.
End Task.

Module Level.
Record t := mk {
  id : string;
  title : string;
  tasks : list Task.t;
  (** [unlocksNextLevel?: string | null]: absent and [null] are both
      [None]; neither is [===] to any level id and both are falsy. *)
  unlocksNextLevel : option string;
}.
Definition taskIds (l : t) : list string := Task.id <$> tasks l.
End Level.

(** One entry of [UserProgress]. *)
Record LevelProgress := mkProgress {
  completedTasks : gset string;
  currentProjectCode : ProjectCode;
  isCompleted : bool;
}.

Abbreviation UserProgress := (gmap string LevelProgress).

Inductive AppView := level_selector | level_view.

(* ===================================================================== *)
(** * Array helpers used by the components *)
(* ===================================================================== *)

(** [Array.prototype.findIndex]: index of the first element satisfying
    [p], or [-1]. *)
Fixpoint findIndex_from {A} (p : A -> bool) (l : list A) (i : Z) : Z :=
  match l with
  | [] => -1
  | x :: l' => if p x then i else findIndex_from p l' (i + 1)
  end.

Definition findIndex {A} (p : A -> bool) (l : list A) : Z :=
  findIndex_from p l 0.

(** [arr[i]] for a number [i]: [undefined] (here [None]) outside the
    array, in particular for [-1]. *)
Definition at_index {A} (l : list A) (i : Z) : option A :=
  if i <? 0 then None else l !! Z.to_nat i.

(** The length of an array as a JavaScript number. *)
Definition len {A} (l : list A) : Z := Z.of_nat (length l).

(** [LEVELS.find(l => l.id === levelId)] *)
Definition findLevel (LEVELS : list Level.t) (levelId : string) : option Level.t :=
  find (fun l => String.eqb (Level.id l) levelId) LEVELS.

(** [LEVELS.findIndex(l => l.id === levelId)] *)
Definition findLevelIndex (LEVELS : list Level.t) (levelId : string) : Z :=
  findIndex (fun l => String.eqb (Level.id l) levelId) LEVELS.

(** Truthiness of an optional string ([undefined], [null] and the empty
    string are falsy). *)
Definition truthy_string (s : option string) : bool :=
  match s with
  | Some (String _ _) => true
  | _ => false
  end.

(* ===================================================================== *)
(** * Progress store mutations (App.tsx) *)
(* ===================================================================== *)

(** The default entry of [updateTaskProgress]:
    [{ completedTasks: new Set(), currentProjectCode: {}, isCompleted: false }]. *)
Definition defaultProgress : LevelProgress :=
  {| completedTasks := ∅; currentProjectCode := emptyProjectCode; isCompleted := false |}.

(** [userProgress[levelId] || default] *)
Definition progressOf (store : UserProgress) (levelId : string) : LevelProgress :=
  default defaultProgress (store !! levelId).

(** The state updater of [updateTaskProgress] (App.tsx, lines 140-163). *)
Definition updateTaskProgress (LEVELS : list Level.t)
    (levelId taskId : string) (projectCodeUpdate : option ProjectCode)
    (prev : UserProgress) : UserProgress :=
  let currentLevelProgress := progressOf prev levelId in
  let newCompletedTasks := completedTasks currentLevelProgress ∪ {[ taskId ]} in
  let updatedLevelData :=
    {| completedTasks := newCompletedTasks;
       currentProjectCode :=
         default (currentProjectCode currentLevelProgress) projectCodeUpdate;
       isCompleted := isCompleted currentLevelProgress |} in
  let levelDefinition := findLevel LEVELS levelId in
  let updatedLevelData :=
    match levelDefinition with
    | Some ld =>
        if (Z.of_nat (size newCompletedTasks) =? len (Level.tasks ld))
        then {| completedTasks := completedTasks updatedLevelData;
                currentProjectCode := currentProjectCode updatedLevelData;
                isCompleted := true |}
        else updatedLevelData
    | None => updatedLevelData
    end in
  <[ levelId := updatedLevelData ]> prev.

(** The state updater of [completeLevel] (App.tsx, lines 120-129): the
    entry (or an empty one) is kept, [isCompleted] is set, and the
    project code is [finalProjectCode || prev[levelId]?.currentProjectCode || {}]. *)
Definition completeLevel (levelId : string) (finalProjectCode : option ProjectCode)
    (prev : UserProgress) : UserProgress :=
  let base :=
    default {| completedTasks := ∅; currentProjectCode := emptyProjectCode;
               isCompleted := false |} (prev !! levelId) in
  <[ levelId :=
       {| completedTasks := completedTasks base;
          currentProjectCode :=
            default (default emptyProjectCode (currentProjectCode <$> prev !! levelId))
                    finalProjectCode;
          isCompleted := true |} ]> prev.

(** The two mutation entry points as data, to speak about sequences. *)
Inductive Mutation :=
  | MarkTask (levelId taskId : string) (projectCodeUpdate : option ProjectCode)
  | MarkLevel (levelId : string) (finalProjectCode : option ProjectCode).

Definition mutate (LEVELS : list Level.t) (m : Mutation) (store : UserProgress)
    : UserProgress :=
  match m with
  | MarkTask l t pc => updateTaskProgress LEVELS l t pc store
  | MarkLevel l pc => completeLevel l pc store
  end.

Definition run (LEVELS : list Level.t) (ms : list Mutation) (store : UserProgress)
    : UserProgress :=
  fold_left (fun s m => mutate LEVELS m s) ms store.

(** The level a mutation writes to. *)
Definition target (m : Mutation) : string :=
  match m with MarkTask l _ _ => l | MarkLevel l _ => l end.

(** The discipline of a level session towards the two entry points: a
    task is reported for the level it belongs to, and a level is reported
    complete once all of its tasks are in the set. *)
Definition disciplined_step (LEVELS : list Level.t) (store : UserProgress)
    (m : Mutation) : bool :=
  match m with
  | MarkTask l t _ =>
      match findLevel LEVELS l with
      | Some ld => bool_decide (t ∈ Level.taskIds ld)
      | None => true
      end
  | MarkLevel l _ =>
      match findLevel LEVELS l with
      | Some ld =>
          bool_decide (Forall (λ t, t ∈ completedTasks (progressOf store l))
                              (Level.taskIds ld))
      | None => true
      end
  end.

Fixpoint disciplined (LEVELS : list Level.t) (store : UserProgress)
    (ms : list Mutation) : bool :=
  match ms with
  | [] => true
  | m :: ms' =>
      disciplined_step LEVELS store m && disciplined LEVELS (mutate LEVELS m store) ms'
  end.

(* ===================================================================== *)
(** * Unlock policy (the [useEffect] on [userProgress], App.tsx 44-96) *)
(* ===================================================================== *)

(** [userProgress[id]?.isCompleted] as a condition. *)
Definition isCompletedIn (store : UserProgress) (levelId : string) : bool :=
  match store !! levelId with
  | Some p => isCompleted p
  | None => false
  end.

(** The same for a level of the catalog. *)
Definition completedLevel (store : UserProgress) (l : Level.t) : bool :=
  isCompletedIn store (Level.id l).

(** [l.id === level.unlocksNextLevel] *)
Definition unlocks (level l : Level.t) : bool :=
  match Level.unlocksNextLevel level with
  | Some n => String.eqb (Level.id l) n
  | None => false
  end.

(** The inner [for] loop (lines 73-81): the first level from the start
    that is not completed; on the last iteration the last level. *)
Fixpoint firstUncompleted_loop (store : UserProgress) (rest : list Level.t)
    (maxUnlocked : string) : string :=
  match rest with
  | [] => maxUnlocked
  | l :: rest' =>
      if negb (isCompletedIn store (Level.id l)) then Level.id l (* break *)
      else
        let maxUnlocked :=
          match rest' with [] => Level.id l | _ => maxUnlocked end in
        firstUncompleted_loop store rest' maxUnlocked
  end.

(** The [for (const level of LEVELS)] loop (lines 53-87), run on the
    levels still to visit. It yields [maxUnlocked] and
    [allLevelsCompleted]; [None] stands for the [TypeError] of reading
    [prevLevel.id] on an undefined [prevLevel]. *)
Fixpoint unlock_loop (LEVELS : list Level.t) (store : UserProgress)
    (rest : list Level.t) (maxUnlocked : string) : option (string * bool) :=
  match rest with
  | [] => Some (maxUnlocked, true)
  | level :: rest' =>
      if isCompletedIn store (Level.id level) then
        let maxUnlocked :=
          match find (unlocks level) LEVELS with
          | Some nextLevel => Level.id nextLevel
          | None =>
              if negb (truthy_string (Level.unlocksNextLevel level))
              then Level.id level else maxUnlocked
          end in
        unlock_loop LEVELS store rest' maxUnlocked
      else
        let levelIndex := findLevelIndex LEVELS (Level.id level) in
        if levelIndex =? 0 then Some (Level.id level, false)
        else
          match at_index LEVELS (levelIndex - 1) with
          | None => None
          | Some prevLevel =>
              if isCompletedIn store (Level.id prevLevel)
              then Some (Level.id level, false)
              else Some (firstUncompleted_loop store LEVELS maxUnlocked, false)
          end
  end.

(** The value handed to [setHighestLevelUnlocked] ([None]: the effect
    threw before reaching it). *)
Definition computeHighestUnlocked (LEVELS : list Level.t) (store : UserProgress)
    : option string :=
  match LEVELS with
  | [] => Some "1"
  | _ :: _ =>
      match unlock_loop LEVELS store LEVELS "1" with
      | None => None
      | Some (maxUnlocked, allLevelsCompleted) =>
          if allLevelsCompleted && (0 <? len LEVELS) then
            Level.id <$> at_index LEVELS (len LEVELS - 1)
          else if len LEVELS =? 0 then Some "1"
          else Some maxUnlocked
      end
  end.

(** The words of the unlock policy: a level is reached when it is the
    first one or its predecessor in catalog order is completed; the
    candidates for the highest unlocked level are the levels that are
    reached and not completed. *)
Definition reached (LEVELS : list Level.t) (store : UserProgress) (i : nat) : bool :=
  match i with
  | O => true
  | S j =>
      match LEVELS !! j with
      | Some prev => isCompletedIn store (Level.id prev)
      | None => false
      end
  end.

Definition reached_not_completed (LEVELS : list Level.t) (store : UserProgress)
    (i : nat) : bool :=
  match LEVELS !! i with
  | Some l => reached LEVELS store i && negb (isCompletedIn store (Level.id l))
  | None => false
  end.

(** [LEVELS.length - 1] as an index into a non-empty catalog. *)
Definition lastLevel (LEVELS : list Level.t) : option Level.t :=
  at_index LEVELS (len LEVELS - 1).

(* ===================================================================== *)
(** * Persistence ([localStorage], App.tsx 12-42) *)
(* ===================================================================== *)

(** The content of the [guroUserProgress] item, as the JSON tree its text
    denotes ([JSON.stringify] writes the tree, [JSON.parse] reads it). *)
#[local] Unset Elimination Schemes.
Inductive json :=
  | JNull
  | JBool (b : bool)
  | JNumber (n : Z)
  | JString (s : string)
  | JArray (items : list json)
  | JObject (fields : list (string * json)).
#[local] Set Elimination Schemes.

(** [obj[k]] on a parsed object ([None]: [undefined]). *)
Fixpoint field (k : string) (fields : list (string * json)) : option json :=
  match fields with
  | [] => None
  | (k', v) :: rest => if String.eqb k' k then Some v else field k rest
  end.

(** Truthiness of a parsed value. *)
Definition truthy (v : json) : bool :=
  match v with
  | JNull => false
  | JBool b => b
  | JNumber n => negb (n =? 0)
  | JString s => truthy_string (Some s)
  | JArray _ | JObject _ => true
  end.

(** An optional string member: written when defined, omitted otherwise. *)
Definition member (k : string) (v : option string) : list (string * json) :=
  match v with
  | Some s => [(k, JString s)]
  | None => []
  end.

Definition json_of_ProjectCode (pc : ProjectCode) : json :=
  JObject (member "html" (html pc) ++ member "css" (css pc) ++ member "js" (js pc)).

(** One entry under the replacer of the save: the [Set] is written as
    [Array.from(value)]. *)
Definition json_of_LevelProgress (p : LevelProgress) : json :=
  JObject [ ("completedTasks", JArray (JString <$> elements (completedTasks p)));
            ("currentProjectCode", json_of_ProjectCode (currentProjectCode p));
            ("isCompleted", JBool (isCompleted p)) ].

(** [JSON.stringify(userProgress, replacer)] *)
Definition save (store : UserProgress) : json :=
  JObject (prod_map id json_of_LevelProgress <$> map_to_list store).

(** The elements of a parsed array as task identifiers ([None] when an
    element is not a string: such a set is not a [Set<string>]). *)
Definition strings_of (items : list json) : option (list string) :=
  mapM (fun v => match v with JString s => Some s | _ => None end) items.

(** The repair of [completedTasks] in the initializer (lines 18-27):
    a truthy value that is an array becomes [new Set(array)], a truthy
    value that is no array and a falsy or missing value become
    [new Set()]. Nothing [JSON.parse] returns is an instance of [Set]. *)
Definition restoreCompletedTasks (v : option json) : option (gset string) :=
  match v with
  | Some c =>
      if truthy c then
        match c with
        | JArray items => list_to_set <$> strings_of items
        | _ => Some ∅
        end
      else Some ∅
  | None => Some ∅
  end.

Definition read_string (k : string) (fields : list (string * json)) : option string :=
  match field k fields with
  | Some (JString s) => Some s
  | _ => None
  end.

(** The parsed [currentProjectCode] read at type [ProjectCode]; the
    readers use [currentProjectCode || {}]. *)
Definition read_ProjectCode (v : option json) : ProjectCode :=
  match v with
  | Some (JObject f) =>
      {| html := read_string "html" f; css := read_string "css" f;
         js := read_string "js" f |}
  | _ => emptyProjectCode
  end.

(** One parsed entry after the repair, read at the type of a
    [UserProgress] entry ([isCompleted] is only ever tested for
    truthiness). *)
Definition read_entry (v : json) : option LevelProgress :=
  match v with
  | JObject f =>
      match restoreCompletedTasks (field "completedTasks" f) with
      | Some done =>
          Some {| completedTasks := done;
                  currentProjectCode := read_ProjectCode (field "currentProjectCode" f);
                  isCompleted := from_option truthy false (field "isCompleted" f) |}
      | None => None
      end
  | _ => None
  end.

(** The [useState] initializer: no saved item gives [{}]; a saved object
    is repaired entry by entry ([None]: the saved tree is not the image of
    a [UserProgress], or the initializer throws on it). *)
Definition load (savedProgress : option json) : option UserProgress :=
  match savedProgress with
  | None => Some ∅
  | Some (JObject entries) =>
      list_to_map <$>
        mapM (fun kv => match read_entry kv.2 with
                        | Some p => Some (kv.1, p)
                        | None => None
                        end) entries
  | Some _ => None
  end.

(* ===================================================================== *)
(** * The App component: state, handlers, effect *)
(* ===================================================================== *)

Record AppState := mkApp {
  currentView : AppView;
  currentLevelId : option string;
  userProgress : UserProgress;
  highestLevelUnlocked : string;
  (** the [guroUserProgress] item of [localStorage] *)
  storage : option json;
}.

(** What a handler shows to the learner. *)
Inductive Outcome :=
  | Silent
  | Alert (msg : string)
  | Thrown.

Definition quote : string := String "034"%char EmptyString.

(** The two texts of [firstLockedMessage] (lines 112-114). *)
Definition genericLockedMessage : string :=
  "Complete previous levels to unlock this one!".

Definition firstLockedMessage (cur next : Level.t) : string :=
  "Please complete " +:+ quote +:+ Level.title cur +:+ quote
  +:+ " to unlock " +:+ quote +:+ Level.title next +:+ quote +:+ ".".

(** The state after a permitted selection. *)
Definition opened (levelId : string) (st : AppState) : AppState :=
  {| currentView := level_view; currentLevelId := Some levelId;
     userProgress := userProgress st;
     highestLevelUnlocked := highestLevelUnlocked st;
     storage := storage st |}.

(** [selectLevel] (App.tsx, lines 100-118). [Thrown] is the [TypeError]
    of reading [.title] from an undefined array element. *)
Definition selectLevel (LEVELS : list Level.t) (levelId : string) (st : AppState)
    : AppState * Outcome :=
  match findLevel LEVELS levelId with
  | None => (st, Silent)
  | Some _ =>
      let levelIndex := findLevelIndex LEVELS levelId in
      let highestUnlockedIndex := findLevelIndex LEVELS (highestLevelUnlocked st) in
      if levelIndex <=? highestUnlockedIndex then (opened levelId st, Silent)
      else if highestUnlockedIndex + 1 <? len LEVELS then
        match at_index LEVELS highestUnlockedIndex,
              at_index LEVELS (highestUnlockedIndex + 1) with
        | Some cur, Some next =>
            (st, Alert (firstLockedMessage cur next))
        | _, _ => (st, Thrown)
        end
      else (st, Alert genericLockedMessage)
  end.

(** The effect run after [userProgress] changed: the store is saved and
    the highest unlocked level recomputed. *)
Definition progressEffect (LEVELS : list Level.t) (st : AppState) : AppState :=
  {| currentView := currentView st; currentLevelId := currentLevelId st;
     userProgress := userProgress st;
     highestLevelUnlocked :=
       default (highestLevelUnlocked st)
               (computeHighestUnlocked LEVELS (userProgress st));
     storage := Some (save (userProgress st)) |}.

(** The events the presentation layer sends to [App]. *)
Inductive Event :=
  | SelectLevel (levelId : string)
  | TaskComplete (levelId taskId : string) (projectCodeUpdate : option ProjectCode)
  | CompleteLevel (levelId : string) (finalProjectCode : option ProjectCode)
  | Exit.

Definition handle (LEVELS : list Level.t) (e : Event) (st : AppState)
    : AppState * Outcome :=
  match e with
  | SelectLevel levelId => selectLevel LEVELS levelId st
  | TaskComplete levelId taskId pc =>
      (progressEffect LEVELS
         {| currentView := currentView st; currentLevelId := currentLevelId st;
            userProgress := updateTaskProgress LEVELS levelId taskId pc (userProgress st);
            highestLevelUnlocked := highestLevelUnlocked st;
            storage := storage st |}, Silent)
  | CompleteLevel levelId pc =>
      (progressEffect LEVELS
         {| currentView := level_selector; currentLevelId := None;
            userProgress := completeLevel levelId pc (userProgress st);
            highestLevelUnlocked := highestLevelUnlocked st;
            storage := storage st |}, Silent)
  | Exit =>
      ({| currentView := level_selector; currentLevelId := None;
          userProgress := userProgress st;
          highestLevelUnlocked := highestLevelUnlocked st;
          storage := storage st |}, Silent)
  end.

(* ===================================================================== *)
(** * The level session (LevelView.tsx) *)
(* ===================================================================== *)

Record LevelViewState := mkView {
  currentTaskIndex : Z;
  userCode : string;
  feedback : option ValidationResult;
  projectCode : ProjectCode;
  isSubmitting : bool;
}.

(** [feedback?.success] as a condition. *)
Definition feedbackSuccess (f : option ValidationResult) : bool :=
  match f with
  | Some r => success r
  | None => false
  end.

(** [handleCodeChange] (LevelView.tsx, lines 129-133). *)
Definition handleCodeChange (newCode : string) (st : LevelViewState) : LevelViewState :=
  let st :=
    {| currentTaskIndex := currentTaskIndex st; userCode := newCode;
       feedback := feedback st; projectCode := projectCode st;
       isSubmitting := isSubmitting st |} in
  if feedbackSuccess (feedback st) then st
  else
    {| currentTaskIndex := currentTaskIndex st; userCode := userCode st;
       feedback := None; projectCode := projectCode st;
       isSubmitting := isSubmitting st |}.

(* ===================================================================== *)
(** * The level catalog (constants/levels.ts) *)
(* ===================================================================== *)

(** The catalog [LEVELS] as the progression engine sees it: for every
    level its id, title, tasks (id and language) and [unlocksNextLevel],
    in the order of the source array. *)
Definition task (i : string) (l : Language) : Task.t := Task.mk i l.

Definition LEVELS : list Level.t := [
  Level.mk "1" "Intro: What is HTML?"
    [task "1.1" HTML; task "1.2" HTML; task "1.3" HTML]
    (Some "2");
  Level.mk "2" "Paragraphs and Text"
    [task "2.1" HTML; task "2.2" HTML; task "2.3" HTML]
    (Some "3");
  Level.mk "3" "Text Formatting"
    [task "3.1" HTML; task "3.2" HTML; task "3.3" HTML]
    (Some "4");
  Level.mk "4" "Lists: Ordered & Unordered"
    [task "4.1" HTML; task "4.2" HTML]
    (Some "5");
  Level.mk "5" "Links and Attributes"
    [task "5.1" HTML; task "5.2" HTML]
    (Some "6");
  Level.mk "6" "Images"
    [task "6.1" HTML; task "6.2" HTML]
    (Some "7");
  Level.mk "7" "Comments & Page Structure"
    [task "7.1" HTML; task "7.2" HTML]
    (Some "bonus1");
  Level.mk "bonus1" "Bonus: Your First Webpage"
    [task "b1.1" HTML]
    (Some "8");
  Level.mk "8" "Intro to CSS: Styling!"
    [task "8.1" HTML; task "8.2" CSS]
    (Some "9");
  Level.mk "9" "CSS Selectors: Class & ID"
    [task "9.1" CSS; task "9.2" CSS]
    (Some "10");
  Level.mk "10" "Font Styling"
    [task "10.1" CSS; task "10.2" CSS; task "10.3" CSS]
    (Some "11");
  Level.mk "11" "The Box Model"
    [task "11.1" CSS; task "11.2" CSS; task "11.3" CSS]
    (Some "12");
  Level.mk "12" "CSS Units"
    [task "12.1" CSS; task "12.2" CSS; task "12.3" CSS]
    (Some "13");
  Level.mk "13" "Display Property"
    [task "13.1" HTML; task "13.2" CSS; task "13.3" CSS; task "13.4" CSS]
    (Some "14");
  Level.mk "14" "Styling Links"
    [task "14.1" CSS; task "14.2" CSS]
    (Some "bonus2");
  Level.mk "bonus2" "Bonus: Style Your Page"
    [task "b2.1" CSS]
    (Some "15");
  Level.mk "15" "Intro to JavaScript!"
    [task "15.1" HTML; task "15.2" JavaScript]
    (Some "16");
  Level.mk "16" "Variables & Data Types"
    [task "16.1" JavaScript; task "16.2" JavaScript; task "16.3" JavaScript]
    (Some "17");
  Level.mk "17" "Functions"
    [task "17.1" JavaScript; task "17.2" JavaScript; task "17.3" JavaScript]
    (Some "18");
  Level.mk "18" "Conditional Logic: If/Else"
    [task "18.1" JavaScript; task "18.2" JavaScript; task "18.3" JavaScript]
    (Some "19");
  Level.mk "19" "DOM Manipulation: Get & Set"
    [task "19.1" JavaScript; task "19.2" JavaScript; task "19.3" JavaScript]
    (Some "20");
  Level.mk "20" "Event Listeners: Click!"
    [task "20.1" JavaScript; task "20.2" JavaScript; task "20.3" JavaScript]
    (Some "bonus3");
  Level.mk "bonus3" "Bonus: Interactive About Me"
    [task "b3.1" JavaScript]
    (Some "21");
  Level.mk "21" "Calc HTML: Structure"
    [task "21.1" HTML; task "21.2" HTML; task "21.3" HTML]
    (Some "22");
  Level.mk "22" "Calc CSS: Styling"
    [task "22.1" CSS; task "22.2" CSS; task "22.3" CSS; task "22.4" CSS; task "22.5" CSS]
    (Some "23");
  Level.mk "23" "Calc JS: Number Input"
    [task "23.1" JavaScript; task "23.2" JavaScript; task "23.3" JavaScript]
    (Some "24");
  Level.mk "24" "Calc JS: Operators & Logic"
    [task "24.1" JavaScript; task "24.2" JavaScript; task "24.3" JavaScript]
    (Some "25");
  Level.mk "25" "Calc JS: Equals & Clear"
    [task "25.1" JavaScript; task "25.2" JavaScript; task "25.3" JavaScript]
    (Some "bonus4");
  Level.mk "bonus4" "Bonus: Calc Enhancements"
    [task "b4.1" JavaScript]
    (Some "26");
  Level.mk "26" "Store HTML: Page Layout"
    [task "26.1" HTML; task "26.2" HTML]
    (Some "27");
  Level.mk "27" "Store CSS: Basic Styling"
    [task "27.1" CSS; task "27.2" CSS; task "27.3" CSS; task "27.4" CSS]
    (Some "28");
  Level.mk "28" "Store JS: Dynamic Products"
    [task "28.1" JavaScript; task "28.2" JavaScript]
    (Some "29");
  Level.mk "29" "Store CSS: Responsiveness"
    [task "29.1" CSS; task "29.2" CSS]
    (Some "30");
  Level.mk "30" "Store JS: Add to Cart"
    [task "30.1" JavaScript; task "30.2" JavaScript]
    (Some "bonus5");
  Level.mk "bonus5" "Bonus: Store Enhancements"
    [task "b5.1" JavaScript]
    None
].


(* ===================================================================== *)
(** * The completion test of the data model *)
(* ===================================================================== *)

(** [completedTasks] holds every task identifier of the level. *)
Definition holdsEveryTask (L : Level.t) (p : LevelProgress) : Prop :=
  ∀ t, t ∈ Level.taskIds L → t ∈ completedTasks p.

(** The task identifiers of a level as a set. *)
Definition taskSet (L : Level.t) : gset string := list_to_set (Level.taskIds L).

(** A stored set of [L] stays within the level's tasks and the flag says
    exactly that the set has them all. *)
Definition within_tasks (L : Level.t) (store : UserProgress) : Prop :=
  ∀ p, store !! Level.id L = Some p →
    completedTasks p ⊆ taskSet L
    ∧ (isCompleted p = true ↔ taskSet L ⊆ completedTasks p).

(** [completedTasks.size === tasks.length] *)
Definition sizeMatches (L : Level.t) (p : LevelProgress) : Prop :=
  size (completedTasks p) = length (Level.tasks L).


(** A three-level catalog [A -> B -> C] and a store entry with the
    completion flag set, for the examples of the unlock policy. *)
Definition catalogABC : list Level.t :=
  [ Level.mk "A" "Level A" [task "a.1" HTML] (Some "B");
    Level.mk "B" "Level B" [task "b.1" CSS] (Some "C");
    Level.mk "C" "Level C" [task "c.1" JavaScript] None ].

Definition completedWith (ts : list string) : LevelProgress :=
  {| completedTasks := list_to_set ts; currentProjectCode := emptyProjectCode;
     isCompleted := true |}.

(* ===================================================================== *)
(** * JavaScript string operations used by the validators *)
(* ===================================================================== *)

(** Strings are sequences of code units below 256 (Latin-1). *)

Definition strlen (s : string) : Z := Z.of_nat (String.length s).

Fixpoint dropChars (n : nat) (s : string) : string :=
  match n, s with
  | O, _ => s
  | S n', String _ s' => dropChars n' s'
  | S _, EmptyString => EmptyString
  end.

Fixpoint takeChars (n : nat) (s : string) : string :=
  match n, s with
  | O, _ => EmptyString
  | S n', String c s' => String c (takeChars n' s')
  | S _, EmptyString => EmptyString
  end.

(** An index argument clamped to [0, length]. *)
Definition clamp (i : Z) (s : string) : nat :=
  Z.to_nat (Z.min (Z.max i 0) (strlen s)).

Fixpoint indexOf_scan (searchString s : string) (i : Z) : Z :=
  if String.prefix searchString s then i
  else
    match s with
    | EmptyString => -1
    | String _ s' => indexOf_scan searchString s' (i + 1)
    end.

(** [s.indexOf(searchString, position)] *)
Definition indexOf (s searchString : string) (position : Z) : Z :=
  let k := clamp position s in
  indexOf_scan searchString (dropChars k s) (Z.of_nat k).

(** [s.includes(searchString)] *)
Definition includes (s searchString : string) : bool :=
  negb (indexOf s searchString 0 =? -1).

(** [s.substring(indexStart, indexEnd)]: both ends are clamped and
    swapped when out of order. *)
Definition substring (s : string) (indexStart indexEnd : Z) : string :=
  let a := clamp indexStart s in
  let b := clamp indexEnd s in
  takeChars (Nat.max a b - Nat.min a b) (dropChars (Nat.min a b) s).

(** White space and line terminators among the Latin-1 code units: the
    characters [\s] matches and [trim] removes. *)
Definition isWhiteSpace (c : ascii) : bool :=
  let n := nat_of_ascii c in
  (Nat.leb 9 n && Nat.leb n 13) || Nat.eqb n 32 || Nat.eqb n 160.

Fixpoint trimStart (s : string) : string :=
  match s with
  | EmptyString => EmptyString
  | String c s' => if isWhiteSpace c then trimStart s' else s
  end.

Fixpoint trimEnd (s : string) : string :=
  match s with
  | EmptyString => EmptyString
  | String c s' =>
      match trimEnd s' with
      | EmptyString => if isWhiteSpace c then EmptyString else String c EmptyString
      | t => String c t
      end
  end.

(** [s.trim()] *)
Definition trim (s : string) : string := trimEnd (trimStart s).

Definition lowerChar (c : ascii) : ascii :=
  let n := nat_of_ascii c in
  if (Nat.leb 65 n && Nat.leb n 90)
     || (Nat.leb 192 n && Nat.leb n 222 && negb (Nat.eqb n 215))
  then ascii_of_nat (n + 32) else c.

(** [s.toLowerCase()] *)
Fixpoint toLowerCase (s : string) : string :=
  match s with
  | EmptyString => EmptyString
  | String c s' => String (lowerChar c) (toLowerCase s')
  end.

(** A regular expression supplied by the catalog, by its source text and
    its [test] method (no catalog pattern carries the [g] or [y] flag, so
    [test] has no state). *)
Record RegExp := mkRegExp {
  source : string;
  test : string → bool;
}.

(** An expected value of type [string | RegExp]. *)
Inductive Expected :=
  | Literal (s : string)
  | Pattern (r : RegExp).

(** [msg] contains [s]. *)
Definition mentions (msg s : string) : Prop :=
  ∃ before after, msg = before +:+ s +:+ after.

Definition failure (msg : string) : ValidationResult :=
  {| success := false; message := msg; updatedProjectCode := None |}.

Definition passed (msg : string) : ValidationResult :=
  {| success := true; message := msg; updatedProjectCode := None |}.

(* ===================================================================== *)
(** * The structural markup validator (constants/levels.ts, 5-64) *)
(* ===================================================================== *)

(** What the validator reads from a DOM element. *)
Record Element := mkElement {
  textContent : string;
  attributeList : list (string * string);
}.

(** [element.getAttribute(name)] ([None]: [null]). *)
Fixpoint getAttribute_in (l : list (string * string)) (name : string) : option string :=
  match l with
  | [] => None
  | (k, v) :: rest => if String.eqb k name then Some v else getAttribute_in rest name
  end.

Definition getAttribute (e : Element) (name : string) : option string :=
  getAttribute_in (attributeList e) name.

(** The browser interface the validator calls: [DOMParser] with
    [parseFromString(code, 'text/html')], and [querySelectorAll], which
    returns the matching elements in document order or throws (here
    [inl], with the message of the exception). *)
Class Browser := {
  Document : Type;
  parseFromString : string → Document;
  querySelectorAll : Document → string → string + list Element;
}.

(** One entry of [expectedElements]. An absent [attributes] and the empty
    record are the empty list. *)
Record ExpectedElement := mkExpected {
  tag : string;
  text : option Expected;
  attributes : list (string * Expected);
  count : option Z;
  parentSelector : option string;
}.

(** [el.parentSelector ? `${el.parentSelector} > ${el.tag}` : el.tag] *)
Definition selectorOf (el : ExpectedElement) : string :=
  if truthy_string (parentSelector el)
  then default EmptyString (parentSelector el) +:+ " > " +:+ tag el
  else tag el.

(** [el.parentSelector ? ` inside ${el.parentSelector}` : ''] *)
Definition insideParent (el : ExpectedElement) : string :=
  if truthy_string (parentSelector el)
  then " inside " +:+ default EmptyString (parentSelector el)
  else EmptyString.

(** [<${el.tag}>], the tag as the messages write it. *)
Definition inBrackets (t : string) : string := "<" +:+ t +:+ ">".

Definition countMessage (el : ExpectedElement) (n found : Z) : string :=
  "Expected " +:+ pretty n +:+ " " +:+ inBrackets (tag el) +:+ " element(s)"
  +:+ insideParent el +:+ ", but found " +:+ pretty found +:+ ".".

Definition missingMessage (el : ExpectedElement) : string :=
  "Missing " +:+ inBrackets (tag el) +:+ " element" +:+ insideParent el +:+ ".".

Definition textPatternMessage (el : ExpectedElement) (found : string) : string :=
  inBrackets (tag el) +:+ " element text does not match pattern. Found: "
  +:+ quote +:+ found +:+ quote.

Definition textLiteralMessage (el : ExpectedElement) (expected found : string) : string :=
  inBrackets (tag el) +:+ " element should contain text: " +:+ quote +:+ expected
  +:+ quote +:+ ". Found: " +:+ quote +:+ found +:+ quote.

(** [`${actualValue}`] for a [string | null]. *)
Definition showNullable (v : option string) : string := default "null" v.

Definition attributePatternMessage (el : ExpectedElement) (attr : string)
    (actual : option string) : string :=
  inBrackets (tag el) +:+ " element attribute '" +:+ attr +:+ "' value "
  +:+ quote +:+ showNullable actual +:+ quote +:+ " does not match pattern.".

Definition attributeLiteralMessage (el : ExpectedElement) (attr expected : string)
    (actual : option string) : string :=
  inBrackets (tag el) +:+ " element attribute '" +:+ attr +:+ "' should be '"
  +:+ expected +:+ "'. Found '" +:+ showNullable actual +:+ "'.".

(** The text check on the first element (lines 30-41); [Some] carries the
    failure message. A falsy [el.text] (absent or empty) is not checked. *)
Definition checkText (el : ExpectedElement) (firstElement : Element) : option string :=
  match text el with
  | Some (Pattern r) =>
      if negb (test r (textContent firstElement))
      then Some (textPatternMessage el (textContent firstElement)) else None
  | Some (Literal (String c s)) =>
      if negb (includes (textContent firstElement) (String c s))
      then Some (textLiteralMessage el (String c s) (textContent firstElement))
      else None
  | Some (Literal EmptyString) | None => None
  end.

(** The loop over [el.attributes] (lines 43-55). *)
Fixpoint checkAttributes (el : ExpectedElement) (attrs : list (string * Expected))
    (firstElement : Element) : option string :=
  match attrs with
  | [] => None
  | (attr, expectedValue) :: rest =>
      let actualValue := getAttribute firstElement attr in
      match expectedValue with
      | Pattern r =>
          if match actualValue with
             | None => true
             | Some v => negb (test r v)
             end
          then Some (attributePatternMessage el attr actualValue)
          else checkAttributes el rest firstElement
      | Literal expected =>
          if negb (bool_decide (actualValue = Some expected))
          then Some (attributeLiteralMessage el attr expected actualValue)
          else checkAttributes el rest firstElement
      end
  end.

(** [!el.count] *)
Definition countFalsy (c : option Z) : bool :=
  match c with
  | None => true
  | Some n => n =? 0
  end.

(** [el.count !== undefined && elements.length !== el.count] *)
Definition countDiffers (c : option Z) (elements : list Element) : bool :=
  match c with
  | Some n => negb (len elements =? n)
  | None => false
  end.

(** The body of the loop for one expectation, given the result of
    [querySelectorAll] (lines 21-57); [Some] carries the failure message. *)
Definition checkElement (elements : list Element) (el : ExpectedElement) : option string :=
  if countDiffers (count el) elements then
    Some (countMessage el (default 0 (count el)) (len elements))
  else if countFalsy (count el) && (len elements =? 0)
          && negb (String.eqb (tag el) "!--") then
    Some (missingMessage el)
  else
    match elements with
    | firstElement :: _ =>
        match checkText el firstElement with
        | Some msg => Some msg
        | None => checkAttributes el (attributes el) firstElement
        end
    | [] => None
    end.

(** One expectation against a document: the query, then the checks; an
    exception of the query is caught by the validator's [catch]. *)
Definition expectationFailure `{Browser} (doc : Document) (el : ExpectedElement)
    : option string :=
  match querySelectorAll doc (selectorOf el) with
  | inl err => Some ("Error parsing HTML: " +:+ err)
  | inr elements => checkElement elements el
  end.

Fixpoint expectations_loop `{Browser} (doc : Document)
    (expectedElements : list ExpectedElement) : ValidationResult :=
  match expectedElements with
  | [] => passed "HTML structure looks good!"
  | el :: rest =>
      match expectationFailure doc el with
      | Some msg => failure msg
      | None => expectations_loop doc rest
      end
  end.

Definition validateHTMLStructure `{Browser} (code : string)
    (expectedElements : list ExpectedElement) : ValidationResult :=
  expectations_loop (parseFromString code) expectedElements.

(** The expectations of task 1.1 (lines 132-136). *)
Definition expected (t : string) (parent : option string) : ExpectedElement :=
  {| tag := t; text := None; attributes := []; count := None;
     parentSelector := parent |}.

Definition task_1_1_expectations : list ExpectedElement :=
  [ expected "html" None; expected "head" (Some "html");
    expected "body" (Some "html") ].

(** The document an HTML parser builds for a text that holds no element
    besides [html], [head] and [body]: these three elements, each empty,
    [head] and [body] being the children of [html]. Only type selectors
    and the child combinator over these three are answered; that is all
    the expectations of task 1.1 ask. *)
Definition emptyElement : Element := {| textContent := EmptyString; attributeList := [] |}.

Definition skeletonDocument (selector : string) : string + list Element :=
  if bool_decide (selector ∈ ["html"; "head"; "body"; "html > head"; "html > body"])
  then inr [emptyElement] else inr [].

Definition skeletonBrowser : Browser :=
  {| Document := string → string + list Element;
     parseFromString := λ _, skeletonDocument;
     querySelectorAll := λ doc selector, doc selector |}.

(** A document has the skeleton when [html], [html > head] and
    [html > body] each select some element. *)
Definition hasSkeleton `{Browser} (doc : Document) : Prop :=
  ∃ h hs d ds b bs,
    querySelectorAll doc "html" = inr (h :: hs)
    ∧ querySelectorAll doc "html > head" = inr (d :: ds)
    ∧ querySelectorAll doc "html > body" = inr (b :: bs).

(* ===================================================================== *)
(** * The structural style validator (constants/levels.ts, 67-116) *)
(* ===================================================================== *)

(** The property regular expression
    [new RegExp(`${prop}\\s*:\\s*([^;]+)`)]. For a property name free
    of regex metacharacters (letters, digits, [-] and [_]: every property
    name of the catalog) the name stands for itself and the expression is
    matched by hand below; for any other name the match is the engine's
    ([matchPropRegex]). *)
Definition isNameChar (c : ascii) : bool :=
  let n := nat_of_ascii c in
  (Nat.leb 48 n && Nat.leb n 57) || (Nat.leb 65 n && Nat.leb n 90)
  || (Nat.leb 97 n && Nat.leb n 122) || Nat.eqb n 45 || Nat.eqb n 95.

Fixpoint plainName (s : string) : bool :=
  match s with
  | EmptyString => true
  | String c s' => isNameChar c && plainName s'
  end.

Fixpoint stripPrefix (p s : string) : option string :=
  match p, s with
  | EmptyString, _ => Some s
  | String a p', String b s' => if Ascii.eqb a b then stripPrefix p' s' else None
  | String _ _, EmptyString => None
  end.

(** [\s*], greedy: the last white-space character consumed, if any, and
    what follows the run. *)
Fixpoint skipWhiteSpace (last : option ascii) (s : string) : option ascii * string :=
  match s with
  | EmptyString => (last, EmptyString)
  | String c s' => if isWhiteSpace c then skipWhiteSpace (Some c) s' else (last, s)
  end.

(** The longest run of characters other than [;]. *)
Fixpoint untilSemicolon (s : string) : string :=
  match s with
  | EmptyString => EmptyString
  | String c s' => if Ascii.eqb c ";" then EmptyString else String c (untilSemicolon s')
  end.

(** A match of the regular expression starting at the first character of
    [s]: the text of group 1. The name, then white space, a colon and
    white space; group 1 is the run up to the next [;]. When that run is
    empty the engine backtracks and gives the last white-space character
    after the colon to the group; with none to give there is no match
    here. *)
Definition matchPropertyAt (prop s : string) : option string :=
  match stripPrefix prop s with
  | None => None
  | Some afterName =>
      match (skipWhiteSpace None afterName).2 with
      | String c afterColon =>
          if Ascii.eqb c ":" then
            let (lastSpace, rest) := skipWhiteSpace None afterColon in
            match untilSemicolon rest with
            | EmptyString =>
                match lastSpace with
                | Some w => Some (String w EmptyString)
                | None => None
                end
            | value => Some value
            end
          else None
      | EmptyString => None
      end
  end.

(** [ruleContent.match(propRegex)]: group 1 of the leftmost match. *)
Fixpoint matchProperty (prop ruleContent : string) : option string :=
  match matchPropertyAt prop ruleContent with
  | Some value => Some value
  | None =>
      match ruleContent with
      | EmptyString => None
      | String _ rest => matchProperty prop rest
      end
  end.

(** The regular-expression engine of the browser, for the property
    expressions that are not matched by hand:
    [ruleContent.match(new RegExp(source))] throws when the source is no
    regular expression ([inl], with the message of the exception), finds
    no match ([inr None]), or gives group 1 of the leftmost match
    ([inr (Some g)]; [g] is [None] when the group took no part in the
    match). *)
Class RegExpEngine := {
  matchGroup1 : string → string → string + option (option string);
}.

(** The source text of the property expression (line 91). *)
Definition propRegexSource (prop : string) : string :=
  prop +:+ "\s*:\s*([^;]+)".

(** [ruleContent.match(propRegex)] (lines 91-92) *)
Definition matchPropRegex `{RegExpEngine} (prop ruleContent : string)
    : string + option (option string) :=
  if plainName prop then inr (Some <$> matchProperty prop ruleContent)
  else matchGroup1 (propRegexSource prop) ruleContent.

(** An engine that takes no source for a regular expression. It stands
    in where every property name is plain, so that the engine is never
    asked. *)
Definition noEngine : RegExpEngine :=
  {| matchGroup1 := λ _ _, inl "Invalid regular expression" |}.

(** One entry of [expectedStyles]; [properties] in the order [for...in]
    visits them. *)
Record ExpectedStyle := mkStyle {
  selector : string;
  properties : list (string * Expected);
}.

Definition selectorNotFoundMessage (sel : string) : string :=
  "CSS rule for selector '" +:+ sel +:+ "' not found.".

Definition bracesMessage (sel : string) : string :=
  "Could not find opening or closing braces for CSS rule '" +:+ sel +:+ "'.".

Definition propertyNotFoundMessage (prop sel : string) : string :=
  "Property '" +:+ prop +:+ "' not found for selector '" +:+ sel +:+ "'.".

Definition patternMismatchMessage (prop sel actual src : string) : string :=
  "Property '" +:+ prop +:+ "' for '" +:+ sel +:+ "' has value '" +:+ actual
  +:+ "', which does not match pattern '" +:+ src +:+ "'.".

Definition valueMismatchMessage (prop sel expected actual : string) : string :=
  "Property '" +:+ prop +:+ "' for '" +:+ sel +:+ "' should be '" +:+ expected
  +:+ "', but found '" +:+ actual +:+ "'.".

(** The message of the [catch] (line 114). *)
Definition errorValidatingMessage (err : string) : string :=
  "Error validating CSS: " +:+ err.

(** The comparison of the trimmed value with the expected one
    (lines 100-108). *)
Definition valueAccepted (value : Expected) (actualValue : string) : bool :=
  match value with
  | Pattern r => test r actualValue
  | Literal v => String.eqb (toLowerCase actualValue) (toLowerCase v)
  end.

(** The loop over [style.properties] (lines 90-109); [Some] carries the
    failure message. An exception of the engine is caught by the
    validator's [catch]. *)
Fixpoint checkProperties `{RegExpEngine} (sel ruleContent : string)
    (props : list (string * Expected)) : option string :=
  match props with
  | [] => None
  | (prop, value) :: rest =>
      match matchPropRegex prop ruleContent with
      | inl err => Some (errorValidatingMessage err)
      | inr None | inr (Some None) | inr (Some (Some EmptyString)) =>
          Some (propertyNotFoundMessage prop sel)
      | inr (Some (Some raw)) =>
          let actualValue := trim raw in
          if valueAccepted value actualValue then checkProperties sel ruleContent rest
          else
            Some match value with
                 | Pattern r => patternMismatchMessage prop sel actualValue (source r)
                 | Literal v => valueMismatchMessage prop sel v actualValue
                 end
      end
  end.

(** The positions the scan computes for one style (lines 77, 82, 83) and
    the text between the braces (line 88). *)
Definition selectorIndexOf (code : string) (style : ExpectedStyle) : Z :=
  indexOf code (selector style) 0.

Definition ruleStartIndexOf (code : string) (style : ExpectedStyle) : Z :=
  indexOf code "{" (selectorIndexOf code style).

Definition ruleEndIndexOf (code : string) (style : ExpectedStyle) : Z :=
  indexOf code "}" (ruleStartIndexOf code style).

Definition ruleContentOf (code : string) (style : ExpectedStyle) : string :=
  substring code (ruleStartIndexOf code style + 1) (ruleEndIndexOf code style).

(** The body of the loop for one style (lines 77-109). *)
Definition styleFailure `{RegExpEngine} (code : string) (style : ExpectedStyle)
    : option string :=
  if selectorIndexOf code style =? -1
  then Some (selectorNotFoundMessage (selector style))
  else if (ruleStartIndexOf code style =? -1) || (ruleEndIndexOf code style =? -1)
  then Some (bracesMessage (selector style))
  else checkProperties (selector style) (ruleContentOf code style) (properties style).

Fixpoint validateCSSProperties `{RegExpEngine} (code : string)
    (expectedStyles : list ExpectedStyle) : ValidationResult :=
  match expectedStyles with
  | [] => passed "CSS styles look correct!"
  | style :: rest =>
      match styleFailure code style with
      | Some msg => failure msg
      | None => validateCSSProperties code rest
      end
  end.

(** The validator's contract in words: the selector occurs, a block in
    braces follows its first occurrence, and every required property is
    found in the block with an accepted value. *)
Definition propertyMet `{RegExpEngine} (ruleContent : string)
    (pv : string * Expected) : Prop :=
  ∃ raw, matchPropRegex pv.1 ruleContent = inr (Some (Some raw))
       ∧ raw ≠ EmptyString
       ∧ valueAccepted pv.2 (trim raw) = true.

Definition styleMet `{RegExpEngine} (code : string) (style : ExpectedStyle) : Prop :=
  selectorIndexOf code style ≠ -1
  ∧ ruleStartIndexOf code style ≠ -1
  ∧ ruleEndIndexOf code style ≠ -1
  ∧ Forall (propertyMet (ruleContentOf code style)) (properties style).

(** The ways a style expectation can be unmet, each with its message.
    The last one is no finding about the style text: the property name
    is no regular expression for the engine. *)
Inductive StyleUnmet `{RegExpEngine} (code : string) (style : ExpectedStyle)
    : string → Prop :=
  | SelectorMissing :
      selectorIndexOf code style = -1 →
      StyleUnmet code style (selectorNotFoundMessage (selector style))
  | BracesMissing :
      selectorIndexOf code style ≠ -1 →
      ruleStartIndexOf code style = -1 ∨ ruleEndIndexOf code style = -1 →
      StyleUnmet code style (bracesMessage (selector style))
  | PropertyMissing prop value :
      (prop, value) ∈ properties style →
      matchPropRegex prop (ruleContentOf code style) = inr None
      ∨ matchPropRegex prop (ruleContentOf code style) = inr (Some None)
      ∨ matchPropRegex prop (ruleContentOf code style) = inr (Some (Some EmptyString)) →
      StyleUnmet code style (propertyNotFoundMessage prop (selector style))
  | ValueDiffers prop v raw :
      (prop, Literal v) ∈ properties style →
      matchPropRegex prop (ruleContentOf code style) = inr (Some (Some raw)) →
      toLowerCase (trim raw) ≠ toLowerCase v →
      StyleUnmet code style (valueMismatchMessage prop (selector style) v (trim raw))
  | PatternFails prop r raw :
      (prop, Pattern r) ∈ properties style →
      matchPropRegex prop (ruleContentOf code style) = inr (Some (Some raw)) →
      test r (trim raw) = false →
      StyleUnmet code style
        (patternMismatchMessage prop (selector style) (trim raw) (source r))
  | PropertyExpressionInvalid prop value err :
      (prop, value) ∈ properties style →
      matchPropRegex prop (ruleContentOf code style) = inl err →
      StyleUnmet code style (errorValidatingMessage err).

(** White-space runs and values as the property pattern reads them. *)
Fixpoint allWhiteSpace (s : string) : bool :=
  match s with
  | EmptyString => true
  | String c s' => isWhiteSpace c && allWhiteSpace s'
  end.

Fixpoint noSemicolon (s : string) : bool :=
  match s with
  | EmptyString => true
  | String c s' => negb (Ascii.eqb c ";") && noSemicolon s'
  end.

(** A text without the character [c]. *)
Fixpoint lacksChar (c : ascii) (s : string) : bool :=
  match s with
  | EmptyString => true
  | String x s' => negb (Ascii.eqb x c) && lacksChar c s'
  end.

(** A value as written: not empty, no [;], no leading white space. *)
Definition writtenValue (s : string) : bool :=
  match s with
  | EmptyString => false
  | String c _ => negb (isWhiteSpace c) && noSemicolon s
  end.

(** The expectation of the example: [{selector:'h1', properties:{color:'red'}}]. *)
Definition h1_color_red : ExpectedStyle :=
  {| selector := "h1"; properties := [("color", Literal "red")] |}.

(** The ways an expectation can be unmet by the elements a query
    returned, each with the message the validator gives for it. *)
Inductive Unmet (el : ExpectedElement) (elements : list Element) : string → Prop :=
  | WrongCount n :
      count el = Some n → len elements ≠ n →
      Unmet el elements (countMessage el n (len elements))
  | MissingElement :
      elements = [] → tag el ≠ "!--" → countFalsy (count el) = true →
      Unmet el elements (missingMessage el)
  | TextPatternFails first others r :
      elements = first :: others → text el = Some (Pattern r) →
      test r (textContent first) = false →
      Unmet el elements (textPatternMessage el (textContent first))
  | TextLiteralFails first others expectedText :
      elements = first :: others → text el = Some (Literal expectedText) →
      includes (textContent first) expectedText = false →
      Unmet el elements (textLiteralMessage el expectedText (textContent first))
  | AttributePatternFails first others attr r :
      elements = first :: others → (attr, Pattern r) ∈ attributes el →
      (∀ v, getAttribute first attr = Some v → test r v = false) →
      Unmet el elements (attributePatternMessage el attr (getAttribute first attr))
  | AttributeLiteralFails first others attr expectedValue :
      elements = first :: others → (attr, Literal expectedValue) ∈ attributes el →
      getAttribute first attr ≠ Some expectedValue →
      Unmet el elements
        (attributeLiteralMessage el attr expectedValue (getAttribute first attr)).

(** The contract of one expectation, on the elements its query returned,
    in the words of the specification: a given count is the number of
    the elements; without a count (a count of zero reads as none) some
    element is required unless the tag is the comment marker; and the
    first element holds the expected text and carries each expected
    attribute. *)
Definition textMet (expectedText : option Expected) (first : Element) : Prop :=
  match expectedText with
  | Some (Pattern r) => test r (textContent first) = true
  | Some (Literal txt) => mentions (textContent first) txt
  | None => True
  end.

Definition attributeMet (first : Element) (av : string * Expected) : Prop :=
  match av.2 with
  | Pattern r => ∃ v, getAttribute first av.1 = Some v ∧ test r v = true
  | Literal v => getAttribute first av.1 = Some v
  end.

Definition Met (el : ExpectedElement) (elements : list Element) : Prop :=
  (∀ n, count el = Some n → Z.of_nat (length elements) = n)
  ∧ (count el = None ∨ count el = Some 0 → tag el ≠ "!--" → elements ≠ [])
  ∧ (∀ first others, elements = first :: others →
       textMet (text el) first ∧ Forall (attributeMet first) (attributes el)).


(* ===================================================================== *)
(** * The rest of the App component and the level selector *)
(* ===================================================================== *)

(** [getCurrentLevel] (App.tsx, lines 165-167): no level id is [===] to
    [null]. *)
Definition getCurrentLevel (LEVELS : list Level.t) (st : AppState) : option Level.t :=
  match currentLevelId st with
  | Some levelId => findLevel LEVELS levelId
  | None => None
  end.

(** The condition under which [App] renders [LevelView] (line 181). *)
Definition rendersLevelView (LEVELS : list Level.t) (st : AppState) : bool :=
  match currentView st with
  | level_view =>
      truthy_string (currentLevelId st)
      && bool_decide (is_Some (getCurrentLevel LEVELS st))
  | level_selector => false
  end.

(** The first render: the store comes from the [useState] initializer,
    the view is the selector, and the effect has run once ([None]: the
    initializer threw). *)
Definition mountApp (LEVELS : list Level.t) (savedProgress : option json)
    : option AppState :=
  match load savedProgress with
  | Some store =>
      Some (progressEffect LEVELS
              {| currentView := level_selector; currentLevelId := None;
                 userProgress := store; highestLevelUnlocked := "1";
                 storage := savedProgress |})
  | None => None
  end.

Definition runEvents (LEVELS : list Level.t) (events : list Event) (st : AppState)
    : AppState :=
  fold_left (fun s e => (handle LEVELS e s).1) events st.

(** The status [LevelSelector] gives a level card ([getLevelStatus],
    LevelSelector.tsx, lines 39-47). *)
Inductive LevelStatus := Completed | Unlocked | Locked.

Definition getLevelStatus (levels : list Level.t) (userProgress : UserProgress)
    (highestLevelUnlocked : string) (level : Level.t) : LevelStatus :=
  let levelIndex := findLevelIndex levels (Level.id level) in
  let highestUnlockedIndex := findLevelIndex levels highestLevelUnlocked in
  if isCompletedIn userProgress (Level.id level) then Completed
  else if levelIndex <=? highestUnlockedIndex then Unlocked
  else Locked.

(** The card of a level as the selector shows it for a state of [App]. *)
Definition cardStatus (LEVELS : list Level.t) (st : AppState) (level : Level.t)
    : LevelStatus :=
  getLevelStatus LEVELS (userProgress st) (highestLevelUnlocked st) level.

(** The button of a card is disabled exactly for a locked level
    (line 66). *)
Definition cardDisabled (s : LevelStatus) : bool :=
  match s with Locked => true | _ => false end.

(** [selectLevel] would open the level: it exists and does not lie beyond
    the highest unlocked one. *)
Definition openable (LEVELS : list Level.t) (st : AppState) (levelId : string) : bool :=
  match findLevel LEVELS levelId with
  | Some _ =>
      findLevelIndex LEVELS levelId <=? findLevelIndex LEVELS (highestLevelUnlocked st)
  | None => false
  end.

(** Progress events come from a level session, and a session exists only
    for a level that was opened. *)
Definition fromOpenedLevel (LEVELS : list Level.t) (st : AppState) (e : Event) : bool :=
  match e with
  | TaskComplete levelId _ _ | CompleteLevel levelId _ => openable LEVELS st levelId
  | SelectLevel _ | Exit => true
  end.

Fixpoint sessionEvents (LEVELS : list Level.t) (st : AppState) (events : list Event)
    : bool :=
  match events with
  | [] => true
  | e :: rest =>
      fromOpenedLevel LEVELS st e && sessionEvents LEVELS (handle LEVELS e st).1 rest
  end.

(** The position of the unlock boundary: the first level that is not
    completed, or the last level when all are. *)
Definition boundary (LEVELS : list Level.t) (store : UserProgress) : nat :=
  match list_find (fun l => completedLevel store l = false) LEVELS with
  | Some (i, _) => i
  | None => length LEVELS - 1
  end.

(** The completed levels are the levels before some position. *)
Definition completedPrefix (LEVELS : list Level.t) (store : UserProgress) : Prop :=
  ∀ i j li lj, (j ≤ i)%nat → LEVELS !! i = Some li → LEVELS !! j = Some lj →
    completedLevel store li = true → completedLevel store lj = true.

(** The recomputation is in step with the store: [highestLevelUnlocked]
    is what the effect computes from [userProgress]. *)
Definition synced (LEVELS : list Level.t) (st : AppState) : Prop :=
  computeHighestUnlocked LEVELS (userProgress st) = Some (highestLevelUnlocked st).

(* ===================================================================== *)
(** * The rest of the level session (LevelView.tsx) *)
(* ===================================================================== *)

(** The closures of a task the session calls: [validate] and
    [starterCode] (a fixed string is the constant function, an absent one
    the empty string). *)
Record TaskCode := mkTaskCode {
  validate : string → ProjectCode → ValidationResult;
  starterCode : ProjectCode → string;
}.

(** [level.tasks[currentTaskIndex]] (line 107) *)
Definition currentTask (level : Level.t) (st : LevelViewState) : option Task.t :=
  at_index (Level.tasks level) (currentTaskIndex st).

(** The first effect (lines 109-114): the index of the first task that is
    not in [completedTasks], or the number of tasks when there is none;
    the project code of the level's progress. *)
Definition firstUncompletedIndex (level : Level.t) (userProgress : LevelProgress) : Z :=
  findIndex (fun t => negb (bool_decide (Task.id t ∈ completedTasks userProgress)))
            (Level.tasks level).

Definition syncWithProgress (level : Level.t) (userProgress : LevelProgress)
    (st : LevelViewState) : LevelViewState :=
  let firstUncompletedIndex := firstUncompletedIndex level userProgress in
  {| currentTaskIndex :=
       if 0 <=? firstUncompletedIndex then firstUncompletedIndex
       else len (Level.tasks level);
     userCode := userCode st; feedback := feedback st;
     projectCode := currentProjectCode userProgress;
     isSubmitting := isSubmitting st |}.

(** The second effect (lines 116-127): with a current task, the editor
    takes its starter code and the feedback is cleared. *)
Definition loadStarterCode (content : Task.t → TaskCode) (level : Level.t)
    (st : LevelViewState) : LevelViewState :=
  match currentTask level st with
  | Some t =>
      {| currentTaskIndex := currentTaskIndex st;
         userCode := starterCode (content t) (projectCode st);
         feedback := None; projectCode := projectCode st;
         isSubmitting := isSubmitting st |}
  | None => st
  end.

(** The session once the effects of the first render have run: the
    state of the [useState] initializers, the second effect for the task
    of the first render, the first effect, and the second effect again
    for the task it selected. *)
Definition mountLevelView (content : Task.t → TaskCode) (level : Level.t)
    (userProgress : LevelProgress) : LevelViewState :=
  let st0 :=
    {| currentTaskIndex := 0; userCode := EmptyString; feedback := None;
       projectCode := currentProjectCode userProgress; isSubmitting := false |} in
  loadStarterCode content level
    (syncWithProgress level userProgress (loadStarterCode content level st0)).

(** What a submission schedules with [setTimeout]. *)
Inductive Scheduled :=
  | CompleteLevelAfterDelay (levelId : string) (finalProjectCode : ProjectCode)
  | NextTaskAfterDelay.

(** [handleSubmitCode] (lines 135-168): the next state, the call of
    [onTaskComplete] as the event [App] receives, and the timer set. *)
Definition handleSubmitCode (content : Task.t → TaskCode) (level : Level.t)
    (userProgress : LevelProgress) (st : LevelViewState)
    : LevelViewState * option Event * option Scheduled :=
  match currentTask level st with
  | None => (st, None, None)
  | Some task =>
      if isSubmitting st then (st, None, None)
      else
        let result := validate (content task) (userCode st) (projectCode st) in
        if success result then
          let updated := default (projectCode st) (updatedProjectCode result) in
          ({| currentTaskIndex := currentTaskIndex st; userCode := userCode st;
              feedback := Some result; projectCode := updated;
              isSubmitting := true |},
           Some (TaskComplete (Level.id level) (Task.id task) (Some updated)),
           Some (if (len (Level.tasks level) - 1 <=? currentTaskIndex st)
                    || (Z.of_nat (size (completedTasks userProgress)) + 1
                        =? len (Level.tasks level))
                 then CompleteLevelAfterDelay (Level.id level) updated
                 else NextTaskAfterDelay))
        else
          ({| currentTaskIndex := currentTaskIndex st; userCode := userCode st;
              feedback := Some result; projectCode := projectCode st;
              isSubmitting := false |}, None, None)
  end.

(** The timer callbacks (lines 152-155 and 158-163). *)
Definition fireTimer (t : Scheduled) (st : LevelViewState)
    : LevelViewState * option Event :=
  match t with
  | CompleteLevelAfterDelay levelId pc =>
      ({| currentTaskIndex := currentTaskIndex st; userCode := userCode st;
          feedback := feedback st; projectCode := projectCode st;
          isSubmitting := false |},
       Some (CompleteLevel levelId (Some pc)))
  | NextTaskAfterDelay =>
      ({| currentTaskIndex := currentTaskIndex st; userCode := userCode st;
          feedback := None; projectCode := projectCode st;
          isSubmitting := false |}, None)
  end.

(** The renders that follow a submission the validator accepted, once
    [App] has handed down the new progress of the level (the effects,
    lines 109-127). [st] is the state [handleSubmitCode] left. In the
    first of these renders the second effect runs, with the task of that
    render, when the project code is a new object, which it is when the
    validator returned one (the validators of the catalog that return a
    project code build it with an object literal); the first effect runs,
    the progress being a new object; the project code it sets is the
    object the submission passed to [App], so that the project code does
    not change once more; and in the next render the second effect runs
    again when the current task changed. *)
Definition afterTaskComplete (content : Task.t → TaskCode) (level : Level.t)
    (userProgress : LevelProgress) (st : LevelViewState) : LevelViewState :=
  let codeReplaced :=
    match feedback st with
    | Some result => bool_decide (is_Some (updatedProjectCode result))
    | None => false
    end in
  let st1 := if codeReplaced then loadStarterCode content level st else st in
  let st2 := syncWithProgress level userProgress st1 in
  if currentTaskIndex st2 =? currentTaskIndex st then st2
  else loadStarterCode content level st2.

(** What the session renders (lines 170-197). *)
Inductive Screen :=
  | LevelCompleteScreen
  | LoadingScreen
  | TaskScreen (t : Task.t).

Definition screen (level : Level.t) (userProgress : LevelProgress)
    (st : LevelViewState) : Screen :=
  if (len (Level.tasks level) <=? currentTaskIndex st) && isCompleted userProgress
  then LevelCompleteScreen
  else
    match currentTask level st with
    | None => if isCompleted userProgress then LevelCompleteScreen else LoadingScreen
    | Some t => TaskScreen t
    end.

(** The [disabled] attribute of the submit button (line 218). *)
Definition submitDisabled (st : LevelViewState) : bool :=
  isSubmitting st || feedbackSuccess (feedback st).

(** What the learner does in a session. *)
Inductive Action :=
  | Edit (newCode : string)
  | Submit.

(** A run of actions, with the events sent to [App] and the timers set,
    in order. *)
Fixpoint session (content : Task.t → TaskCode) (level : Level.t)
    (userProgress : LevelProgress) (actions : list Action) (st : LevelViewState)
    : LevelViewState * list Event * list Scheduled :=
  match actions with
  | [] => (st, [], [])
  | Edit newCode :: rest =>
      session content level userProgress rest (handleCodeChange newCode st)
  | Submit :: rest =>
      let '(st', sent, timer) := handleSubmitCode content level userProgress st in
      let '(st'', events, timers) := session content level userProgress rest st' in
      (st'', option_list sent ++ events, option_list timer ++ timers)
  end.

(** The store mutations a submission leads to: the task reported at
    once and, with the timer for it, the level completed. *)
Definition mutationsOf (sent : option Event) (timer : option Scheduled) : list Mutation :=
  match sent with
  | Some (TaskComplete l t pc) => [MarkTask l t pc]
  | _ => []
  end ++
  match timer with
  | Some (CompleteLevelAfterDelay l pc) => [MarkLevel l (Some pc)]
  | _ => []
  end.

(* ===================================================================== *)
(** * The tasks with a validator of their own (constants/levels.ts) *)
(* ===================================================================== *)

Definition newline : string := String "010"%char EmptyString.

(** Task 4.1 (lines 272-296): the markup validator first and, when its
    failure message includes "count", a second look at the [ul > li]
    elements. The second query stands outside any [try]: an exception of
    it leaves the validator ([inl]). *)
Definition task_4_1_expectations : list ExpectedElement :=
  [ expected "ul" None;
    {| tag := "li"; text := Some (Literal "Apple"); attributes := [];
       count := Some 1; parentSelector := Some "ul" |};
    {| tag := "li"; text := Some (Literal "Banana"); attributes := [];
       count := Some 1; parentSelector := Some "ul" |} ].

Definition listItemsMessage (found : Z) : string :=
  "Expected 2 list items (<li>) inside <ul>, found " +:+ pretty found +:+ ".".

Definition validate_4_1 `{Browser} (code : string) : string + ValidationResult :=
  let res := validateHTMLStructure code task_4_1_expectations in
  if negb (success res) && includes (message res) "count" then
    let D := parseFromString code in
    match querySelectorAll D "ul > li" with
    | inl err => inl err
    | inr lis =>
        if negb (len lis =? 2) then inr (failure (listItemsMessage (len lis)))
        else
          let texts := map (fun li => trim (textContent li)) lis in
          if negb (bool_decide ("Apple" ∈ texts)) || negb (bool_decide ("Banana" ∈ texts))
          then inr (failure "List items should be 'Apple' and 'Banana'.")
          else inr (passed "Unordered list created!")
    end
  else inr res.

(** A document with one list of the two fruits, as the instruction of
    task 4.1 asks: [<ul><li>Apple</li><li>Banana</li></ul>]. *)
Definition twoFruitsDocument (selector : string) : string + list Element :=
  if bool_decide (selector ∈ ["html"; "head"; "body"; "ul"])
  then inr [ {| textContent := "AppleBanana"; attributeList := [] |} ]
  else if bool_decide (selector ∈ ["li"; "ul > li"])
  then inr [ {| textContent := "Apple"; attributeList := [] |};
             {| textContent := "Banana"; attributeList := [] |} ]
  else inr [].

(** A browser whose parser gives one fixed document, itself the table
    of what each selector selects. *)
Definition fixedDocumentBrowser (doc : string → string + list Element) : Browser :=
  {| Document := string → string + list Element;
     parseFromString := λ _, doc;
     querySelectorAll := λ d selector, d selector |}.

(** The document of the text [<!-- note -->] in a browser: the parser
    supplies [html], [head] and [body]; a comment is no element, and a
    selector text with [!--] in it is no selector, so that
    [querySelectorAll] throws a [SyntaxError] for it (the message is
    Chrome's). *)
Definition commentDocument (selector : string) : string + list Element :=
  if includes selector "!--"
  then inl ("Failed to execute 'querySelectorAll' on 'Document': '"
            +:+ selector +:+ "' is not a valid selector.")
  else skeletonDocument selector.

(** The kind of entry tasks 4.1 and 13.1 give twice: one child element
    with a text, [{tag, text, parentSelector, count: 1}]. *)
Definition oneChildWithText (t txt parent : string) : ExpectedElement :=
  {| tag := t; text := Some (Literal txt); attributes := [];
     count := Some 1; parentSelector := Some parent |}.

(** Task 13.1 (line 617) *)
Definition task_13_1_expectations : list ExpectedElement :=
  [ expected "p" None;
    {| tag := "span"; text := Some (Literal "span1"); attributes := [];
       count := Some 1; parentSelector := Some "p" |};
    {| tag := "span"; text := Some (Literal "span2"); attributes := [];
       count := Some 1; parentSelector := Some "p" |} ].

(** Level 9 (lines 460-489). [pc?.css || fallback] is the starter code of
    both tasks; the validators first look at the markup of the project. *)
Definition cssOr (fallback : string) (pc : ProjectCode) : string :=
  if truthy_string (css pc) then default EmptyString (css pc) else fallback.

Definition validate_9_1 `{RegExpEngine} (code : string) (pc : ProjectCode)
    : ValidationResult :=
  if negb (truthy_string (html pc))
     || (negb (includes (default EmptyString (html pc)) "class='highlight'")
         && negb (includes (default EmptyString (html pc))
                    ("class=" +:+ quote +:+ "highlight" +:+ quote)))
  then failure "Add class='highlight' to a <p> tag in your HTML."
  else validateCSSProperties code
         [ {| selector := ".highlight";
              properties := [("background-color", Literal "yellow")] |} ].

Definition validate_9_2 `{RegExpEngine} (code : string) (pc : ProjectCode)
    : ValidationResult :=
  if negb (truthy_string (html pc))
     || (negb (includes (default EmptyString (html pc)) "id='main-title'")
         && negb (includes (default EmptyString (html pc))
                    ("id=" +:+ quote +:+ "main-title" +:+ quote)))
  then failure "Add id='main-title' to your <h1> tag in HTML."
  else validateCSSProperties code
         [ {| selector := "#main-title"; properties := [("color", Literal "blue")] |} ].

Definition level_9 : Level.t :=
  Level.mk "9" "CSS Selectors: Class & ID" [task "9.1" CSS; task "9.2" CSS] (Some "10").

(** The closures of the tasks of level 9, by task id. *)
Definition level_9_content `{RegExpEngine} (t : Task.t) : TaskCode :=
  if String.eqb (Task.id t) "9.1" then
    {| validate := validate_9_1;
       starterCode := cssOr (".highlight {" +:+ newline +:+ "  /* Your CSS here */"
                             +:+ newline +:+ "}") |}
  else
    {| validate := validate_9_2;
       starterCode := cssOr ("#main-title {" +:+ newline +:+ "  /* Your CSS here */"
                             +:+ newline +:+ "}") |}.

(** The paragraph the instruction of task 13.1 gives:
    [<p>First <span>span1</span> and <span>span2</span>.</p>]. *)
Definition twoSpansDocument (selector : string) : string + list Element :=
  if bool_decide (selector ∈ ["html"; "head"; "body"; "p"])
  then inr [ {| textContent := "First span1 and span2."; attributeList := [] |} ]
  else if bool_decide (selector ∈ ["span"; "p > span"])
  then inr [ {| textContent := "span1"; attributeList := [] |};
             {| textContent := "span2"; attributeList := [] |} ]
  else inr [].
(* ===================================================================== *)
(** * Properties of the progress store *)
(* ===================================================================== *)

Section ProgressStore.
Variable LEVELS : list Level.t.

Lemma mutate_other (m : Mutation) (store : UserProgress) (lid : string) :
  target m ≠ lid → mutate LEVELS m store !! lid = store !! lid.
Proof.
  destruct m as [l t pc | l pc]; simpl; intros Hne.
  - unfold updateTaskProgress. by rewrite lookup_insert_ne.
  - unfold completeLevel. by rewrite lookup_insert_ne.
Qed.

(** What [updateTaskProgress] leaves under the key it writes. *)
Lemma updateTaskProgress_entry l t pc (prev : UserProgress) :
  ∃ p', updateTaskProgress LEVELS l t pc prev !! l = Some p'
    ∧ completedTasks p' = completedTasks (progressOf prev l) ∪ {[ t ]}
    ∧ isCompleted p' =
        match findLevel LEVELS l with
        | Some ld =>
            (Z.of_nat (size (completedTasks (progressOf prev l) ∪ {[ t ]}))
               =? len (Level.tasks ld))
            || isCompleted (progressOf prev l)
        | None => isCompleted (progressOf prev l)
        end.
Proof.
  unfold updateTaskProgress. rewrite lookup_insert_eq.
  eexists; split; [reflexivity|].
  destruct (findLevel LEVELS l) as [ld|]; [|done].
  by destruct (_ =? _).
Qed.

(** What [completeLevel] leaves under the key it writes. *)
Lemma completeLevel_entry l pc (prev : UserProgress) :
  ∃ p', completeLevel l pc prev !! l = Some p'
    ∧ completedTasks p' = completedTasks (progressOf prev l)
    ∧ isCompleted p' = true.
Proof.
  unfold completeLevel. rewrite lookup_insert_eq.
  eexists; split; [reflexivity|]. split; [|done].
  unfold progressOf. by destruct (prev !! l).
Qed.

Lemma progressOf_other m (store : UserProgress) lid :
  target m ≠ lid → progressOf (mutate LEVELS m store) lid = progressOf store lid.
Proof. intros. unfold progressOf. by rewrite mutate_other. Qed.

(** One mutation never shrinks a set and never clears a flag. *)
Lemma mutate_monotone m (store : UserProgress) lid :
  completedTasks (progressOf store lid)
    ⊆ completedTasks (progressOf (mutate LEVELS m store) lid)
  ∧ (isCompleted (progressOf store lid) = true →
     isCompleted (progressOf (mutate LEVELS m store) lid) = true).
Proof.
  destruct (decide (target m = lid)) as [<-|Hne];
    [|by rewrite progressOf_other].
  destruct m as [l t pc | l pc]; simpl.
  - destruct (updateTaskProgress_entry l t pc store) as (p' & Hp' & Hset & Hflag).
    unfold progressOf at 2 4. rewrite Hp'. simpl. rewrite Hset, Hflag. split.
    + set_solver.
    + intros ->. destruct (findLevel LEVELS l); [apply orb_true_r | done].
  - destruct (completeLevel_entry l pc store) as (p' & Hp' & Hset & Hflag).
    unfold progressOf at 2 4. rewrite Hp'. simpl. by rewrite Hset, Hflag.
Qed.

Lemma run_cons m ms (store : UserProgress) :
  run LEVELS (m :: ms) store = run LEVELS ms (mutate LEVELS m store).
Proof. reflexivity. Qed.

Lemma run_snoc ms m (store : UserProgress) :
  run LEVELS (ms ++ [m]) store = mutate LEVELS m (run LEVELS ms store).
Proof. unfold run. by rewrite fold_left_app. Qed.

Lemma mutate_keeps_entries m (store : UserProgress) lid :
  is_Some (store !! lid) → is_Some (mutate LEVELS m store !! lid).
Proof.
  intros Hs. destruct (decide (target m = lid)) as [<-|Hne];
    [|by rewrite mutate_other].
  destruct m as [l t pc | l pc]; simpl.
  - destruct (updateTaskProgress_entry l t pc store) as (p' & -> & _); eauto.
  - destruct (completeLevel_entry l pc store) as (p' & -> & _); eauto.
Qed.

(** C9: progress is monotone. Along every sequence of store mutations,
    for every level, the completed-task set only grows, a set
    [isCompleted] flag stays set, and a stored entry stays stored;
    reporting a task that is already in the set leaves the set as it
    was. *)
Theorem progress_monotone (ms : list Mutation) (store : UserProgress) (lid : string) :
  completedTasks (progressOf store lid)
    ⊆ completedTasks (progressOf (run LEVELS ms store) lid)
  ∧ (isCompleted (progressOf store lid) = true →
     isCompleted (progressOf (run LEVELS ms store) lid) = true)
  ∧ (is_Some (store !! lid) → is_Some (run LEVELS ms store !! lid))
  ∧ (∀ t pc, t ∈ completedTasks (progressOf store lid) →
       completedTasks (progressOf (updateTaskProgress LEVELS lid t pc store) lid)
       = completedTasks (progressOf store lid)).
Proof.
  split_and!.
  - revert store. induction ms as [|m ms IH]; intros store; [done|].
    rewrite run_cons. etrans; [apply (mutate_monotone m)|apply IH].
  - revert store. induction ms as [|m ms IH]; intros store; [done|].
    rewrite run_cons. intros H. apply IH. by apply mutate_monotone.
  - revert store. induction ms as [|m ms IH]; intros store; [done|].
    rewrite run_cons. intros H. apply IH. by apply mutate_keeps_entries.
  - intros t pc Hin.
    destruct (updateTaskProgress_entry lid t pc store) as (p' & Hp' & Hset & _).
    unfold progressOf at 1. rewrite Hp'. simpl. rewrite Hset. set_solver.
Qed.

End ProgressStore.

(* ===================================================================== *)
(** * The completion flag *)
(* ===================================================================== *)

(** C1, as stated, fails: on the catalog, [completeLevel("1")] on the
    empty store leaves level 1 with [isCompleted] set while none of its
    three tasks is in [completedTasks]. *)
Lemma completeLevel_sets_flag_without_tasks :
  ∃ L p, findLevel LEVELS "1" = Some L
    ∧ run LEVELS [MarkLevel "1" None] ∅ !! "1" = Some p
    ∧ isCompleted p = true
    ∧ "1.1" ∈ Level.taskIds L
    ∧ ("1.1" ∉ completedTasks p)
    ∧ size (completedTasks p) = 0%nat
    ∧ length (Level.tasks L) = 3%nat.
Proof.
  eexists _, _. split; [reflexivity|].
  split; [unfold run; simpl; unfold completeLevel; apply lookup_insert_eq|].
  simpl. split_and!; try done.
  unfold Level.taskIds. simpl. set_solver.
Qed.

Section Completion.
Variable LEVELS : list Level.t.
Variable L : Level.t.
Hypothesis L_found : findLevel LEVELS (Level.id L) = Some L.

(** Whatever the history, an entry whose set has the size of the task
    list right after a write has the flag set. *)
Lemma size_implies_flag (ms : list Mutation) (p : LevelProgress) :
  run LEVELS ms ∅ !! Level.id L = Some p → sizeMatches L p → isCompleted p = true.
Proof.
  revert p. induction ms as [|m ms IH] using rev_ind; intros p; [done|].
  rewrite run_snoc.
  destruct (decide (target m = Level.id L)) as [Ht|Hne];
    [|rewrite mutate_other by done; apply IH].
  destruct m as [l t pc | l pc]; simpl in Ht; subst l; simpl.
  - destruct (updateTaskProgress_entry LEVELS (Level.id L) t pc (run LEVELS ms ∅))
      as (p' & -> & Hset & Hflag).
    intros [= <-] Hsz. rewrite Hflag, L_found.
    unfold sizeMatches in Hsz. rewrite Hset in Hsz. unfold len. rewrite Hsz.
    by rewrite Z.eqb_refl.
  - destruct (completeLevel_entry (Level.id L) pc (run LEVELS ms ∅))
      as (p' & -> & _ & Hflag).
    by intros [= <-] _.
Qed.

Hypothesis L_nodup : NoDup (Level.taskIds L).

Lemma size_taskSet : size (taskSet L) = length (Level.tasks L).
Proof.
  unfold taskSet. rewrite size_list_to_set by done.
  unfold Level.taskIds. by rewrite length_fmap.
Qed.

Lemma within_tasks_progressOf (store : UserProgress) :
  within_tasks L store →
  completedTasks (progressOf store (Level.id L)) ⊆ taskSet L
  ∧ (isCompleted (progressOf store (Level.id L)) = true
     → taskSet L ⊆ completedTasks (progressOf store (Level.id L))).
Proof.
  intros Hw. unfold progressOf. specialize (Hw (progressOf store (Level.id L))).
  unfold progressOf in Hw.
  destruct (store !! Level.id L) as [p|]; simpl in *.
  - destruct (Hw eq_refl) as [? [? _]]. done.
  - split; [set_solver|done].
Qed.

Lemma within_tasks_step (m : Mutation) (store : UserProgress) :
  disciplined_step LEVELS store m = true →
  within_tasks L store → within_tasks L (mutate LEVELS m store).
Proof.
  intros Hd Hw.
  destruct (decide (target m = Level.id L)) as [Ht|Hneq];
    [|intros p; rewrite mutate_other by done; apply Hw].
  apply within_tasks_progressOf in Hw as [Hsub Himp].
  destruct m as [l t pc | l pc]; simpl in Ht; subst l; simpl in *.
  - rewrite L_found in Hd. apply bool_decide_eq_true in Hd.
    destruct (updateTaskProgress_entry LEVELS (Level.id L) t pc store)
      as (p' & Hp' & Hset & Hflag).
    intros p. rewrite Hp'. intros [= <-].
    rewrite Hset, Hflag, L_found.
    assert (Hin : completedTasks (progressOf store (Level.id L)) ∪ {[t]} ⊆ taskSet L).
    { unfold taskSet. set_solver. }
    split; [done|].
    destruct (Z.eqb_spec
      (Z.of_nat (size (completedTasks (progressOf store (Level.id L)) ∪ {[t]})))
      (len (Level.tasks L))) as [Heq|Hneq'].
    + simpl. split; [intros _|done].
      unfold len in Heq. apply Nat2Z.inj in Heq.
      rewrite (set_subseteq_size_eq _ (taskSet L) Hin); [done|]. rewrite size_taskSet. lia.
    + simpl. split; [set_solver|]. intros HT.
      exfalso. apply Hneq'. unfold len. f_equal.
      rewrite <- size_taskSet. f_equal. apply set_eq. set_solver.
  - rewrite L_found in Hd. apply bool_decide_eq_true in Hd.
    rewrite Forall_forall in Hd.
    destruct (completeLevel_entry (Level.id L) pc store) as (p' & Hp' & Hset & Hflag).
    intros p. rewrite Hp'. intros [= <-]. rewrite Hset, Hflag.
    split; [done|]. split; [intros _|done].
    intros t Ht. apply Hd. unfold taskSet in Ht. set_solver.
Qed.

Lemma within_tasks_run (ms : list Mutation) (store : UserProgress) :
  disciplined LEVELS store ms = true →
  within_tasks L store → within_tasks L (run LEVELS ms store).
Proof.
  revert store. induction ms as [|m ms IH]; intros store; [done|].
  intros Hd Hw. rewrite run_cons. simpl in Hd.
  apply andb_true_iff in Hd as [Hd Hds].
  apply IH; [done|]. by apply within_tasks_step.
Qed.

Lemma within_tasks_tests (p : LevelProgress) :
  completedTasks p ⊆ taskSet L →
  (taskSet L ⊆ completedTasks p ↔ holdsEveryTask L p)
  ∧ (taskSet L ⊆ completedTasks p ↔ sizeMatches L p).
Proof.
  intros Hsub. unfold holdsEveryTask, sizeMatches. split.
  - unfold taskSet. set_solver.
  - rewrite <- size_taskSet. split.
    + intros HT. f_equal. apply set_eq. set_solver.
    + intros Hsz. rewrite (set_subseteq_size_eq _ (taskSet L) Hsub); [done|]. lia.
Qed.

End Completion.

(** C1, amended. For a level [L] of the catalog and every sequence of
    store mutations from the empty store, after each mutation: when the
    stored set has as many elements as [L] has tasks, [isCompleted] is set
    (whatever the history; [completeLevel] sets it regardless). When the
    task identifiers of [L] are distinct and the mutations follow the
    session's discipline (a task is reported for its own level, a level is
    completed once its set holds all its tasks), [isCompleted] is set if
    and only if the set holds every task of [L], and if and only if the
    size equals the number of tasks. *)
Theorem completion_flag_after_mutations
    (LEVELS : list Level.t) (L : Level.t) (ms : list Mutation) (p : LevelProgress) :
  findLevel LEVELS (Level.id L) = Some L →
  run LEVELS ms ∅ !! Level.id L = Some p →
  (sizeMatches L p → isCompleted p = true)
  ∧ (NoDup (Level.taskIds L) → disciplined LEVELS ∅ ms = true →
     (isCompleted p = true ↔ holdsEveryTask L p)
     ∧ (isCompleted p = true ↔ sizeMatches L p)).
Proof.
  intros Hfound Hp. split; [by eapply size_implies_flag|].
  intros Hnodup Hd.
  assert (Hw : within_tasks L (run LEVELS ms ∅)).
  { apply within_tasks_run; [done..|]. intros q. by rewrite lookup_empty. }
  destruct (Hw p Hp) as [Hsub Hiff].
  destruct (within_tasks_tests LEVELS L Hfound Hnodup p Hsub) as [H1 H2].
  rewrite Hiff. by split.
Qed.

(** The amended claim at work on the catalog: level 1 after its three
    tasks were reported and the level completed. *)
Lemma completion_flag_level_1 :
  let L := Level.mk "1" "Intro: What is HTML?"
             [task "1.1" HTML; task "1.2" HTML; task "1.3" HTML] (Some "2") in
  let ms := [MarkTask "1" "1.1" None; MarkTask "1" "1.2" None;
             MarkTask "1" "1.3" None; MarkLevel "1" None] in
  ∃ p, run LEVELS ms ∅ !! "1" = Some p
    ∧ isCompleted p = true ∧ holdsEveryTask L p ∧ sizeMatches L p.
Proof.
  intros L ms.
  assert (Hp : ∃ p, run LEVELS ms ∅ !! Level.id L = Some p) .
  { eexists. unfold run, ms. simpl. unfold completeLevel. apply lookup_insert_eq. }
  destruct Hp as [p Hp]. exists p. split; [exact Hp|].
  destruct (completion_flag_after_mutations LEVELS L ms p eq_refl Hp) as [_ H].
  destruct H as [H1 H2].
  - apply (bool_decide_unpack _). vm_compute. exact I.
  - vm_compute. reflexivity.
  - assert (Hc : isCompleted p = true).
    { revert Hp. unfold run, ms. simpl. unfold completeLevel.
      rewrite lookup_insert_eq. by intros [= <-]. }
    split; [done|]. split; [by apply H1 | by apply H2].
Defined.

(* ===================================================================== *)
(** * The unlock policy *)
(* ===================================================================== *)

Section Unlock.
Variable store : UserProgress.

Local Abbreviation completed := (completedLevel store).

Lemma findIndex_from_skip {A} (p : A → bool) (pre : list A) (x : A) (post : list A) (i : Z) :
  Forall (λ y, p y = false) pre → p x = true →
  findIndex_from p (pre ++ x :: post) i = i + len pre.
Proof.
  intros Hpre Hx. revert i. induction Hpre as [|y pre Hy _ IH]; intros i; simpl.
  - rewrite Hx. unfold len. simpl. lia.
  - rewrite Hy, IH. unfold len. simpl length. lia.
Qed.

Lemma at_index_last {A} (pre : list A) (x : A) (post : list A) :
  at_index (pre ++ x :: post) (len pre) = Some x.
Proof.
  unfold at_index, len.
  destruct (Z.ltb_spec (Z.of_nat (length pre)) 0) as [?|_]; [lia|].
  rewrite Nat2Z.id. by rewrite list_lookup_middle.
Qed.

(** The index the loop computes for the first level that is not
    completed is its position. *)
Lemma first_uncompleted_index (pre : list Level.t) (l : Level.t) (post : list Level.t) :
  Forall (λ y, completed y = true) pre → completed l = false →
  findLevelIndex (pre ++ l :: post) (Level.id l) = len pre.
Proof.
  intros Hpre Hl. unfold findLevelIndex, findIndex.
  rewrite findIndex_from_skip; [lia| |apply String.eqb_refl].
  eapply Forall_impl; [exact Hpre|]. intros y Hy. simpl in Hy.
  destruct (String.eqb_spec (Level.id y) (Level.id l)) as [Heq|]; [|done].
  unfold completedLevel in *. rewrite Heq in Hy. congruence.
Qed.

(** The outer loop stops at the first level that is not completed and
    reports it; it runs to the end when there is none. *)
Lemma unlock_loop_result (LEVELS pre rest : list Level.t) (mx : string) :
  LEVELS = pre ++ rest → Forall (λ y, completed y = true) pre →
  match find (λ l, negb (completed l)) rest with
  | Some l => unlock_loop LEVELS store rest mx = Some (Level.id l, false)
  | None => ∃ mx', unlock_loop LEVELS store rest mx = Some (mx', true)
  end.
Proof.
  revert pre mx. induction rest as [|level rest IH]; intros pre mx HL Hpre.
  - simpl. eauto.
  - simpl. fold (completed level). destruct (completed level) eqn:Hc; simpl.
    + apply (IH (pre ++ [level])).
      * by rewrite <- app_assoc.
      * apply Forall_app. split; [done|]. by constructor.
    + rewrite HL, first_uncompleted_index by done.
      destruct pre as [|p0 pre'] using rev_ind; [done|]. clear IHpre'.
      apply Forall_app in Hpre as [_ Hp0]. inversion Hp0 as [|? ? Hp0' _]; subst.
      assert ((len (pre' ++ [p0]) =? 0) = false) as ->.
      { apply Z.eqb_neq. unfold len. rewrite length_app. simpl. lia. }
      replace (len (pre' ++ [p0]) - 1) with (len pre')
        by (unfold len; rewrite length_app; simpl; lia).
      rewrite <- app_assoc. simpl. rewrite at_index_last.
      fold (completed p0). by rewrite Hp0'.
Qed.

Lemma lastLevel_last (first : Level.t) (rest : list Level.t) :
  lastLevel (first :: rest) = Some (List.last (first :: rest) first).
Proof.
  unfold lastLevel.
  destruct (exists_last (l := first :: rest)) as (pre & x & Heq); [done|].
  rewrite Heq, last_last.
  replace (len (pre ++ [x]) - 1) with (len pre)
    by (unfold len; rewrite length_app; simpl; lia).
  apply at_index_last.
Qed.

(** The effect hands over the first level that is not completed, or the
    last level when all are completed. *)
Lemma computeHighestUnlocked_first (first : Level.t) (rest : list Level.t) :
  computeHighestUnlocked (first :: rest) store =
    match find (λ l, negb (completed l)) (first :: rest) with
    | Some l => Some (Level.id l)
    | None => Some (Level.id (List.last (first :: rest) first))
    end.
Proof.
  unfold computeHighestUnlocked.
  pose proof (unlock_loop_result (first :: rest) [] (first :: rest) "1" eq_refl
                (List.Forall_nil _)) as H.
  assert (Hz : (len (first :: rest) =? 0) = false).
  { apply Z.eqb_neq. unfold len. simpl length. lia. }
  assert (Hp : (0 <? len (first :: rest)) = true).
  { apply Z.ltb_lt. unfold len. simpl length. lia. }
  destruct (find _ (first :: rest)) as [l|].
  - rewrite H. cbv beta iota. by rewrite andb_false_l, Hz.
  - destruct H as [mx' ->]. cbv beta iota. rewrite Hp, andb_true_l.
    fold (lastLevel (first :: rest)). by rewrite lastLevel_last.
Qed.

(** Up to the first candidate of the policy, every level is completed. *)
Lemma completed_before_candidate (LEVELS : list Level.t) (i : nat) :
  (∀ j, (j < i)%nat → reached_not_completed LEVELS store j = false) →
  ∀ j l, (j < i)%nat → LEVELS !! j = Some l → completed l = true.
Proof.
  intros Hmin j. induction j as [|j IH]; intros l Hj Hl.
  - specialize (Hmin 0%nat Hj). unfold reached_not_completed in Hmin.
    rewrite Hl in Hmin. simpl in Hmin. unfold completedLevel.
    by destruct (isCompletedIn store (Level.id l)).
  - destruct (LEVELS !! j) as [prev|] eqn:Hprev.
    2:{ apply lookup_ge_None in Hprev. apply lookup_lt_Some in Hl. lia. }
    assert (Hpc : completed prev = true) by (apply IH; [lia|done]).
    specialize (Hmin (S j) Hj). unfold reached_not_completed in Hmin.
    rewrite Hl in Hmin. simpl in Hmin. rewrite Hprev in Hmin.
    unfold completedLevel in *. rewrite Hpc in Hmin. simpl in Hmin.
    by destruct (isCompletedIn store (Level.id l)).
Qed.

Lemma find_first_at {A} (p : A → bool) (l : list A) (i : nat) (x : A) :
  l !! i = Some x → p x = true →
  (∀ j y, (j < i)%nat → l !! j = Some y → p y = false) →
  find p l = Some x.
Proof.
  revert i. induction l as [|a l IH]; intros i Hi Hx Hbefore; [done|].
  destruct i as [|i]; simpl in *.
  - injection Hi as ->. by rewrite Hx.
  - rewrite (Hbefore 0%nat a) by (lia || done).
    apply (IH i); [done..|]. intros j y Hj Hy. apply (Hbefore (S j)); [lia|done].
Qed.

End Unlock.

(** C2: the recomputed highest unlocked level is the first level, in
    catalog order, that is reached (it is the first level or its
    predecessor is completed) and not completed; when every level is
    completed it is the last level of the catalog; and when some level is
    not completed such a first level exists. On the catalog [A -> B -> C]
    it is A with nothing completed, B with only A completed and C with all
    three completed. *)
Theorem highest_unlocked_policy (LEVELS : list Level.t) (store : UserProgress) :
  (∀ i l, LEVELS !! i = Some l →
     reached_not_completed LEVELS store i = true →
     (∀ j, (j < i)%nat → reached_not_completed LEVELS store j = false) →
     computeHighestUnlocked LEVELS store = Some (Level.id l))
  ∧ (∀ l, lastLevel LEVELS = Some l →
     (∀ x, x ∈ LEVELS → isCompletedIn store (Level.id x) = true) →
     computeHighestUnlocked LEVELS store = Some (Level.id l))
  ∧ (∀ x, x ∈ LEVELS → isCompletedIn store (Level.id x) = false →
     ∃ i, reached_not_completed LEVELS store i = true
        ∧ ∀ j, (j < i)%nat → reached_not_completed LEVELS store j = false)
  ∧ computeHighestUnlocked catalogABC ∅ = Some "A"
  ∧ computeHighestUnlocked catalogABC {[ "A" := completedWith ["a.1"] ]} = Some "B"
  ∧ computeHighestUnlocked catalogABC
      (<[ "A" := completedWith ["a.1"] ]>
         (<[ "B" := completedWith ["b.1"] ]> {[ "C" := completedWith ["c.1"] ]}))
    = Some "C".
Proof.
  split_and!.
  - intros i l Hl Hrnc Hmin.
    destruct LEVELS as [|first rest]; [done|].
    rewrite computeHighestUnlocked_first.
    assert (Hnc : isCompletedIn store (Level.id l) = false).
    { unfold reached_not_completed in Hrnc. rewrite Hl in Hrnc.
      apply andb_true_iff in Hrnc as [_ Hn]. by apply negb_true_iff in Hn. }
    rewrite (find_first_at _ _ i l Hl); [done|unfold completedLevel; by rewrite Hnc|].
    intros j y Hj Hy.
    by rewrite (completed_before_candidate store (first :: rest) i Hmin j y Hj Hy).
  - intros l Hlast Hall.
    destruct LEVELS as [|first rest]; [done|].
    rewrite computeHighestUnlocked_first.
    rewrite lastLevel_last in Hlast. injection Hlast as <-.
    destruct (find _ (first :: rest)) as [y|] eqn:Hfind; [|done].
    apply find_some in Hfind as [Hin Hy].
    apply list_elem_of_In in Hin. unfold completedLevel in Hy.
    rewrite (Hall y Hin) in Hy. done.
  - intros x Hx Hnc.
    destruct (list_find (λ l, isCompletedIn store (Level.id l) = false) LEVELS)
      as [[i l]|] eqn:Hfind.
    + apply list_find_Some in Hfind as (Hl & Hlnc & Hbefore).
      assert (Hdone : ∀ j y, (j < i)%nat → LEVELS !! j = Some y →
                        isCompletedIn store (Level.id y) = true).
      { intros j y Hj Hy. specialize (Hbefore j y Hy Hj).
        by destruct (isCompletedIn store (Level.id y)). }
      exists i. split.
      * unfold reached_not_completed. rewrite Hl, Hlnc.
        rewrite andb_true_r. destruct i as [|i]; [done|]. simpl.
        destruct (LEVELS !! i) as [prev|] eqn:Hprev.
        -- apply (Hdone i); [lia|done].
        -- apply lookup_ge_None in Hprev. apply lookup_lt_Some in Hl. lia.
      * intros j Hj. unfold reached_not_completed.
        destruct (LEVELS !! j) as [y|] eqn:Hy; [|done].
        rewrite (Hdone j y Hj Hy). apply andb_false_r.
    + apply list_find_None in Hfind. rewrite Forall_forall in Hfind.
      by destruct (Hfind x Hx).
  - reflexivity.
  - vm_compute. reflexivity.
  - vm_compute. reflexivity.
Qed.

(* ===================================================================== *)
(** * Persistence *)
(* ===================================================================== *)

Lemma strings_of_strings (l : list string) : strings_of (JString <$> l) = Some l.
Proof. unfold strings_of. by apply mapM_fmap_Some. Qed.

Lemma restore_array (l : list string) :
  restoreCompletedTasks (Some (JArray (JString <$> l))) = Some (list_to_set l).
Proof. simpl. by rewrite strings_of_strings. Qed.

Lemma read_json_of_ProjectCode (pc : ProjectCode) :
  read_ProjectCode (Some (json_of_ProjectCode pc)) = pc.
Proof. by destruct pc as [[h|] [c|] [j|]]. Qed.

Lemma read_json_of_LevelProgress (p : LevelProgress) :
  read_entry (json_of_LevelProgress p) = Some p.
Proof.
  destruct p as [done pc flag]. unfold json_of_LevelProgress, read_entry.
  cbn [field String.eqb Ascii.eqb Bool.eqb completedTasks currentProjectCode isCompleted].
  rewrite restore_array, list_to_set_elements_L, read_json_of_ProjectCode.
  done.
Qed.

(** C5: saving a progress store and loading what was saved gives the
    store back: the same completed-task sets, project codes and completion
    flags. On the way in, an array of task identifiers becomes the set of
    its elements (duplicates collapse), and a missing [completedTasks] or
    one that is not an array becomes the empty set. *)
Theorem save_load_roundtrip (store : UserProgress) :
  load (Some (save store)) = Some store
  ∧ (∀ l : list string,
       restoreCompletedTasks (Some (JArray (JString <$> l))) = Some (list_to_set l))
  ∧ restoreCompletedTasks None = Some ∅
  ∧ (∀ c, (∀ items, c ≠ JArray items) → restoreCompletedTasks (Some c) = Some ∅).
Proof.
  split_and!.
  - unfold load, save.
    rewrite (mapM_fmap_Some _ (prod_map id json_of_LevelProgress)).
    + simpl. by rewrite list_to_map_to_list.
    + intros [k p]. unfold prod_map. cbn [fst snd].
      by rewrite read_json_of_LevelProgress.
  - apply restore_array.
  - done.
  - intros c Hc. simpl. destruct c; try done; try by destruct (truthy _).
    by destruct (Hc items).
Qed.

(* ===================================================================== *)
(** * Strings and messages *)
(* ===================================================================== *)

Lemma append_assoc (a b c : string) : (a +:+ b) +:+ c = a +:+ b +:+ c.
Proof.
  induction a as [|x a IH]; [done|].
  change (String x ((a +:+ b) +:+ c) = String x (a +:+ b +:+ c)). by rewrite IH.
Qed.

Lemma mentions_here (s after : string) : mentions (s +:+ after) s.
Proof. by exists EmptyString, after. Qed.

Lemma mentions_end (s : string) : mentions s s.
Proof.
  exists EmptyString, EmptyString.
  change (s = s +:+ EmptyString).
  induction s as [|x s IH]; [done|].
  change (String x s = String x (s +:+ EmptyString)). by rewrite <- IH.
Qed.

Lemma mentions_after (a msg s : string) : mentions msg s → mentions (a +:+ msg) s.
Proof.
  intros (before & after & ->). exists (a +:+ before), after.
  by rewrite append_assoc.
Qed.

Lemma mentions_inside (msg s t : string) : mentions s t → mentions msg s → mentions msg t.
Proof.
  intros (b1 & a1 & ->) (b2 & a2 & ->). exists (b2 +:+ b1), (a1 +:+ a2).
  by rewrite !append_assoc.
Qed.

(** Search for the named part through the pieces of a message. *)
Ltac find_mention :=
  first [ apply mentions_here | apply mentions_end
        | apply mentions_after; find_mention ].

(** Strings: the searches of the validators on texts given by their parts. *)
Lemma prefix_app (t rest : string) : String.prefix t (t +:+ rest) = true.
Proof.
  induction t as [|c t IH]; [by destruct rest|].
  change (String.prefix (String c t) (String c (t +:+ rest)) = true).
  cbn [String.prefix]. by destruct (ascii_dec c c).
Qed.

Lemma prefix_true (t s : string) :
  String.prefix t s = true → ∃ rest, s = t +:+ rest.
Proof.
  revert s. induction t as [|c t IH]; intros s Hp; [by exists s|].
  destruct s as [|x s]; [done|]. cbn [String.prefix] in Hp.
  destruct (ascii_dec c x) as [<-|]; [|done].
  destruct (IH s Hp) as [rest ->]. by exists rest.
Qed.

Lemma strlen_app (a b : string) : strlen (a +:+ b) = strlen a + strlen b.
Proof.
  unfold strlen. induction a as [|c a IH]; [done|].
  change (Z.of_nat (S (String.length (a +:+ b)))
          = Z.of_nat (S (String.length a)) + Z.of_nat (String.length b)). lia.
Qed.

Lemma strlen_nonneg (s : string) : 0 ≤ strlen s.
Proof. unfold strlen. lia. Qed.

(** The scan finds the first place where the text searched for begins. *)
Lemma indexOf_scan_found (t s : string) (i : Z) :
  indexOf_scan t s i ≠ -1 → 0 ≤ i →
  ∃ a b, s = a +:+ t +:+ b ∧ indexOf_scan t s i = i + strlen a.
Proof.
  revert i. induction s as [|c s IH]; intros i Hf Hi; cbn [indexOf_scan] in *.
  - destruct (String.prefix t EmptyString) eqn:Hp; [|done].
    apply prefix_true in Hp as [rest Hrest].
    exists EmptyString, rest. split; [done|]. unfold strlen. simpl. lia.
  - destruct (String.prefix t (String c s)) eqn:Hp.
    + apply prefix_true in Hp as [rest Hrest].
      exists EmptyString, rest. split; [done|]. unfold strlen. simpl. lia.
    + destruct (IH (i + 1) Hf) as (a & b & -> & ->); [lia|].
      exists (String c a), b. split; [done|].
      unfold strlen. simpl String.length. lia.
Qed.

Lemma indexOf_scan_none (t s : string) (i : Z) :
  indexOf_scan t s i = -1 → 0 ≤ i → ¬ mentions s t.
Proof.
  revert i. induction s as [|c s IH]; intros i Hf Hi (a & b & Heq);
    cbn [indexOf_scan] in Hf.
  - destruct (String.prefix t EmptyString) eqn:Hp; [lia|].
    destruct a; [|done]. change (EmptyString = t +:+ b) in Heq.
    by rewrite Heq, prefix_app in Hp.
  - destruct (String.prefix t (String c s)) eqn:Hp; [lia|].
    destruct a as [|x a].
    + change (String c s = t +:+ b) in Heq. by rewrite Heq, prefix_app in Hp.
    + injection Heq as -> ->. apply (IH (i + 1)); [done|lia|by exists a, b].
Qed.

Lemma clamp_0 (s : string) : clamp 0 s = 0%nat.
Proof. unfold clamp. pose proof (strlen_nonneg s). lia. Qed.

(** [includes] is containment. *)
Lemma includes_mentions (s t : string) : includes s t = true ↔ mentions s t.
Proof.
  unfold includes, indexOf. rewrite clamp_0. cbn [dropChars].
  change (Z.of_nat 0) with 0.
  destruct (Z.eqb_spec (indexOf_scan t s 0) (-1)) as [Hn|Hf]; cbn [negb].
  - split; [done|]. intros Hm. by apply (indexOf_scan_none t s 0) in Hm.
  - split; [|done]. intros _.
    destruct (indexOf_scan_found t s 0 Hf) as (a & b & -> & _); [lia|].
    by exists a, b.
Qed.

Lemma indexOf_at_start (t rest : string) : indexOf (t +:+ rest) t 0 = 0.
Proof.
  unfold indexOf. rewrite clamp_0. cbn [dropChars]. change (Z.of_nat 0) with 0.
  destruct (t +:+ rest) eqn:Heq; cbn [indexOf_scan]; rewrite <- Heq;
    by rewrite prefix_app.
Qed.

Lemma dropChars_app (a b : string) :
  dropChars (String.length a) (a +:+ b) = b.
Proof. induction a as [|c a IH]; [by destruct b|]. exact IH. Qed.

Lemma takeChars_app (a b : string) :
  takeChars (String.length a) (a +:+ b) = a.
Proof.
  induction a as [|c a IH]; [by destruct b|].
  change (String c (takeChars (String.length a) (a +:+ b)) = String c a).
  by rewrite IH.
Qed.

Lemma indexOf_scan_char (c : ascii) (a b : string) (i : Z) :
  lacksChar c a = true →
  indexOf_scan (String c EmptyString) (a +:+ String c b) i = i + strlen a.
Proof.
  revert i. induction a as [|x a IH]; intros i Ha.
  - change (indexOf_scan (String c EmptyString) (String c b) i = i + 0).
    cbn [indexOf_scan String.prefix]. destruct (ascii_dec c c); [|done].
    destruct b; cbn [String.prefix]; lia.
  - cbn [lacksChar] in Ha. apply andb_true_iff in Ha as [Hx Ha].
    apply negb_true_iff, Ascii.eqb_neq in Hx.
    change (indexOf_scan (String c EmptyString) (String x (a +:+ String c b)) i
            = i + strlen (String x a)).
    cbn [indexOf_scan String.prefix]. destruct (ascii_dec c x) as [->|_]; [done|].
    rewrite IH by done. unfold strlen. simpl String.length. lia.
Qed.

(** The first [c] at or after a position that lies before it. *)
Lemma indexOf_char (c : ascii) (pre a b : string) :
  lacksChar c a = true →
  indexOf (pre +:+ a +:+ String c b) (String c EmptyString) (strlen pre)
  = strlen pre + strlen a.
Proof.
  intros Ha. unfold indexOf.
  assert (Hk : clamp (strlen pre) (pre +:+ a +:+ String c b) = String.length pre).
  { unfold clamp. rewrite strlen_app. pose proof (strlen_nonneg (a +:+ String c b)).
    unfold strlen in *. lia. }
  rewrite Hk, dropChars_app, indexOf_scan_char by done. unfold strlen. lia.
Qed.

Lemma substring_between (pre body post : string) :
  substring (pre +:+ body +:+ post) (strlen pre) (strlen pre + strlen body) = body.
Proof.
  unfold substring.
  assert (Ha : clamp (strlen pre) (pre +:+ body +:+ post) = String.length pre).
  { unfold clamp. rewrite strlen_app. pose proof (strlen_nonneg (body +:+ post)).
    unfold strlen in *. lia. }
  assert (Hb : clamp (strlen pre + strlen body) (pre +:+ body +:+ post)
               = (String.length pre + String.length body)%nat).
  { unfold clamp. rewrite !strlen_app. pose proof (strlen_nonneg post).
    unfold strlen in *. lia. }
  rewrite Ha, Hb.
  replace (Nat.min _ _) with (String.length pre) by lia.
  replace (Nat.max _ _ - _)%nat with (String.length body) by lia.
  by rewrite dropChars_app, takeChars_app.
Qed.

Lemma indexOf_scan_first (t s : string) (i : Z) (a b : string) :
  s = a +:+ t +:+ b → 0 ≤ i →
  i ≤ indexOf_scan t s i ≤ i + strlen a.
Proof.
  revert i a. induction s as [|x s IH]; intros i a Heq Hi; cbn [indexOf_scan].
  - destruct a; [|done]. change (EmptyString = t +:+ b) in Heq.
    rewrite Heq, prefix_app. unfold strlen. simpl. lia.
  - destruct (String.prefix t (String x s)) eqn:Hp.
    { pose proof (strlen_nonneg a). lia. }
    destruct a as [|y a].
    + change (String x s = t +:+ b) in Heq. by rewrite Heq, prefix_app in Hp.
    + injection Heq as -> ->. specialize (IH (i + 1) a eq_refl).
      unfold strlen in *. simpl String.length. lia.
Qed.

Lemma takeChars_dropChars (k : nat) (s : string) :
  takeChars k s +:+ dropChars k s = s.
Proof.
  revert s. induction k as [|k IH]; intros [|c s]; try done.
  change (String c (takeChars k s +:+ dropChars k s) = String c s). by rewrite IH.
Qed.

Lemma length_takeChars (k : nat) (s : string) :
  (k ≤ String.length s)%nat → String.length (takeChars k s) = k.
Proof.
  revert s. induction k as [|k IH]; intros [|c s] Hk; simpl in *; try done; try lia.
  rewrite IH; lia.
Qed.

Lemma dropChars_app_le (k : nat) (a r : string) :
  (k ≤ String.length a)%nat → dropChars k (a +:+ r) = dropChars k a +:+ r.
Proof.
  revert a. induction k as [|k IH]; intros [|c a] Hk; simpl in *; try done; try lia.
  apply IH. lia.
Qed.

Lemma length_dropChars (k : nat) (s : string) :
  String.length (dropChars k s) = (String.length s - k)%nat.
Proof. revert s. induction k as [|k IH]; intros [|c s]; simpl; try done. Qed.

(** [indexOf] from a position within the text: the first place at or
    after the position where the text searched for begins. *)
Lemma indexOf_first_from (s t : string) (pos : Z) :
  0 ≤ pos ≤ strlen s →
  (indexOf s t pos = -1 ∧ ∀ a b, s = a +:+ t +:+ b → strlen a < pos)
  ∨ ∃ a b, s = a +:+ t +:+ b ∧ indexOf s t pos = strlen a ∧ pos ≤ strlen a
         ∧ ∀ a' b', s = a' +:+ t +:+ b' → pos ≤ strlen a' → strlen a ≤ strlen a'.
Proof.
  intros Hpos. unfold indexOf.
  assert (Hk : clamp pos s = Z.to_nat pos) by (unfold clamp; lia).
  rewrite Hk. set (k := Z.to_nat pos).
  assert (Hkl : (k ≤ String.length s)%nat) by (unfold strlen in Hpos; lia).
  assert (Hdrop : ∀ a' b', s = a' +:+ t +:+ b' → pos ≤ strlen a' →
            dropChars k s = dropChars k a' +:+ t +:+ b'
            ∧ strlen (dropChars k a') = strlen a' - pos).
  { intros a' b' -> Ha'. unfold strlen in *. split.
    - apply dropChars_app_le. lia.
    - rewrite length_dropChars. lia. }
  destruct (decide (indexOf_scan t (dropChars k s) (Z.of_nat k) = -1)) as [Hn|Hf].
  - left. split; [done|]. intros a b Heq.
    destruct (Z.lt_ge_cases (strlen a) pos) as [|Hge]; [done|].
    destruct (Hdrop a b Heq Hge) as [Hd _].
    exfalso. apply (indexOf_scan_none _ _ _ Hn); [lia|]. rewrite Hd. by eexists _, _.
  - right. destruct (indexOf_scan_found _ _ _ Hf) as (a0 & b & Hd & Hi); [lia|].
    exists (takeChars k s +:+ a0), b.
    assert (Hlen : strlen (takeChars k s +:+ a0) = pos + strlen a0).
    { rewrite strlen_app. unfold strlen at 1. rewrite length_takeChars by done. lia. }
    split_and!.
    + rewrite append_assoc, <- Hd. by rewrite takeChars_dropChars.
    + rewrite Hi, Hlen. lia.
    + pose proof (strlen_nonneg a0). lia.
    + intros a' b' Heq Hge. destruct (Hdrop a' b' Heq Hge) as [Hd' Hl'].
      pose proof (indexOf_scan_first t (dropChars k s) (Z.of_nat k) _ _ Hd') as Hfirst.
      rewrite Hi in Hfirst. lia.
Qed.

Lemma indexOf_negative (s t : string) (pos : Z) :
  pos < 0 → indexOf s t pos = indexOf s t 0.
Proof.
  intros Hneg. unfold indexOf.
  replace (clamp pos s) with (clamp 0 s); [done|].
  unfold clamp. pose proof (strlen_nonneg s). lia.
Qed.

(** [trim] and [toLowerCase] against what they are to compute. *)
Lemma isWhiteSpace_codes (c : ascii) :
  isWhiteSpace c = true
  ↔ (9 ≤ nat_of_ascii c ≤ 13 ∨ nat_of_ascii c = 32 ∨ nat_of_ascii c = 160)%nat.
Proof.
  unfold isWhiteSpace. cbv zeta.
  rewrite !orb_true_iff, andb_true_iff, !Nat.leb_le, !Nat.eqb_eq. tauto.
Qed.

Lemma trimStart_parts (s : string) :
  ∃ ws, s = ws +:+ trimStart s ∧ allWhiteSpace ws = true
      ∧ ∀ c r, trimStart s = String c r → isWhiteSpace c = false.
Proof.
  induction s as [|x s (ws & Heq & Hws & Hfirst)]; [by exists EmptyString|].
  cbn [trimStart]. destruct (isWhiteSpace x) eqn:Hx.
  - exists (String x ws). split_and!; [|by cbn [allWhiteSpace]; rewrite Hx|done].
    change (String x s = String x (ws +:+ trimStart s)). by rewrite <- Heq.
  - exists EmptyString. split_and!; [done..|]. by intros c r [= <- _].
Qed.

Lemma trimEnd_parts (s : string) :
  ∃ ws, s = trimEnd s +:+ ws ∧ allWhiteSpace ws = true.
Proof.
  induction s as [|x s (ws & Heq & Hws)]; [by exists EmptyString|].
  cbn [trimEnd]. destruct (trimEnd s) as [|y t] eqn:Ht.
  - change (s = ws) in Heq. subst s. destruct (isWhiteSpace x) eqn:Hx.
    + exists (String x ws). split; [done|]. cbn [allWhiteSpace]. by rewrite Hx.
    + by exists ws.
  - exists ws. split; [|done].
    change (String x s = String x (String y t +:+ ws)). by rewrite <- Heq.
Qed.

Lemma append_nonempty (front : string) (c : ascii) :
  front +:+ String c EmptyString ≠ EmptyString.
Proof. by destruct front. Qed.

Lemma trimEnd_last (s front : string) (c : ascii) :
  trimEnd s = front +:+ String c EmptyString → isWhiteSpace c = false.
Proof.
  revert front. induction s as [|x s IH]; intros front Heq.
  - by destruct front.
  - cbn [trimEnd] in Heq. destruct (trimEnd s) as [|y t] eqn:Ht.
    + destruct (isWhiteSpace x) eqn:Hx; [by destruct front|].
      destruct front as [|z front].
      * by injection Heq as <-.
      * injection Heq as _ Heq. by destruct front.
    + destruct front as [|z front]; [done|].
      injection Heq as _ Heq. by apply (IH front).
Qed.

Lemma trimEnd_first (c : ascii) (s : string) :
  isWhiteSpace c = false → ∃ t, trimEnd (String c s) = String c t.
Proof.
  intros Hc. cbn [trimEnd]. destruct (trimEnd s); rewrite ?Hc; by eexists.
Qed.

Lemma trimEnd_whiteSpace (ws : string) :
  allWhiteSpace ws = true → trimEnd ws = EmptyString.
Proof.
  induction ws as [|x ws IH]; [done|]. cbn [allWhiteSpace].
  intros [Hx Hws]%andb_true_iff. cbn [trimEnd]. by rewrite IH, Hx.
Qed.

Lemma trimEnd_core (front : string) (c : ascii) (ws : string) :
  isWhiteSpace c = false → allWhiteSpace ws = true →
  trimEnd (front +:+ String c ws) = front +:+ String c EmptyString.
Proof.
  intros Hc Hws. induction front as [|x front IH].
  - change (trimEnd (String c ws) = String c EmptyString).
    cbn [trimEnd]. by rewrite trimEnd_whiteSpace, Hc.
  - change (trimEnd (String x (front +:+ String c ws))
            = String x (front +:+ String c EmptyString)).
    cbn [trimEnd]. rewrite IH.
    destruct (front +:+ String c EmptyString) eqn:Heq; [|done].
    by apply append_nonempty in Heq.
Qed.

Lemma trimStart_core (ws : string) (c : ascii) (rest : string) :
  allWhiteSpace ws = true → isWhiteSpace c = false →
  trimStart (ws +:+ String c rest) = String c rest.
Proof.
  intros Hws Hc. induction ws as [|x ws IH].
  - change (trimStart (String c rest) = String c rest). cbn [trimStart]. by rewrite Hc.
  - cbn [allWhiteSpace] in Hws. apply andb_true_iff in Hws as [Hx Hws].
    change (trimStart (String x (ws +:+ String c rest)) = String c rest).
    cbn [trimStart]. rewrite Hx. by apply IH.
Qed.

(** What [trim] returns lies between two runs of white space and neither
    begins nor ends with white space. *)
Lemma trim_parts (s : string) :
  ∃ ws1 ws2, s = ws1 +:+ trim s +:+ ws2
    ∧ allWhiteSpace ws1 = true ∧ allWhiteSpace ws2 = true
    ∧ (∀ c r, trim s = String c r → isWhiteSpace c = false)
    ∧ (∀ front c, trim s = front +:+ String c EmptyString → isWhiteSpace c = false).
Proof.
  unfold trim.
  destruct (trimStart_parts s) as (ws1 & Heq1 & Hws1 & Hfirst).
  destruct (trimEnd_parts (trimStart s)) as (ws2 & Heq2 & Hws2).
  exists ws1, ws2. split_and!; [congruence|done..| |].
  - intros c r Hc. destruct (trimStart s) as [|x t] eqn:Ht; [done|].
    specialize (Hfirst x t eq_refl).
    destruct (trimEnd_first x t Hfirst) as [t' Ht']. rewrite Ht' in Hc.
    by injection Hc as <- _.
  - intros front c. apply trimEnd_last.
Qed.

(** A text that neither begins nor ends with white space is what [trim]
    returns for it with white space around. *)
Lemma trim_core (ws1 front : string) (c : ascii) (ws2 : string) :
  allWhiteSpace ws1 = true → allWhiteSpace ws2 = true →
  isWhiteSpace c = false →
  (∀ x r, front +:+ String c EmptyString = String x r → isWhiteSpace x = false) →
  trim (ws1 +:+ (front +:+ String c EmptyString) +:+ ws2)
  = front +:+ String c EmptyString.
Proof.
  intros Hws1 Hws2 Hc Hfirst. unfold trim.
  destruct (front +:+ String c EmptyString) as [|x r] eqn:Hcore;
    [by apply append_nonempty in Hcore|].
  change (String x r +:+ ws2) with (String x (r +:+ ws2)).
  rewrite trimStart_core by eauto.
  change (String x (r +:+ ws2)) with (String x r +:+ ws2).
  rewrite <- Hcore, append_assoc.
  change (String c EmptyString +:+ ws2) with (String c ws2).
  by apply trimEnd_core.
Qed.

Lemma toLowerCase_chars (s : string) :
  String.length (toLowerCase s) = String.length s
  ∧ ∀ i c, String.get i s = Some c →
      String.get i (toLowerCase s)
      = Some (if (Nat.leb 65 (nat_of_ascii c) && Nat.leb (nat_of_ascii c) 90)
                 || (Nat.leb 192 (nat_of_ascii c) && Nat.leb (nat_of_ascii c) 222
                     && negb (Nat.eqb (nat_of_ascii c) 215))
              then ascii_of_nat (nat_of_ascii c + 32) else c).
Proof.
  induction s as [|x s [IHl IHc]]; [done|]. split.
  - cbn [toLowerCase String.length]. by rewrite IHl.
  - intros [|i] c; cbn [toLowerCase String.get].
    + by intros [= <-].
    + apply IHc.
Qed.

(* ===================================================================== *)
(** * Level selection *)
(* ===================================================================== *)

Lemma findIndex_from_range {A} (p : A → bool) (l : list A) (i : Z) :
  (findIndex_from p l i = -1 ∧ find p l = None ∨
   i ≤ findIndex_from p l i < i + len l ∧ is_Some (find p l)) ∨ i < 0.
Proof.
  destruct (Z.ltb_spec i 0) as [?|Hi]; [by right|left].
  revert i Hi. induction l as [|x l IH]; intros i Hi; simpl; [by left|].
  destruct (p x); [right; unfold len; simpl length; split; [lia|eauto]|].
  destruct (IH (i + 1)) as [[-> ?]|[? ?]]; [lia|by left|right].
  unfold len in *. simpl length. split; [lia|done].
Qed.

Lemma findLevelIndex_range (LEVELS : list Level.t) (levelId : string) :
  findLevelIndex LEVELS levelId = -1 ∧ findLevel LEVELS levelId = None
  ∨ 0 ≤ findLevelIndex LEVELS levelId < len LEVELS
    ∧ is_Some (findLevel LEVELS levelId).
Proof.
  unfold findLevelIndex, findLevel, findIndex.
  destruct (findIndex_from_range (λ l, String.eqb (Level.id l) levelId) LEVELS 0)
    as [[?|[? ?]]|?]; [by left|right|lia].
  split; [lia|done].
Qed.

Lemma at_index_in_range {A} (l : list A) (i : Z) :
  0 ≤ i < len l → is_Some (at_index l i).
Proof.
  intros [H0 H1]. unfold at_index, len in *.
  destruct (Z.ltb_spec i 0); [lia|]. apply lookup_lt_is_Some. lia.
Qed.

Lemma findLevelIndex_of_member (LEVELS : list Level.t) (l : Level.t) :
  l ∈ LEVELS → 0 ≤ findLevelIndex LEVELS (Level.id l).
Proof.
  intros Hin. destruct (findLevelIndex_range LEVELS (Level.id l)) as [[_ Hn]|[? _]];
    [|lia].
  unfold findLevel in Hn. apply list_elem_of_In in Hin.
  pose proof (find_none _ _ Hn l Hin) as Hf. simpl in Hf.
  by rewrite String.eqb_refl in Hf.
Qed.

Lemma last_member {A} (x : A) (l : list A) (d : A) : List.last (x :: l) d ∈ x :: l.
Proof.
  revert x. induction l as [|y l IH]; intros x; [set_solver|].
  change (List.last (x :: y :: l) d) with (List.last (y :: l) d).
  specialize (IH y). set_solver.
Qed.

(** What the effect hands over is the id of a level of the catalog. *)
Lemma computeHighestUnlocked_in_catalog (LEVELS : list Level.t)
    (store : UserProgress) (h : string) :
  LEVELS ≠ [] → computeHighestUnlocked LEVELS store = Some h →
  0 ≤ findLevelIndex LEVELS h.
Proof.
  destruct LEVELS as [|first rest]; [done|]. intros _.
  rewrite computeHighestUnlocked_first.
  destruct (find _ (first :: rest)) as [l|] eqn:Hfind; intros [= <-];
    apply findLevelIndex_of_member.
  - apply find_some in Hfind as [Hin _]. by apply list_elem_of_In.
  - apply last_member.
Qed.

Lemma findIndex_from_found {A} (p : A → bool) (l : list A) (i : Z) :
  findIndex_from p l i ≠ -1 → 0 ≤ i →
  ∃ k x, findIndex_from p l i = i + Z.of_nat k ∧ l !! k = Some x ∧ p x = true
       ∧ ∀ j y, (j < k)%nat → l !! j = Some y → p y = false.
Proof.
  revert i. induction l as [|a l IH]; intros i Hf Hi; [done|]. simpl in *.
  destruct (p a) eqn:Ha.
  - exists 0%nat, a. split_and!; [lia|done..|]. intros j y Hj. lia.
  - destruct (IH (i + 1) Hf) as (k & x & Heq & Hx & Hpx & Hbefore); [lia|].
    exists (S k), x. split_and!; [lia|done..|].
    intros [|j] y Hj Hy; simpl in Hy; [by simplify_eq|].
    apply (Hbefore j); [lia|done].
Qed.

Lemma findIndex_from_none {A} (p : A → bool) (l : list A) (i : Z) :
  0 ≤ i → findIndex_from p l i = -1 → Forall (λ x, p x = false) l.
Proof.
  revert i. induction l as [|a l IH]; intros i Hi Hf; [by constructor|].
  simpl in Hf. destruct (p a) eqn:Ha; [lia|].
  constructor; [done|]. apply (IH (i + 1)); [lia|done].
Qed.


Lemma findLevelIndex_first (LEVELS : list Level.t) (levelId : string) :
  (findLevelIndex LEVELS levelId = -1 ∧ ∀ l, l ∈ LEVELS → Level.id l ≠ levelId)
  ∨ ∃ k l, findLevelIndex LEVELS levelId = Z.of_nat k ∧ LEVELS !! k = Some l
         ∧ Level.id l = levelId
         ∧ ∀ j l', (j < k)%nat → LEVELS !! j = Some l' → Level.id l' ≠ levelId.
Proof.
  unfold findLevelIndex, findIndex.
  destruct (decide (findIndex_from (λ l, String.eqb (Level.id l) levelId) LEVELS 0 = -1))
    as [Hnone|Hsome].
  - left. split; [done|]. apply findIndex_from_none in Hnone; [|lia].
    rewrite Forall_forall in Hnone. intros l Hl. by apply String.eqb_neq, Hnone.
  - right. destruct (findIndex_from_found _ _ 0 Hsome) as (k & l & Heq & Hl & Hid & Hb);
      [lia|].
    exists k, l. split_and!; [lia|done|by apply String.eqb_eq|].
    intros j l' Hj Hl'. by apply String.eqb_neq, (Hb j).
Qed.

(** C6: a request for a level whose index in the catalog lies beyond the
    index of the highest unlocked level is rejected: the whole application
    state, the progress store included, is left as it was. Whenever the
    highest unlocked level is a level of the catalog (as it is after every
    recomputation on a non-empty catalog) the alert reads
    [Please complete "T" to unlock "U".], where T is the title of the
    highest unlocked level, the one to complete, and U the title of the
    level after it; this is not the generic text. A request for the highest
    unlocked level or an earlier one opens the level: the view becomes the
    level view with that level current, and the store, the highest
    unlocked level and the saved item stay; a request for an id that is
    not in the catalog does nothing. The index of an id is the position
    of the first level with that id, or -1. *)
Theorem selectLevel_guard (LEVELS : list Level.t) (levelId : string) (st : AppState) :
  let levelIndex := findLevelIndex LEVELS levelId in
  let highestUnlockedIndex := findLevelIndex LEVELS (highestLevelUnlocked st) in
  (highestUnlockedIndex < levelIndex →
     (selectLevel LEVELS levelId st).1 = st
     ∧ (0 ≤ highestUnlockedIndex →
        ∃ cur next msg,
          LEVELS !! Z.to_nat highestUnlockedIndex = Some cur
          ∧ LEVELS !! S (Z.to_nat highestUnlockedIndex) = Some next
          ∧ Level.id cur = highestLevelUnlocked st
          ∧ selectLevel LEVELS levelId st = (st, Alert msg)
          ∧ msg = "Please complete "
                  +:+ String "034" (Level.title cur)
                  +:+ String "034" " to unlock "
                  +:+ String "034" (Level.title next)
                  +:+ String "034" "."
          ∧ mentions msg (Level.title cur)
          ∧ mentions msg (Level.title next)
          ∧ msg ≠ "Complete previous levels to unlock this one!"))
  ∧ (0 ≤ levelIndex ≤ highestUnlockedIndex →
     selectLevel LEVELS levelId st
     = ({| currentView := level_view; currentLevelId := Some levelId;
           userProgress := userProgress st;
           highestLevelUnlocked := highestLevelUnlocked st;
           storage := storage st |}, Silent))
  ∧ (levelIndex = -1 → selectLevel LEVELS levelId st = (st, Silent))
  ∧ (∀ id,
       (findLevelIndex LEVELS id = -1 ∧ ∀ l, l ∈ LEVELS → Level.id l ≠ id)
       ∨ ∃ k l, findLevelIndex LEVELS id = Z.of_nat k ∧ LEVELS !! k = Some l
              ∧ Level.id l = id
              ∧ ∀ j l', (j < k)%nat → LEVELS !! j = Some l' → Level.id l' ≠ id)
  ∧ (∀ h, LEVELS ≠ [] →
       computeHighestUnlocked LEVELS (userProgress st) = Some h →
       0 ≤ findLevelIndex LEVELS h).
Proof.
  intros levelIndex highestUnlockedIndex. split_and!.
  - intros Hlt. unfold selectLevel.
    fold levelIndex highestUnlockedIndex.
    destruct (findLevelIndex_range LEVELS levelId) as [[Hi _]|[Hi [lv ->]]];
      fold levelIndex in Hi.
    { destruct (findLevelIndex_range LEVELS (highestLevelUnlocked st))
        as [[Hh _]|[Hh _]]; fold highestUnlockedIndex in Hh; lia. }
    destruct (Z.leb_spec levelIndex highestUnlockedIndex) as [?|_]; [lia|].
    destruct (Z.ltb_spec (highestUnlockedIndex + 1) (len LEVELS)) as [Hnext|?];
      [|lia].
    split.
    + by destruct (at_index LEVELS highestUnlockedIndex),
                  (at_index LEVELS (highestUnlockedIndex + 1)).
    + intros Hnonneg.
      destruct (at_index_in_range LEVELS highestUnlockedIndex) as [cur Hcur]; [lia|].
      destruct (at_index_in_range LEVELS (highestUnlockedIndex + 1)) as [next Hnx];
        [lia|].
      rewrite Hcur, Hnx.
      exists cur, next, (firstLockedMessage cur next).
      unfold at_index in Hcur, Hnx.
      destruct (Z.ltb_spec highestUnlockedIndex 0); [lia|].
      destruct (Z.ltb_spec (highestUnlockedIndex + 1) 0); [lia|].
      replace (Z.to_nat (highestUnlockedIndex + 1))
        with (S (Z.to_nat highestUnlockedIndex)) in Hnx by lia.
      split_and!; [done|done| |done|done| | |done].
      * destruct (findLevelIndex_first LEVELS (highestLevelUnlocked st))
          as [[Hh _]|(k & l & Hk & Hl & Hid & _)];
          [fold highestUnlockedIndex in Hh; lia|].
        fold highestUnlockedIndex in Hk. rewrite Hk, Nat2Z.id in Hcur. congruence.
      * unfold firstLockedMessage, quote. find_mention.
      * unfold firstLockedMessage, quote. find_mention.
  - intros [H0 Hle]. unfold selectLevel.
    fold levelIndex highestUnlockedIndex.
    destruct (findLevelIndex_range LEVELS levelId) as [[Hi _]|[_ [lv ->]]];
      [fold levelIndex in Hi; lia|].
    by destruct (Z.leb_spec levelIndex highestUnlockedIndex); [|lia].
  - intros Hnone. unfold selectLevel.
    destruct (findLevelIndex_range LEVELS levelId) as [[_ ->]|[Hi _]];
      [done|fold levelIndex in Hi; lia].
  - apply findLevelIndex_first.
  - intros h. apply computeHighestUnlocked_in_catalog.
Qed.

(* ===================================================================== *)
(** * Feedback and code edits *)
(* ===================================================================== *)

Lemma edits_keep_success (edits : list string) (st : LevelViewState) :
  feedbackSuccess (feedback st) = true →
  feedback (fold_left (λ s newCode, handleCodeChange newCode s) edits st)
  = feedback st.
Proof.
  revert st. induction edits as [|newCode edits IH]; intros st Hs; [done|].
  simpl. rewrite IH; unfold handleCodeChange; simpl; by rewrite Hs.
Qed.

(* ===================================================================== *)
(** * The structural markup validator *)
(* ===================================================================== *)

Lemma insideParent_mentions (el : ExpectedElement) (p : string) :
  parentSelector el = Some p → truthy_string (Some p) = true →
  mentions (insideParent el) p.
Proof.
  intros Hp Ht. unfold insideParent. rewrite Hp, Ht. simpl default. find_mention.
Qed.

(** Every failure message names the tag; the count and missing-element
    messages name the parent when one is given; the attribute messages
    name the attribute. *)
Lemma Unmet_names_tag (el : ExpectedElement) (elements : list Element) (msg : string) :
  Unmet el elements msg → mentions msg (inBrackets (tag el)).
Proof.
  intros []; unfold countMessage, missingMessage, textPatternMessage,
    textLiteralMessage, attributePatternMessage, attributeLiteralMessage;
    find_mention.
Qed.

Lemma Unmet_names_parent (el : ExpectedElement) (elements : list Element) (p : string) :
  parentSelector el = Some p → truthy_string (Some p) = true →
  (∀ n, mentions (countMessage el n (len elements)) p)
  ∧ mentions (missingMessage el) p.
Proof.
  intros Hp Ht. pose proof (insideParent_mentions el p Hp Ht) as Hin.
  split; [intros n|]; unfold countMessage, missingMessage;
    (eapply mentions_inside; [exact Hin|]); find_mention.
Qed.

Lemma Unmet_names_attribute (el : ExpectedElement) (attr expectedValue : string)
    (actual : option string) :
  mentions (attributePatternMessage el attr actual) attr
  ∧ mentions (attributeLiteralMessage el attr expectedValue actual) attr.
Proof.
  split; unfold attributePatternMessage, attributeLiteralMessage; find_mention.
Qed.

Lemma checkAttributes_Unmet (el : ExpectedElement) (attrs : list (string * Expected))
    (first : Element) (others : list Element) (msg : string) :
  attrs ⊆ attributes el →
  checkAttributes el attrs first = Some msg → Unmet el (first :: others) msg.
Proof.
  induction attrs as [|[attr expectedValue] attrs IH]; intros Hsub; [done|].
  simpl. destruct expectedValue as [v|r].
  - case_bool_decide as Hv; simpl.
    + apply IH. set_solver.
    + intros [= <-].
      apply (AttributeLiteralFails _ _ first others attr v); [done| |done].
      set_solver.
  - destruct (getAttribute first attr) as [v|] eqn:Hget.
    + destruct (test r v) eqn:Ht; simpl.
      * apply IH. set_solver.
      * intros [= <-]. rewrite <- Hget.
        apply (AttributePatternFails _ _ first others attr r); [done| |];
          [set_solver|].
        intros v'. rewrite Hget. by intros [= <-].
    + intros [= <-]. rewrite <- Hget.
      apply (AttributePatternFails _ _ first others attr r); [done| |];
        [set_solver|].
      intros v'. by rewrite Hget.
Qed.

(** A failure of [checkElement] is one of the ways to be unmet, with its
    message. *)
Lemma checkElement_Unmet (el : ExpectedElement) (elements : list Element) (msg : string) :
  checkElement elements el = Some msg → Unmet el elements msg.
Proof.
  unfold checkElement.
  destruct (countDiffers (count el) elements) eqn:Hdiff.
  { intros [= <-]. unfold countDiffers in Hdiff.
    destruct (count el) as [n|] eqn:Hcount; [|done]. simpl.
    apply WrongCount; [done|]. apply negb_true_iff in Hdiff. by apply Z.eqb_neq. }
  destruct (countFalsy (count el) && (len elements =? 0)
            && negb (String.eqb (tag el) "!--")) eqn:Hmiss.
  { intros [= <-]. apply andb_true_iff in Hmiss as [[Hf Hl]%andb_true_iff Ht].
    apply MissingElement; [|by apply String.eqb_neq, negb_true_iff|done].
    destruct elements; [done|]. apply Z.eqb_eq in Hl. unfold len in Hl.
    simpl in Hl. lia. }
  destruct elements as [|first others]; [done|].
  destruct (checkText el first) as [m|] eqn:Htext;
    [|by apply checkAttributes_Unmet].
  intros [= <-]. revert Htext. unfold checkText.
  destruct (text el) as [[[|c s]|r]|] eqn:Ht; try done.
  - destruct (includes _ _) eqn:Hinc; simpl; [done|]. intros [= <-].
    by eapply TextLiteralFails.
  - destruct (test r _) eqn:Hr; simpl; [done|]. intros [= <-].
    by eapply TextPatternFails.
Qed.

Lemma checkElement_first_only (el : ExpectedElement) (first : Element)
    (others : list Element) :
  count el = None → checkElement (first :: others) el = checkElement [first] el.
Proof. intros Hc. unfold checkElement, countDiffers. by rewrite Hc. Qed.

(** With a count of zero no list of elements passes: any element makes
    the count differ, and none at all is reported missing. *)
Lemma checkElement_zero_count (el : ExpectedElement) (elements : list Element) :
  count el = Some 0 → tag el ≠ "!--" →
  checkElement elements el =
    Some (match elements with
          | [] => missingMessage el
          | _ :: _ => countMessage el 0 (len elements)
          end).
Proof.
  intros Hc Ht. unfold checkElement, countDiffers. rewrite Hc.
  apply String.eqb_neq in Ht. destruct elements as [|e es].
  - simpl. by rewrite Ht.
  - assert (Hl : (len (e :: es) =? 0) = false).
    { apply Z.eqb_neq. unfold len. simpl length. lia. }
    by rewrite Hl.
Qed.

(** An expectation of a tag alone is met by any element. *)
Lemma checkElement_present (t : string) (parent : option string)
    (e : Element) (es : list Element) :
  checkElement (e :: es) (expected t parent) = None.
Proof.
  unfold checkElement, expected. cbn [count countDiffers countFalsy tag].
  assert (Hl : (len (e :: es) =? 0) = false).
  { apply Z.eqb_neq. unfold len. simpl length. lia. }
  by rewrite Hl.
Qed.

Section MarkupValidator.
Context `{Browser}.

Lemma loop_success (doc : Document) (els : list ExpectedElement) :
  success (expectations_loop doc els) = true
  ↔ Forall (λ el, expectationFailure doc el = None) els.
Proof.
  induction els as [|el els IH]; simpl.
  - split; [by constructor|done].
  - destruct (expectationFailure doc el) as [msg|] eqn:Hel; simpl.
    + split; [done|]. intros Hall. inversion Hall; subst. congruence.
    + rewrite IH. split; [by constructor|]. by inversion 1.
Qed.

Lemma loop_first_failure (doc : Document) (pre : list ExpectedElement)
    (el : ExpectedElement) (post : list ExpectedElement) (msg : string) :
  Forall (λ e, expectationFailure doc e = None) pre →
  expectationFailure doc el = Some msg →
  expectations_loop doc (pre ++ el :: post) = failure msg.
Proof.
  intros Hpre Hel. induction Hpre as [|e pre He _ IH]; simpl.
  - by rewrite Hel.
  - by rewrite He.
Qed.

(** C10: an expectation with a count of zero, for a tag other than
    [!--], makes the validator fail on every document: when the query
    finds elements the count differs, when it finds none the zero counts
    as no count and the element is reported missing (and a query that
    throws is a failure as well). *)
Theorem zero_count_never_passes (code : string) (els : list ExpectedElement)
    (el : ExpectedElement) :
  el ∈ els → count el = Some 0 → tag el ≠ "!--" →
  success (validateHTMLStructure code els) = false
  ∧ (∀ e es, checkElement (e :: es) el = Some (countMessage el 0 (len (e :: es))))
  ∧ checkElement [] el = Some (missingMessage el).
Proof.
  intros Hin Hc Ht. split_and!.
  - destruct (success (validateHTMLStructure code els)) eqn:Hs; [|done].
    apply loop_success in Hs. rewrite Forall_forall in Hs.
    specialize (Hs el Hin). unfold expectationFailure in Hs.
    destruct (querySelectorAll _ _) as [err|elements]; [done|].
    by rewrite checkElement_zero_count in Hs.
  - intros e es. by rewrite checkElement_zero_count.
  - by rewrite checkElement_zero_count.
Qed.

(** The missing-element branch of task 1.1: a document in which
    [html > head] selects nothing is rejected with a message naming
    [head]. *)
Lemma task_1_1_reports_missing_head (code : string) (h : Element) (hs : list Element) :
  querySelectorAll (parseFromString code) "html" = inr (h :: hs) →
  querySelectorAll (parseFromString code) "html > head" = inr [] →
  validateHTMLStructure code task_1_1_expectations
  = failure "Missing <head> element inside html.".
Proof.
  intros Hhtml Hhead.
  unfold validateHTMLStructure, task_1_1_expectations.
  cbn [expectations_loop]. unfold expectationFailure.
  change (selectorOf (expected "html" None)) with "html".
  change (selectorOf (expected "head" (Some "html"))) with "html > head".
  by rewrite Hhtml, Hhead, checkElement_present.
Qed.

(** C7 (what the code does): task 1.1 accepts every text whose document
    has the [html], [head] and [body] elements. An HTML parser supplies
    these three elements for every text, so the text without
    [<head>] is accepted like the complete one. *)
Theorem task_1_1_accepts_skeleton (code : string) :
  hasSkeleton (parseFromString code) →
  validateHTMLStructure code task_1_1_expectations
  = passed "HTML structure looks good!".
Proof.
  intros (h & hs & d & ds & b & bs & Hhtml & Hhead & Hbody).
  unfold validateHTMLStructure, task_1_1_expectations.
  cbn [expectations_loop]. unfold expectationFailure.
  change (selectorOf (expected "html" None)) with "html".
  change (selectorOf (expected "head" (Some "html"))) with "html > head".
  change (selectorOf (expected "body" (Some "html"))) with "html > body".
  by rewrite Hhtml, Hhead, Hbody, !checkElement_present.
Qed.

End MarkupValidator.

(** C10 at work, on the document of the empty text: a count of zero
    fails for [body], which the document has, and for [p], which it has
    not. *)
Lemma zero_count_example :
  let body0 := mkExpected "body" None [] (Some 0) None in
  let p0 := mkExpected "p" None [] (Some 0) None in
  success (@validateHTMLStructure skeletonBrowser EmptyString [body0]) = false
  ∧ success (@validateHTMLStructure skeletonBrowser EmptyString [p0]) = false.
Proof.
  intros body0 p0. split.
  - apply (@zero_count_never_passes skeletonBrowser EmptyString [body0] body0);
      [set_solver|done|done].
  - apply (@zero_count_never_passes skeletonBrowser EmptyString [p0] p0);
      [set_solver|done|done].
Defined.

(** C7 at work: the text without [<head>] and the complete text are
    both accepted. *)
Lemma headless_markup_accepted :
  @validateHTMLStructure skeletonBrowser "<html><body></body></html>"
    task_1_1_expectations = passed "HTML structure looks good!"
  ∧ @validateHTMLStructure skeletonBrowser "<html><head></head><body></body></html>"
      task_1_1_expectations = passed "HTML structure looks good!".
Proof.
  split; apply (@task_1_1_accepts_skeleton skeletonBrowser);
    by exists emptyElement, [], emptyElement, [], emptyElement, [].
Defined.

Lemma checkText_textMet (el : ExpectedElement) (first : Element) :
  checkText el first = None ↔ textMet (text el) first.
Proof.
  unfold checkText, textMet. destruct (text el) as [[[|c s]|r]|]; [| | |done].
  - split; [|done]. intros _. by exists EmptyString, (textContent first).
  - rewrite <- includes_mentions.
    by destruct (includes (textContent first) (String c s)).
  - by destruct (test r (textContent first)).
Qed.

Lemma checkAttributes_attributeMet (el : ExpectedElement)
    (attrs : list (string * Expected)) (first : Element) :
  checkAttributes el attrs first = None ↔ Forall (attributeMet first) attrs.
Proof.
  induction attrs as [|[attr [v|r]] attrs IH]; cbn [checkAttributes].
  - split; [by constructor|done].
  - destruct (decide (getAttribute first attr = Some v)) as [Heq|Hne].
    + rewrite bool_decide_eq_true_2 by done. cbn [negb]. rewrite IH.
      split; [by constructor|by inversion 1].
    + rewrite bool_decide_eq_false_2 by done. cbn [negb].
      split; [done|]. by inversion 1.
  - destruct (getAttribute first attr) as [v|] eqn:Hget.
    + destruct (test r v) eqn:Ht; cbn [negb].
      * rewrite IH. split; [|by inversion 1].
        intros Hall. constructor; [|done]. unfold attributeMet. cbn [fst snd].
        exists v. by rewrite Hget.
      * split; [done|]. inversion 1 as [|? ? Hm _]; subst.
        destruct Hm as (v' & Hv' & Ht'). cbn [fst snd] in Hv', Ht'. congruence.
    + split; [done|]. inversion 1 as [|? ? Hm _]; subst.
      destruct Hm as (v' & Hv' & _). cbn [fst snd] in Hv'. congruence.
Qed.

(** The checks of one expectation pass exactly on the lists of elements
    that meet it. *)
Lemma checkElement_Met (el : ExpectedElement) (elements : list Element) :
  checkElement elements el = None ↔ Met el elements.
Proof.
  unfold checkElement, Met, countDiffers, countFalsy, len.
  destruct (count el) as [n|] eqn:Hcount.
  - destruct (Z.eqb_spec (Z.of_nat (length elements)) n) as [Hn|Hn]; cbn [negb].
    2:{ split; [done|]. intros [Hc _]. by specialize (Hc n eq_refl). }
    destruct (Z.eqb_spec n 0) as [H0|H0]; cbn [andb].
    + destruct elements as [|first others]; [|simpl in Hn; lia].
      cbn [length]. change (Z.of_nat 0 =? 0) with true. cbn [andb].
      destruct (String.eqb_spec (tag el) "!--") as [Ht|Ht]; cbn [negb].
      * split; [|done]. intros _. split_and!; [by intros ? [= <-]|done|done].
      * split; [done|]. intros (_ & Hone & _). exfalso. apply Hone; [|done..].
        right. by subst.
    + destruct elements as [|first others].
      * split; [|done]. intros _. split_and!; [by intros ? [= <-]| |done].
        intros [?|[= ?]]; done.
      * destruct (checkText el first) eqn:Htext.
        { split; [done|]. intros (_ & _ & Hf).
          destruct (Hf first others eq_refl) as [Hm _].
          apply checkText_textMet in Hm. congruence. }
        rewrite checkAttributes_attributeMet. apply checkText_textMet in Htext.
        split.
        -- intros Hall. split_and!; [by intros ? [= <-]|done|].
           by intros ? ? [= <- <-].
        -- intros (_ & _ & Hf). by destruct (Hf first others eq_refl).
  - cbn [andb]. destruct elements as [|first others].
    + change (Z.of_nat (length []) =? 0) with true. cbn [andb].
      destruct (String.eqb_spec (tag el) "!--") as [Ht|Ht]; cbn [negb].
      * split; [|done]. intros _. by split_and!.
      * split; [done|]. intros (_ & Hone & _). exfalso.
        apply Hone; [by left|done..].
    + assert (Hl : (Z.of_nat (length (first :: others)) =? 0) = false).
      { apply Z.eqb_neq. simpl length. lia. }
      rewrite Hl. cbn [andb].
      destruct (checkText el first) eqn:Htext.
      { split; [done|]. intros (_ & _ & Hf).
        destruct (Hf first others eq_refl) as [Hm _].
        apply checkText_textMet in Hm. congruence. }
      rewrite checkAttributes_attributeMet. apply checkText_textMet in Htext.
      split.
      * intros Hall. split_and!; [done|done|]. by intros ? ? [= <- <-].
      * intros (_ & _ & Hf). by destruct (Hf first others eq_refl).
Qed.

Section MarkupContract.
Context `{Browser}.

Lemma expectationFailure_Met (doc : Document) (el : ExpectedElement) :
  expectationFailure doc el = None
  ↔ ∃ elements, querySelectorAll doc (selectorOf el) = inr elements ∧ Met el elements.
Proof.
  unfold expectationFailure.
  destruct (querySelectorAll doc (selectorOf el)) as [err|elements].
  - split; [done|]. by intros (? & ? & _).
  - rewrite checkElement_Met. split; [by exists elements|].
    by intros (? & [= <-] & ?).
Qed.


End MarkupContract.


(* ===================================================================== *)
(** * The structural style validator *)
(* ===================================================================== *)

Section StyleValidator.
Context `{RegExpEngine}.

Lemma checkProperties_passes (sel content : string) (props : list (string * Expected)) :
  checkProperties sel content props = None ↔ Forall (propertyMet content) props.
Proof.
  induction props as [|[prop value] props IH]; cbn [checkProperties].
  - split; [by constructor|done].
  - destruct (matchPropRegex prop content) as [err|[[[|c raw]|]|]] eqn:Hm.
    1-2,4-5: split; [done|];
      inversion 1 as [|? ? (raw' & Hraw & Hne & _) _]; subst;
      cbn [fst] in Hraw; congruence.
    cbv zeta.
    destruct (valueAccepted value (trim (String c raw))) eqn:Hv.
    + rewrite IH. split.
      * intros Hall. constructor; [|done]. by exists (String c raw).
      * by inversion 1.
    + split; [done|]. inversion 1 as [|? ? (raw' & Hraw & _ & Hacc) _]; subst.
      cbn [fst snd] in Hraw, Hacc. congruence.
Qed.

Lemma styleFailure_passes (code : string) (style : ExpectedStyle) :
  styleFailure code style = None ↔ styleMet code style.
Proof.
  unfold styleFailure, styleMet.
  destruct (Z.eqb_spec (selectorIndexOf code style) (-1)) as [Hs|Hs].
  { split; [done|]. by intros [? _]. }
  destruct (Z.eqb_spec (ruleStartIndexOf code style) (-1)) as [Ha|Ha]; simpl.
  { split; [done|]. by intros (_ & ? & _). }
  destruct (Z.eqb_spec (ruleEndIndexOf code style) (-1)) as [Hb|Hb]; simpl.
  { split; [done|]. by intros (_ & _ & ? & _). }
  rewrite checkProperties_passes. naive_solver.
Qed.

Lemma checkProperties_StyleUnmet (code : string) (style : ExpectedStyle)
    (props : list (string * Expected)) (msg : string) :
  props ⊆ properties style →
  checkProperties (selector style) (ruleContentOf code style) props = Some msg →
  StyleUnmet code style msg.
Proof.
  induction props as [|[prop value] props IH]; intros Hsub; [done|].
  cbn [checkProperties].
  assert (Hin : (prop, value) ∈ properties style) by set_solver.
  assert (Hrest : props ⊆ properties style) by set_solver.
  destruct (matchPropRegex prop (ruleContentOf code style))
    as [err|[[[|c raw]|]|]] eqn:Hm.
  - intros [= <-]. by eapply PropertyExpressionInvalid.
  - intros [= <-]. eapply PropertyMissing; [done|auto].
  - cbv zeta. destruct (valueAccepted value (trim (String c raw))) eqn:Hv.
    { by apply IH. }
    intros [= <-]. destruct value as [v|r]; cbn [valueAccepted] in Hv.
    + apply (ValueDiffers _ _ prop v (String c raw)); [done..|].
      by apply String.eqb_neq.
    + by apply (PatternFails _ _ prop r (String c raw)).
  - intros [= <-]. eapply PropertyMissing; [done|auto].
  - intros [= <-]. eapply PropertyMissing; [done|auto].
Qed.

Lemma styleFailure_StyleUnmet (code : string) (style : ExpectedStyle) (msg : string) :
  styleFailure code style = Some msg → StyleUnmet code style msg.
Proof.
  unfold styleFailure.
  destruct (Z.eqb_spec (selectorIndexOf code style) (-1)) as [Hs|Hs].
  { intros [= <-]. by apply SelectorMissing. }
  destruct (Z.eqb_spec (ruleStartIndexOf code style) (-1)) as [Ha|Ha]; simpl.
  { intros [= <-]. apply BracesMissing; auto. }
  destruct (Z.eqb_spec (ruleEndIndexOf code style) (-1)) as [Hb|Hb]; simpl.
  { intros [= <-]. apply BracesMissing; auto. }
  by apply checkProperties_StyleUnmet.
Qed.

Lemma StyleUnmet_names_selector (code : string) (style : ExpectedStyle) (msg : string) :
  StyleUnmet code style msg →
  mentions msg (selector style) ∨ ∃ err, msg = "Error validating CSS: " +:+ err.
Proof.
  intros []; [left..|right; by eexists];
    unfold selectorNotFoundMessage, bracesMessage, propertyNotFoundMessage,
      valueMismatchMessage, patternMismatchMessage; find_mention.
Qed.

Lemma styles_success (code : string) (styles : list ExpectedStyle) :
  success (validateCSSProperties code styles) = true
  ↔ Forall (styleMet code) styles.
Proof.
  induction styles as [|style styles IH]; cbn [validateCSSProperties].
  - split; [by constructor|done].
  - destruct (styleFailure code style) as [msg|] eqn:Hst; simpl.
    + split; [done|]. inversion 1 as [|? ? Hmet _]; subst.
      apply styleFailure_passes in Hmet. congruence.
    + rewrite IH. apply styleFailure_passes in Hst. split.
      * by constructor.
      * by inversion 1.
Qed.

Lemma styles_first_failure (code : string) (pre : list ExpectedStyle)
    (style : ExpectedStyle) (post : list ExpectedStyle) :
  Forall (styleMet code) pre → ¬ styleMet code style →
  ∃ msg, validateCSSProperties code (pre ++ style :: post) = failure msg
       ∧ StyleUnmet code style msg.
Proof.
  intros Hpre Hst. induction Hpre as [|s pre Hs _ IH]; cbn [app validateCSSProperties].
  - destruct (styleFailure code style) as [msg|] eqn:Hf.
    + exists msg. split; [done|]. by apply styleFailure_StyleUnmet.
    + by apply styleFailure_passes in Hf.
  - apply styleFailure_passes in Hs. by rewrite Hs.
Qed.

End StyleValidator.

Lemma property_messages_name_property (prop sel v actual src : string) :
  mentions (propertyNotFoundMessage prop sel) prop
  ∧ mentions (valueMismatchMessage prop sel v actual) prop
  ∧ mentions (patternMismatchMessage prop sel actual src) prop.
Proof.
  split_and!; unfold propertyNotFoundMessage, valueMismatchMessage,
    patternMismatchMessage; find_mention.
Qed.

(** The property pattern on a declaration as written. *)
Lemma stripPrefix_app (p rest : string) : stripPrefix p (p +:+ rest) = Some rest.
Proof.
  induction p as [|c p IH]; [done|].
  change (stripPrefix (String c p) (String c (p +:+ rest)) = Some rest).
  cbn [stripPrefix]. by rewrite Ascii.eqb_refl.
Qed.

Lemma skipWhiteSpace_run (sp : string) (c : ascii) (rest : string) (last : option ascii) :
  allWhiteSpace sp = true → isWhiteSpace c = false →
  (skipWhiteSpace last (sp +:+ String c rest)).2 = String c rest.
Proof.
  revert last. induction sp as [|w sp IH]; intros last Hsp Hc.
  - change (snd (if isWhiteSpace c then skipWhiteSpace (Some c) rest
                 else (last, String c rest)) = String c rest).
    by rewrite Hc.
  - cbn [allWhiteSpace] in Hsp. apply andb_true_iff in Hsp as [Hw Hsp].
    change (snd (if isWhiteSpace w
                 then skipWhiteSpace (Some w) (sp +:+ String c rest)
                 else (last, String w (sp +:+ String c rest))) = String c rest).
    rewrite Hw. by apply IH.
Qed.

Lemma untilSemicolon_value (value rest : string) :
  noSemicolon value = true → untilSemicolon (value +:+ String ";" rest) = value.
Proof.
  induction value as [|c value IH]; intros Hv; [done|].
  cbn [noSemicolon] in Hv. apply andb_true_iff in Hv as [Hc Hv].
  change (untilSemicolon (String c (value +:+ String ";" rest)) = String c value).
  cbn [untilSemicolon]. apply negb_true_iff in Hc. rewrite Hc. by rewrite IH.
Qed.

Lemma matchPropertyAt_declaration (prop sp1 sp2 value rest : string) :
  allWhiteSpace sp1 = true → allWhiteSpace sp2 = true → writtenValue value = true →
  matchPropertyAt prop
    (prop +:+ sp1 +:+ String ":" (sp2 +:+ value +:+ String ";" rest))
  = Some value.
Proof.
  intros H1 H2 Hv. unfold matchPropertyAt. rewrite stripPrefix_app.
  rewrite skipWhiteSpace_run by done. rewrite Ascii.eqb_refl.
  destruct value as [|c value]; [done|]. cbn [writtenValue] in Hv.
  apply andb_true_iff in Hv as [Hc Hv]. apply negb_true_iff in Hc.
  pose proof (skipWhiteSpace_run sp2 c (value +:+ String ";" rest) None H2 Hc) as Hskip.
  change (String c value +:+ String ";" rest)
    with (String c (value +:+ String ";" rest)).
  destruct (skipWhiteSpace None (sp2 +:+ String c (value +:+ String ";" rest)))
    as [lastSpace after]. simpl in Hskip. subst after.
  change (String c (value +:+ String ";" rest))
    with (String c value +:+ String ";" rest).
  by rewrite untilSemicolon_value.
Qed.

Lemma lacksChar_app (c : ascii) (a b : string) :
  lacksChar c (a +:+ b) = lacksChar c a && lacksChar c b.
Proof.
  induction a as [|x a IH]; [done|].
  change (negb (Ascii.eqb x c) && lacksChar c (a +:+ b)
          = negb (Ascii.eqb x c) && lacksChar c a && lacksChar c b).
  by rewrite IH, andb_assoc.
Qed.

Lemma allWhiteSpace_lacksChar (c : ascii) (ws : string) :
  isWhiteSpace c = false → allWhiteSpace ws = true → lacksChar c ws = true.
Proof.
  intros Hc. induction ws as [|x ws IH]; [done|]. cbn [allWhiteSpace lacksChar].
  intros [Hx Hws]%andb_true_iff. rewrite IH by done.
  destruct (Ascii.eqb_spec x c) as [->|]; [congruence|done].
Qed.

Lemma plainName_lacksChar (c : ascii) (name : string) :
  isNameChar c = false → plainName name = true → lacksChar c name = true.
Proof.
  intros Hc. induction name as [|x name IH]; [done|]. cbn [plainName lacksChar].
  intros [Hx Hn]%andb_true_iff. rewrite IH by done.
  destruct (Ascii.eqb_spec x c) as [->|]; [congruence|done].
Qed.

Lemma noSemicolon_lacksChar (s : string) : noSemicolon s = lacksChar ";" s.
Proof. induction s as [|x s IH]; [done|]. cbn [noSemicolon lacksChar]. by rewrite IH. Qed.

Lemma matchProperty_here (prop s value : string) :
  matchPropertyAt prop s = Some value → matchProperty prop s = Some value.
Proof. intros Hm. destruct s; cbn [matchProperty]; by rewrite Hm. Qed.

Section WrittenRule.
Context `{RegExpEngine}.
Variables sel sp0 prop sp1 sp2 value sp3 rest tail : string.
Variables (front : string) (c : ascii).
Hypothesis sel_plain : lacksChar "{" sel = true.
Hypothesis sp0_space : allWhiteSpace sp0 = true.
Hypothesis prop_plain : plainName prop = true.
Hypothesis sp1_space : allWhiteSpace sp1 = true.
Hypothesis sp2_space : allWhiteSpace sp2 = true.
Hypothesis sp3_space : allWhiteSpace sp3 = true.
Hypothesis value_first : ∀ x r, value = String x r → isWhiteSpace x = false.
Hypothesis value_last : value = front +:+ String c EmptyString.
Hypothesis value_last_char : isWhiteSpace c = false.
Hypothesis value_chars : lacksChar ";" value = true ∧ lacksChar "}" value = true.
Hypothesis rest_chars : lacksChar "}" rest = true.

Lemma written_rule_content (style : ExpectedStyle) :
  selector style = sel →
  let body := prop +:+ sp1 +:+ ":" +:+ sp2 +:+ value +:+ sp3 +:+ ";" +:+ rest in
  let code := sel +:+ sp0 +:+ "{" +:+ body +:+ "}" +:+ tail in
  selectorIndexOf code style = 0
  ∧ ruleStartIndexOf code style = strlen sel + strlen sp0
  ∧ ruleEndIndexOf code style = strlen sel + strlen sp0 + 1 + strlen body
  ∧ ruleContentOf code style = body.
Proof using sel_plain sp0_space prop_plain sp1_space sp2_space sp3_space
  value_chars rest_chars.
  intros Hsel body code.
  assert (Hbody : lacksChar "}" body = true).
  { unfold body. rewrite !lacksChar_app. destruct value_chars as [_ ->].
    rewrite rest_chars, (plainName_lacksChar "}" prop eq_refl prop_plain),
      (allWhiteSpace_lacksChar "}" sp1 eq_refl sp1_space),
      (allWhiteSpace_lacksChar "}" sp2 eq_refl sp2_space),
      (allWhiteSpace_lacksChar "}" sp3 eq_refl sp3_space). done. }
  assert (Hs : selectorIndexOf code style = 0).
  { unfold selectorIndexOf. rewrite Hsel. apply indexOf_at_start. }
  assert (Ha : ruleStartIndexOf code style = strlen sel + strlen sp0).
  { unfold ruleStartIndexOf. rewrite Hs.
    pose proof (indexOf_char "{" EmptyString (sel +:+ sp0)
                  (body +:+ "}" +:+ tail)) as Hi.
    rewrite strlen_app in Hi. unfold code.
    replace (sel +:+ sp0 +:+ "{" +:+ body +:+ "}" +:+ tail)
      with (EmptyString +:+ (sel +:+ sp0) +:+ String "{" (body +:+ "}" +:+ tail))
      by (by rewrite append_assoc).
    apply Hi. rewrite lacksChar_app, sel_plain.
    by rewrite (allWhiteSpace_lacksChar "{" sp0 eq_refl sp0_space). }
  assert (Hb : ruleEndIndexOf code style = strlen sel + strlen sp0 + 1 + strlen body).
  { unfold ruleEndIndexOf. rewrite Ha.
    pose proof (indexOf_char "}" (sel +:+ sp0) ("{" +:+ body) tail) as Hi.
    rewrite !strlen_app in Hi. unfold code.
    replace (sel +:+ sp0 +:+ "{" +:+ body +:+ "}" +:+ tail)
      with ((sel +:+ sp0) +:+ ("{" +:+ body) +:+ String "}" tail)
      by (by rewrite !append_assoc).
    rewrite Hi; [change (strlen "{") with 1; lia|].
    by rewrite lacksChar_app, Hbody. }
  split_and!; [done..|].
  unfold ruleContentOf. rewrite Ha, Hb.
  pose proof (substring_between (sel +:+ sp0 +:+ "{") body ("}" +:+ tail)) as Hsub.
  rewrite !strlen_app in Hsub. change (strlen "{") with 1 in Hsub.
  unfold code.
  replace (sel +:+ sp0 +:+ "{" +:+ body +:+ "}" +:+ tail)
    with ((sel +:+ sp0 +:+ "{") +:+ body +:+ "}" +:+ tail)
    by (by rewrite !append_assoc).
  etrans; [|exact Hsub]. f_equal; lia.
Qed.

Lemma written_rule_value :
  let body := prop +:+ sp1 +:+ ":" +:+ sp2 +:+ value +:+ sp3 +:+ ";" +:+ rest in
  matchPropRegex prop body = inr (Some (Some (value +:+ sp3)))
  ∧ trim (value +:+ sp3) = value.
Proof using prop_plain sp1_space sp2_space sp3_space value_first value_last
  value_last_char value_chars.
  intros body. split.
  - unfold matchPropRegex. rewrite prop_plain.
    rewrite (matchProperty_here prop body (value +:+ sp3)); [done|].
    unfold body.
    replace (prop +:+ sp1 +:+ ":" +:+ sp2 +:+ value +:+ sp3 +:+ ";" +:+ rest)
      with (prop +:+ sp1 +:+ String ":" (sp2 +:+ (value +:+ sp3) +:+ String ";" rest))
      by (by rewrite !append_assoc).
    apply matchPropertyAt_declaration; [done..|].
    destruct value as [|x r] eqn:Hv; [by destruct front|].
    change (String x r +:+ sp3) with (String x (r +:+ sp3)).
    cbn [writtenValue]. rewrite (value_first x r) by done.
    change (String x (r +:+ sp3)) with (String x r +:+ sp3).
    rewrite noSemicolon_lacksChar, lacksChar_app.
    destruct value_chars as [-> _].
    by rewrite (allWhiteSpace_lacksChar ";" sp3 eq_refl sp3_space).
  - pose proof (trim_core EmptyString front c sp3 eq_refl sp3_space value_last_char)
      as Htrim.
    rewrite <- value_last in Htrim. by apply Htrim.
Qed.

End WrittenRule.

(** The index of the selector: the place of its first occurrence. *)
Lemma selectorIndexOf_first (code : string) (style : ExpectedStyle) :
  (selectorIndexOf code style = -1 ∧ ¬ mentions code (selector style))
  ∨ ∃ a b, code = a +:+ selector style +:+ b
         ∧ selectorIndexOf code style = strlen a
         ∧ ∀ a' b', code = a' +:+ selector style +:+ b' → strlen a ≤ strlen a'.
Proof.
  unfold selectorIndexOf, indexOf. rewrite clamp_0. cbn [dropChars].
  change (Z.of_nat 0) with 0.
  destruct (decide (indexOf_scan (selector style) code 0 = -1)) as [Hn|Hf].
  - left. split; [done|]. by apply (indexOf_scan_none _ _ 0).
  - right. destruct (indexOf_scan_found _ _ 0 Hf) as (a & b & Heq & Hi); [lia|].
    exists a, b. split_and!; [done|lia|]. intros a' b' Heq'.
    pose proof (indexOf_scan_first (selector style) code 0 a' b' Heq'). lia.
Qed.

Section WrittenRuleResult.
Context `{RegExpEngine}.

Lemma written_rule_result
    (sel sp0 prop sp1 sp2 value sp3 rest tail front : string) (c : ascii)
    (expectedValue : Expected) :
  lacksChar "{" sel = true → allWhiteSpace sp0 = true → plainName prop = true →
  allWhiteSpace sp1 = true → allWhiteSpace sp2 = true → allWhiteSpace sp3 = true →
  (∀ x r, value = String x r → isWhiteSpace x = false) →
  value = front +:+ String c EmptyString → isWhiteSpace c = false →
  lacksChar ";" value = true → lacksChar "}" value = true →
  lacksChar "}" rest = true →
  validateCSSProperties
    (sel +:+ sp0 +:+ "{" +:+ prop +:+ sp1 +:+ ":" +:+ sp2 +:+ value +:+ sp3 +:+ ";"
     +:+ rest +:+ "}" +:+ tail)
    [ {| selector := sel; properties := [(prop, expectedValue)] |} ]
  = match expectedValue with
    | Literal v =>
        if bool_decide (toLowerCase value = toLowerCase v)
        then passed "CSS styles look correct!"
        else failure ("Property '" +:+ prop +:+ "' for '" +:+ sel +:+ "' should be '"
                      +:+ v +:+ "', but found '" +:+ value +:+ "'.")
    | Pattern r =>
        if test r value then passed "CSS styles look correct!"
        else failure ("Property '" +:+ prop +:+ "' for '" +:+ sel +:+ "' has value '"
                      +:+ value +:+ "', which does not match pattern '"
                      +:+ source r +:+ "'.")
    end.
Proof.
  intros Hsel Hsp0 Hprop Hsp1 Hsp2 Hsp3 Hfirst Hlast Hc Hsemi Hbrace Hrest.
  set (style := {| selector := sel; properties := [(prop, expectedValue)] |}).
  destruct (written_rule_content sel sp0 prop sp1 sp2 value sp3 rest tail
              Hsel Hsp0 Hprop Hsp1 Hsp2 Hsp3 (conj Hsemi Hbrace) Hrest style eq_refl)
    as (Hs & Ha & Hb & Hcontent).
  destruct (written_rule_value prop sp1 sp2 value sp3 rest front c
              Hprop Hsp1 Hsp2 Hsp3 Hfirst Hlast Hc (conj Hsemi Hbrace))
    as [Hmatch Htrim].
  replace (sel +:+ sp0 +:+ "{" +:+ prop +:+ sp1 +:+ ":" +:+ sp2 +:+ value +:+ sp3
           +:+ ";" +:+ rest +:+ "}" +:+ tail)
    with (sel +:+ sp0 +:+ "{"
          +:+ (prop +:+ sp1 +:+ ":" +:+ sp2 +:+ value +:+ sp3 +:+ ";" +:+ rest)
          +:+ "}" +:+ tail)
    by (by rewrite !append_assoc).
  cbn [validateCSSProperties]. unfold styleFailure. rewrite Hs, Ha, Hb, Hcontent.
  pose proof (strlen_nonneg sel). pose proof (strlen_nonneg sp0).
  pose proof (strlen_nonneg
    (prop +:+ sp1 +:+ ":" +:+ sp2 +:+ value +:+ sp3 +:+ ";" +:+ rest)).
  change (0 =? -1) with false. cbv iota.
  destruct (Z.eqb_spec (strlen sel + strlen sp0) (-1)); [lia|].
  destruct (Z.eqb_spec (strlen sel + strlen sp0 + 1
              + strlen (prop +:+ sp1 +:+ ":" +:+ sp2 +:+ value +:+ sp3 +:+ ";" +:+ rest))
              (-1)); [lia|].
  cbn [orb selector properties style checkProperties]. rewrite Hmatch.
  destruct (value +:+ sp3) as [|x r] eqn:Hraw.
  { rewrite Hlast in Hraw. by destruct front. }
  cbv zeta. rewrite Htrim.
  destruct expectedValue as [v|r']; cbn [valueAccepted].
  - destruct (String.eqb_spec (toLowerCase value) (toLowerCase v)) as [Heq|Hne].
    + by rewrite bool_decide_eq_true_2.
    + by rewrite bool_decide_eq_false_2.
  - by destruct (test r' value).
Qed.


End WrittenRuleResult.



(* ===================================================================== *)
(** * The unlock boundary under progress *)
(* ===================================================================== *)

Lemma isCompletedIn_progressOf (store : UserProgress) (levelId : string) :
  isCompletedIn store levelId = isCompleted (progressOf store levelId).
Proof. unfold isCompletedIn, progressOf. by destruct (store !! levelId). Qed.

Lemma completedLevel_run (LEVELS : list Level.t) (ms : list Mutation)
    (store : UserProgress) (l : Level.t) :
  completedLevel store l = true → completedLevel (run LEVELS ms store) l = true.
Proof.
  unfold completedLevel. rewrite !isCompletedIn_progressOf.
  revert store. induction ms as [|m ms IH]; intros store; [done|].
  rewrite run_cons. intros Hc. apply IH. by apply mutate_monotone.
Qed.

(** With distinct ids the index of a level's id is its position. *)
Lemma findLevelIndex_position (LEVELS : list Level.t) (i : nat) (l : Level.t) :
  NoDup (Level.id <$> LEVELS) → LEVELS !! i = Some l →
  findLevelIndex LEVELS (Level.id l) = Z.of_nat i.
Proof.
  intros Hnd Hl.
  pose proof (take_drop_middle LEVELS i l Hl) as Hsplit.
  assert (Hlen : length (take i LEVELS) = i).
  { apply length_take_le. apply lookup_lt_Some in Hl. lia. }
  revert Hsplit Hlen. generalize (take i LEVELS) (drop (S i) LEVELS).
  intros pre post <- Hlen. clear Hl.
  unfold findLevelIndex, findIndex.
  rewrite findIndex_from_skip; [|..|apply String.eqb_refl].
  - unfold len. lia.
  - rewrite fmap_app in Hnd. apply NoDup_app in Hnd as (_ & Hdisj & _).
    apply Forall_forall. intros y Hy. apply String.eqb_neq. intros Heq.
    apply (Hdisj (Level.id y)); [by apply list_elem_of_fmap_2|].
    rewrite Heq. simpl. left.
Qed.

Section Boundary.
Variable LEVELS : list Level.t.

Lemma boundary_lt (store : UserProgress) :
  LEVELS ≠ [] → (boundary LEVELS store < length LEVELS)%nat.
Proof.
  intros Hne. unfold boundary.
  destruct (list_find _ LEVELS) as [[i l]|] eqn:Hfind.
  - apply list_find_Some in Hfind as (Hl & _). by apply lookup_lt_Some in Hl.
  - destruct LEVELS; [done|]. simpl. lia.
Qed.

(** The effect hands over the id of the level at the boundary. *)
Lemma computeHighestUnlocked_boundary (store : UserProgress) :
  LEVELS ≠ [] →
  ∃ l, LEVELS !! boundary LEVELS store = Some l
     ∧ computeHighestUnlocked LEVELS store = Some (Level.id l).
Proof.
  intros Hne. destruct LEVELS as [|first rest] eqn:HL; [done|].
  rewrite computeHighestUnlocked_first. unfold boundary.
  destruct (list_find _ (first :: rest)) as [[i l]|] eqn:Hfind.
  - apply list_find_Some in Hfind as (Hl & Hnc & Hbefore).
    exists l. split; [done|].
    rewrite (find_first_at _ _ i l Hl); [done|by rewrite Hnc|].
    intros j y Hj Hy. specialize (Hbefore j y Hy Hj).
    by destruct (completedLevel store y).
  - apply list_find_None in Hfind. rewrite Forall_forall in Hfind.
    exists (List.last (first :: rest) first). split.
    + pose proof (lastLevel_last first rest) as Hlast.
      unfold lastLevel, at_index, len in Hlast. simpl length in *.
      destruct (Z.ltb_spec (Z.of_nat (S (length rest)) - 1) 0); [lia|].
      rewrite <- Hlast. f_equal. lia.
    + destruct (find _ (first :: rest)) as [y|] eqn:Hf; [|done].
      apply find_some in Hf as [Hin Hy]. apply list_elem_of_In in Hin.
      specialize (Hfind y Hin). by destruct (completedLevel store y).
Qed.

(** Every level before the boundary is completed. *)
Lemma before_boundary (store : UserProgress) (j : nat) (l : Level.t) :
  (j < boundary LEVELS store)%nat → LEVELS !! j = Some l →
  completedLevel store l = true.
Proof.
  unfold boundary. intros Hj Hl.
  destruct (list_find _ LEVELS) as [[i x]|] eqn:Hfind.
  - apply list_find_Some in Hfind as (_ & _ & Hbefore).
    specialize (Hbefore j l Hl Hj). by destruct (completedLevel store l).
  - apply list_find_None in Hfind. rewrite Forall_forall in Hfind.
    assert (Hin : l ∈ LEVELS) by (by eapply list_elem_of_lookup_2).
    specialize (Hfind l Hin). by destruct (completedLevel store l).
Qed.

(** A level that is not completed bounds the boundary. *)
Lemma boundary_le (store : UserProgress) (i : nat) (l : Level.t) :
  LEVELS !! i = Some l → completedLevel store l = false →
  (boundary LEVELS store ≤ i)%nat.
Proof.
  intros Hl Hnc. destruct (decide (boundary LEVELS store ≤ i)%nat); [done|].
  rewrite (before_boundary store i l) in Hnc; [done|lia|done].
Qed.

Lemma boundary_mono (store store' : UserProgress) :
  (∀ l, completedLevel store l = true → completedLevel store' l = true) →
  (boundary LEVELS store ≤ boundary LEVELS store')%nat.
Proof.
  intros Hgrow. destruct (decide (LEVELS = [])) as [->|Hne]; [done|].
  unfold boundary at 2.
  destruct (list_find _ LEVELS) as [[i l]|] eqn:Hfind.
  - apply list_find_Some in Hfind as (Hl & Hnc & _).
    apply (boundary_le store i l Hl).
    destruct (completedLevel store l) eqn:Hc; [|done].
    apply Hgrow in Hc. congruence.
  - pose proof (boundary_lt store Hne). lia.
Qed.

(** The boundary stays where it is while its level is not completed. *)
Lemma boundary_stays (store store' : UserProgress) (l : Level.t) :
  (∀ x, completedLevel store x = true → completedLevel store' x = true) →
  LEVELS !! boundary LEVELS store = Some l → completedLevel store' l = false →
  boundary LEVELS store' = boundary LEVELS store.
Proof.
  intros Hgrow Hl Hnc. pose proof (boundary_mono store store' Hgrow).
  pose proof (boundary_le store' _ l Hl Hnc). lia.
Qed.

End Boundary.

Lemma boundary_level_open (LEVELS : list Level.t) (store : UserProgress) (l : Level.t) :
  LEVELS !! boundary LEVELS store = Some l →
  completedLevel store l = false ∨ boundary LEVELS store = (length LEVELS - 1)%nat.
Proof.
  unfold boundary. destruct (list_find _ LEVELS) as [[i x]|] eqn:Hfind; [|by right].
  apply list_find_Some in Hfind as (Hx & Hnc & _). intros Hl. left. congruence.
Qed.

Lemma NoDup_level_ids : NoDup (Level.id <$> LEVELS).
Proof. apply (bool_decide_unpack _). vm_compute. exact I. Qed.

(** X1: along every sequence of store mutations the highest unlocked
    level never moves back in the catalog (for a catalog with distinct
    level ids). *)
Theorem unlock_boundary_never_recedes (LEVELS : list Level.t) (ms : list Mutation)
    (store : UserProgress) (h h' : string) :
  NoDup (Level.id <$> LEVELS) →
  computeHighestUnlocked LEVELS store = Some h →
  computeHighestUnlocked LEVELS (run LEVELS ms store) = Some h' →
  findLevelIndex LEVELS h ≤ findLevelIndex LEVELS h'.
Proof.
  intros Hnd Hh Hh'. destruct (decide (LEVELS = [])) as [->|Hne].
  { simpl in Hh, Hh'. by simplify_eq. }
  destruct (computeHighestUnlocked_boundary LEVELS store Hne) as (l & Hl & Hc).
  destruct (computeHighestUnlocked_boundary LEVELS (run LEVELS ms store) Hne)
    as (l' & Hl' & Hc').
  rewrite Hc in Hh. rewrite Hc' in Hh'. simplify_eq.
  rewrite (findLevelIndex_position LEVELS _ l Hnd Hl).
  rewrite (findLevelIndex_position LEVELS _ l' Hnd Hl').
  apply inj_le. apply boundary_mono. intros x. apply completedLevel_run.
Qed.

(** X1 at work on the catalog: completing level 1 moves the boundary
    from level 1 to level 2. *)
Lemma unlock_boundary_level_1_to_2 :
  findLevelIndex LEVELS "1" ≤ findLevelIndex LEVELS "2".
Proof.
  apply (unlock_boundary_never_recedes LEVELS [MarkLevel "1" None] ∅ "1" "2").
  - exact NoDup_level_ids.
  - vm_compute. reflexivity.
  - vm_compute. reflexivity.
Defined.

(** X2: the highest unlocked level is the level at the boundary; a
    mutation that leaves that level not completed leaves the highest
    unlocked level as it is, and completing that level hands the boundary
    to the next level of the catalog when that one is not completed. *)
Theorem highest_unlocked_moves_with_its_level (LEVELS : list Level.t)
    (store : UserProgress) (l : Level.t) :
  LEVELS !! boundary LEVELS store = Some l →
  computeHighestUnlocked LEVELS store = Some (Level.id l)
  ∧ (∀ m, completedLevel (mutate LEVELS m store) l = false →
       computeHighestUnlocked LEVELS (mutate LEVELS m store) = Some (Level.id l))
  ∧ (∀ pc next,
       LEVELS !! S (boundary LEVELS store) = Some next →
       completedLevel (completeLevel (Level.id l) pc store) next = false →
       computeHighestUnlocked LEVELS (completeLevel (Level.id l) pc store)
       = Some (Level.id next)).
Proof.
  intros Hl.
  assert (Hne : LEVELS ≠ []) by (intros ->; done).
  assert (Hhere : ∀ s x, LEVELS !! boundary LEVELS s = Some x →
            computeHighestUnlocked LEVELS s = Some (Level.id x)).
  { intros s x Hx. destruct (computeHighestUnlocked_boundary LEVELS s Hne)
      as (y & Hy & ->). congruence. }
  split_and!.
  - by apply Hhere.
  - intros m Hnc. apply Hhere.
    rewrite (boundary_stays LEVELS store (mutate LEVELS m store) l); [done| |done..].
    intros x. apply (completedLevel_run LEVELS [m]).
  - intros pc next Hnext Hnc. apply Hhere.
    set (store' := completeLevel (Level.id l) pc store) in *.
    assert (Hgrow : ∀ x, completedLevel store x = true → completedLevel store' x = true).
    { intros x. apply (completedLevel_run LEVELS [MarkLevel (Level.id l) pc]). }
    assert (Hdone : completedLevel store' l = true).
    { unfold completedLevel, isCompletedIn, store'.
      by destruct (completeLevel_entry (Level.id l) pc store) as (p' & -> & _ & ->). }
    pose proof (boundary_mono LEVELS store store' Hgrow) as Hge.
    pose proof (boundary_le LEVELS store' _ next Hnext Hnc) as Hle.
    assert (boundary LEVELS store' ≠ boundary LEVELS store).
    { intros Heq. rewrite <- Heq in Hl.
      destruct (boundary_level_open LEVELS store' l Hl) as [Ho|Hlast]; [congruence|].
      apply lookup_lt_Some in Hnext. lia. }
    replace (boundary LEVELS store') with (S (boundary LEVELS store)) by lia. done.
Qed.

(** X2 at work on the catalog: from the empty store, completing level 1
    makes level 2 the highest unlocked level. *)
Lemma completing_level_1_unlocks_level_2 :
  computeHighestUnlocked LEVELS ∅ = Some "1"
  ∧ computeHighestUnlocked LEVELS (completeLevel "1" None ∅) = Some "2".
Proof.
  destruct (highest_unlocked_moves_with_its_level LEVELS ∅
              (Level.mk "1" "Intro: What is HTML?"
                 [task "1.1" HTML; task "1.2" HTML; task "1.3" HTML] (Some "2")))
    as (H1 & _ & H3); [reflexivity|].
  split; [exact H1|].
  apply (H3 None (Level.mk "2" "Paragraphs and Text"
                    [task "2.1" HTML; task "2.2" HTML; task "2.3" HTML] (Some "3")));
    vm_compute; reflexivity.
Defined.

(* ===================================================================== *)
(** * The App component over sequences of events *)
(* ===================================================================== *)

Lemma computeHighestUnlocked_total (LEVELS : list Level.t) (store : UserProgress) :
  is_Some (computeHighestUnlocked LEVELS store).
Proof.
  destruct LEVELS as [|first rest]; [by eexists|].
  rewrite computeHighestUnlocked_first. by destruct (find _ _).
Qed.

Lemma progressEffect_synced (LEVELS : list Level.t) (st : AppState) :
  synced LEVELS (progressEffect LEVELS st).
Proof.
  unfold synced, progressEffect. simpl.
  by destruct (computeHighestUnlocked_total LEVELS (userProgress st)) as [h ->].
Qed.

Lemma progressEffect_fields (LEVELS : list Level.t) (st : AppState) :
  userProgress (progressEffect LEVELS st) = userProgress st
  ∧ storage (progressEffect LEVELS st) = Some (save (userProgress st)).
Proof. done. Qed.

Lemma selectLevel_store (LEVELS : list Level.t) (levelId : string) (st : AppState) :
  userProgress (selectLevel LEVELS levelId st).1 = userProgress st
  ∧ highestLevelUnlocked (selectLevel LEVELS levelId st).1 = highestLevelUnlocked st
  ∧ storage (selectLevel LEVELS levelId st).1 = storage st.
Proof.
  unfold selectLevel. by repeat case_match.
Qed.

Lemma handle_synced (LEVELS : list Level.t) (e : Event) (st : AppState) :
  synced LEVELS st → synced LEVELS (handle LEVELS e st).1.
Proof.
  intros Hs. destruct e as [levelId|levelId taskId pc|levelId pc|]; simpl.
  - unfold synced. destruct (selectLevel_store LEVELS levelId st) as (-> & -> & _).
    exact Hs.
  - apply progressEffect_synced.
  - apply progressEffect_synced.
  - exact Hs.
Qed.

Lemma runEvents_synced (LEVELS : list Level.t) (events : list Event) (st : AppState) :
  synced LEVELS st → synced LEVELS (runEvents LEVELS events st).
Proof.
  revert st. induction events as [|e events IH]; intros st Hs; [done|].
  apply IH. by apply handle_synced.
Qed.

Lemma mountApp_synced (LEVELS : list Level.t) (saved : option json) (st0 : AppState) :
  mountApp LEVELS saved = Some st0 → synced LEVELS st0.
Proof.
  unfold mountApp. destruct (load saved); [|done]. intros [= <-].
  apply progressEffect_synced.
Qed.

Lemma selectLevel_opens (LEVELS : list Level.t) (levelId : string) (st : AppState) :
  openable LEVELS st levelId = true →
  selectLevel LEVELS levelId st = (opened levelId st, Silent).
Proof.
  unfold openable, selectLevel. destruct (findLevel LEVELS levelId); [|done].
  by intros ->.
Qed.

Lemma selectLevel_rejects (LEVELS : list Level.t) (levelId : string) (st : AppState) :
  is_Some (findLevel LEVELS levelId) → openable LEVELS st levelId = false →
  0 ≤ findLevelIndex LEVELS (highestLevelUnlocked st) →
  (selectLevel LEVELS levelId st).1 = st
  ∧ ∃ msg, (selectLevel LEVELS levelId st).2 = Alert msg.
Proof.
  unfold openable, selectLevel. intros [lv ->] Hno Hhi. rewrite Hno.
  apply Z.leb_gt in Hno.
  destruct (findLevelIndex_range LEVELS levelId) as [[Hi _]|[Hi _]]; [lia|].
  destruct (Z.ltb_spec (findLevelIndex LEVELS (highestLevelUnlocked st) + 1)
              (len LEVELS)); [|lia].
  destruct (at_index_in_range LEVELS (findLevelIndex LEVELS (highestLevelUnlocked st)))
    as [cur ->]; [lia|].
  destruct (at_index_in_range LEVELS
              (findLevelIndex LEVELS (highestLevelUnlocked st) + 1)) as [next ->];
    [lia|].
  split; [done|]. by eexists.
Qed.

Lemma synced_in_catalog (LEVELS : list Level.t) (st : AppState) :
  LEVELS ≠ [] → synced LEVELS st →
  0 ≤ findLevelIndex LEVELS (highestLevelUnlocked st).
Proof. intros Hne Hs. by eapply computeHighestUnlocked_in_catalog. Qed.

(** X3: the effect never throws, and in every state the application
    reaches after its first render [highestLevelUnlocked] is what the
    effect computes from the store; no request to select a level then
    ends in an exception: it opens the level, shows an alert or does
    nothing. *)
Theorem selectLevel_never_throws (LEVELS : list Level.t) (saved : option json)
    (st0 : AppState) (events : list Event) (levelId : string) :
  mountApp LEVELS saved = Some st0 →
  is_Some (computeHighestUnlocked LEVELS (userProgress (runEvents LEVELS events st0)))
  ∧ synced LEVELS (runEvents LEVELS events st0)
  ∧ (selectLevel LEVELS levelId (runEvents LEVELS events st0)).2 ≠ Thrown.
Proof.
  intros Hm. set (st := runEvents LEVELS events st0).
  assert (Hs : synced LEVELS st) by (by eapply runEvents_synced, mountApp_synced).
  split_and!; [apply computeHighestUnlocked_total|done|].
  destruct (findLevel LEVELS levelId) as [lv|] eqn:Hf.
  2:{ unfold selectLevel. by rewrite Hf. }
  destruct (openable LEVELS st levelId) eqn:Ho.
  - by rewrite selectLevel_opens.
  - assert (Hne : LEVELS ≠ []) by (intros ->; done).
    destruct (selectLevel_rejects LEVELS levelId st) as (_ & msg & ->);
      [by rewrite Hf|done|by apply synced_in_catalog|done].
Qed.

(** X3 at work: after a fresh start and two events, a request for the
    locked level 5 is answered with an alert. *)
Lemma select_locked_level_alerts :
  let st := runEvents LEVELS [SelectLevel "1"; Exit]
              (progressEffect LEVELS (mkApp level_selector None ∅ "1" None)) in
  synced LEVELS st ∧ (selectLevel LEVELS "5" st).2 ≠ Thrown.
Proof.
  intros st.
  destruct (selectLevel_never_throws LEVELS None
              (progressEffect LEVELS (mkApp level_selector None ∅ "1" None))
              [SelectLevel "1"; Exit] "5" eq_refl) as (_ & Hs & Hn).
  by split.
Defined.

Lemma load_of_save (store : UserProgress) : load (Some (save store)) = Some store.
Proof.
  unfold load, save.
  rewrite (mapM_fmap_Some _ (prod_map id json_of_LevelProgress)).
  - simpl. by rewrite list_to_map_to_list.
  - intros [k p]. unfold prod_map. cbn [fst snd].
    by rewrite read_json_of_LevelProgress.
Qed.

Lemma handle_storage (LEVELS : list Level.t) (e : Event) (st : AppState) :
  storage st = Some (save (userProgress st)) →
  storage (handle LEVELS e st).1 = Some (save (userProgress (handle LEVELS e st).1)).
Proof.
  intros Hs. destruct e as [levelId|levelId taskId pc|levelId pc|]; simpl; try done.
  by destruct (selectLevel_store LEVELS levelId st) as (-> & _ & ->).
Qed.

(** X4: in every state the application reaches after its first render,
    the saved item is the serialization of the store in memory, so that
    loading it (a reload of the page) gives back exactly that store. *)
Theorem reload_restores_progress (LEVELS : list Level.t) (saved : option json)
    (st0 : AppState) (events : list Event) :
  mountApp LEVELS saved = Some st0 →
  storage (runEvents LEVELS events st0)
    = Some (save (userProgress (runEvents LEVELS events st0)))
  ∧ load (storage (runEvents LEVELS events st0))
    = Some (userProgress (runEvents LEVELS events st0)).
Proof.
  intros Hm.
  assert (H0 : storage st0 = Some (save (userProgress st0))).
  { unfold mountApp in Hm. destruct (load saved); [|done]. by injection Hm as <-. }
  assert (Hst : storage (runEvents LEVELS events st0)
                = Some (save (userProgress (runEvents LEVELS events st0)))).
  { clear Hm. revert st0 H0. induction events as [|e events IH]; intros st0 H0; [done|].
    apply IH. by apply handle_storage. }
  split; [done|]. rewrite Hst. apply load_of_save.
Qed.

(** X4 at work: a fresh start, one task of level 1 reported, then a
    reload. *)
Lemma reload_after_first_task :
  let st := runEvents LEVELS [SelectLevel "1"; TaskComplete "1" "1.1" None]
              (progressEffect LEVELS (mkApp level_selector None ∅ "1" None)) in
  load (storage st) = Some (userProgress st).
Proof.
  intros st.
  apply (reload_restores_progress LEVELS None
           (progressEffect LEVELS (mkApp level_selector None ∅ "1" None))
           [SelectLevel "1"; TaskComplete "1" "1.1" None] eq_refl).
Defined.

(* ===================================================================== *)
(** * The level cards *)
(* ===================================================================== *)

Section Cards.
Variable LEVELS : list Level.t.
Hypothesis ids_distinct : NoDup (Level.id <$> LEVELS).

Lemma synced_boundary (st : AppState) :
  LEVELS ≠ [] → synced LEVELS st →
  findLevelIndex LEVELS (highestLevelUnlocked st)
  = Z.of_nat (boundary LEVELS (userProgress st)).
Proof.
  intros Hne Hs.
  destruct (computeHighestUnlocked_boundary LEVELS (userProgress st) Hne)
    as (l & Hl & Hc).
  unfold synced in Hs. rewrite Hc in Hs. injection Hs as <-.
  by apply findLevelIndex_position.
Qed.

Lemma findLevel_position (i : nat) (l : Level.t) :
  LEVELS !! i = Some l → findLevel LEVELS (Level.id l) = Some l.
Proof.
  intros Hl. unfold findLevel.
  apply (find_first_at _ _ i l Hl); [apply String.eqb_refl|].
  intros j y Hj Hy. apply String.eqb_neq. intros Heq.
  pose proof (findLevelIndex_position LEVELS j y ids_distinct Hy) as H1.
  pose proof (findLevelIndex_position LEVELS i l ids_distinct Hl) as H2.
  rewrite Heq in H1. lia.
Qed.

(** A progress event for an opened level keeps the completed levels a
    prefix of the catalog. *)
Lemma handle_completedPrefix (e : Event) (st : AppState) :
  synced LEVELS st → fromOpenedLevel LEVELS st e = true →
  completedPrefix LEVELS (userProgress st) →
  completedPrefix LEVELS (userProgress (handle LEVELS e st).1).
Proof.
  intros Hs Hopen Hpre.
  assert (Hstep : ∀ m, openable LEVELS st (target m) = true →
            completedPrefix LEVELS (mutate LEVELS m (userProgress st))).
  { intros m Ho i j li lj Hji Hi Hj Hc.
    assert (Hne : LEVELS ≠ []) by (intros Heq; by rewrite Heq in Hi).
    destruct (completedLevel (userProgress st) li) eqn:Hold.
    { apply (completedLevel_run LEVELS [m]). by eapply (Hpre i j). }
    assert (Htarget : target m = Level.id li).
    { destruct (decide (target m = Level.id li)) as [|Hneq]; [done|].
      unfold completedLevel, isCompletedIn in Hc, Hold.
      rewrite mutate_other in Hc by done. congruence. }
    unfold openable in Ho. rewrite Htarget, (findLevel_position i li Hi) in Ho.
    apply Z.leb_le in Ho.
    rewrite (findLevelIndex_position LEVELS i li ids_distinct Hi) in Ho.
    rewrite (synced_boundary st Hne Hs) in Ho.
    pose proof (boundary_le LEVELS (userProgress st) i li Hi Hold).
    assert (i = boundary LEVELS (userProgress st)) by lia. subst i.
    destruct (decide (j = boundary LEVELS (userProgress st))) as [->|Hlt].
    - by simplify_eq.
    - apply (completedLevel_run LEVELS [m]).
      apply (before_boundary LEVELS _ j); [lia|done]. }
  destruct e as [levelId|levelId taskId pc|levelId pc|]; simpl in *.
  - by destruct (selectLevel_store LEVELS levelId st) as (-> & _).
  - apply (Hstep (MarkTask levelId taskId pc) Hopen).
  - apply (Hstep (MarkLevel levelId pc) Hopen).
  - done.
Qed.

Lemma runEvents_completedPrefix (events : list Event) (st : AppState) :
  synced LEVELS st → sessionEvents LEVELS st events = true →
  completedPrefix LEVELS (userProgress st) →
  completedPrefix LEVELS (userProgress (runEvents LEVELS events st)).
Proof.
  revert st. induction events as [|e events IH]; intros st Hs Hev Hpre; [done|].
  simpl in Hev. apply andb_true_iff in Hev as [He Hev].
  apply IH; [by apply handle_synced|done|by apply handle_completedPrefix].
Qed.

(** When the completed levels are a prefix, a card is disabled exactly
    when [selectLevel] would not open its level. *)
Lemma card_matches_guard (st : AppState) (i : nat) (l : Level.t) :
  synced LEVELS st → completedPrefix LEVELS (userProgress st) →
  LEVELS !! i = Some l →
  cardDisabled (cardStatus LEVELS st l) = negb (openable LEVELS st (Level.id l)).
Proof.
  intros Hs Hpre Hl.
  assert (Hne : LEVELS ≠ []) by (intros Heq; by rewrite Heq in Hl).
  unfold cardStatus, getLevelStatus, openable.
  rewrite (findLevel_position i l Hl).
  rewrite (findLevelIndex_position LEVELS i l ids_distinct Hl).
  rewrite (synced_boundary st Hne Hs).
  fold (completedLevel (userProgress st) l).
  destruct (completedLevel (userProgress st) l) eqn:Hc.
  - simpl. symmetry. apply negb_false_iff, Z.leb_le.
    destruct (decide (i ≤ boundary LEVELS (userProgress st))%nat); [lia|].
    pose proof (boundary_lt LEVELS (userProgress st) Hne) as Hlt.
    destruct (lookup_lt_is_Some_2 LEVELS _ Hlt) as [lb Hlb].
    destruct (boundary_level_open LEVELS _ lb Hlb) as [Hopen|Hlast].
    + rewrite (Hpre i (boundary LEVELS (userProgress st)) l lb) in Hopen;
        [done|lia|done..].
    + apply lookup_lt_Some in Hl. lia.
  - by destruct (_ <=? _).
Qed.

End Cards.

(** X5: for a catalog with distinct level ids, starting from a store in
    which the completed levels are a prefix of the catalog (as the empty
    store is), and with progress events that come from opened levels, the
    completed levels stay a prefix, and then the level cards agree with
    the selection guard: an enabled card (completed or unlocked) opens
    its level, a disabled card (locked) belongs to a level that
    [selectLevel] rejects with an alert and without any change. *)
Theorem enabled_cards_open_their_level (LEVELS : list Level.t)
    (saved : option json) (st0 : AppState) (events : list Event) :
  NoDup (Level.id <$> LEVELS) →
  mountApp LEVELS saved = Some st0 →
  completedPrefix LEVELS (userProgress st0) →
  sessionEvents LEVELS st0 events = true →
  completedPrefix LEVELS (userProgress (runEvents LEVELS events st0))
  ∧ ∀ l, l ∈ LEVELS →
      (cardDisabled (cardStatus LEVELS (runEvents LEVELS events st0) l) = false →
       selectLevel LEVELS (Level.id l) (runEvents LEVELS events st0)
       = (opened (Level.id l) (runEvents LEVELS events st0), Silent))
      ∧ (cardDisabled (cardStatus LEVELS (runEvents LEVELS events st0) l) = true →
         (selectLevel LEVELS (Level.id l) (runEvents LEVELS events st0)).1
         = runEvents LEVELS events st0
         ∧ ∃ msg, (selectLevel LEVELS (Level.id l) (runEvents LEVELS events st0)).2
                  = Alert msg).
Proof.
  intros Hnd Hm Hpre0 Hev. set (st := runEvents LEVELS events st0).
  assert (Hs0 : synced LEVELS st0) by (by eapply mountApp_synced).
  assert (Hs : synced LEVELS st) by (by apply runEvents_synced).
  assert (Hpre : completedPrefix LEVELS (userProgress st)).
  { by apply runEvents_completedPrefix. }
  split; [done|]. intros l Hin.
  apply list_elem_of_lookup in Hin as [i Hl].
  assert (Hne : LEVELS ≠ []) by (intros Heq; by rewrite Heq in Hl).
  rewrite (card_matches_guard LEVELS Hnd st i l Hs Hpre Hl). split.
  - intros Ho. apply negb_false_iff in Ho. by apply selectLevel_opens.
  - intros Ho. apply negb_true_iff in Ho. apply selectLevel_rejects; [|done|].
    + rewrite (findLevel_position LEVELS Hnd i l Hl). by eexists.
    + by apply synced_in_catalog.
Qed.

(** X5 at work: a fresh start, level 1 opened and completed; the
    completed levels are a prefix and the card of level 2 opens it. *)
Lemma cards_after_level_1 :
  let st := runEvents LEVELS [SelectLevel "1"; CompleteLevel "1" None]
              (progressEffect LEVELS (mkApp level_selector None ∅ "1" None)) in
  completedPrefix LEVELS (userProgress st)
  ∧ selectLevel LEVELS "2" st = (opened "2" st, Silent).
Proof.
  intros st.
  assert (Hm : mountApp LEVELS None
               = Some (progressEffect LEVELS (mkApp level_selector None ∅ "1" None))).
  { vm_compute. reflexivity. }
  assert (Hev : sessionEvents LEVELS
            (progressEffect LEVELS (mkApp level_selector None ∅ "1" None))
            [SelectLevel "1"; CompleteLevel "1" None] = true).
  { vm_compute. reflexivity. }
  assert (Hpre0 : completedPrefix LEVELS
            (userProgress (progressEffect LEVELS (mkApp level_selector None ∅ "1" None)))).
  { intros i j li lj _ _ _ Hc. unfold completedLevel, isCompletedIn in Hc.
    cbn [userProgress progressEffect] in Hc. by rewrite lookup_empty in Hc. }
  destruct (enabled_cards_open_their_level LEVELS None
              (progressEffect LEVELS (mkApp level_selector None ∅ "1" None))
              [SelectLevel "1"; CompleteLevel "1" None]
              NoDup_level_ids Hm Hpre0 Hev) as [Hpre Hcards].
  split; [exact Hpre|].
  apply (Hcards (Level.mk "2" "Paragraphs and Text"
                   [task "2.1" HTML; task "2.2" HTML; task "2.3" HTML] (Some "3"))).
  - apply list_elem_of_lookup. exists 1%nat. reflexivity.
  - vm_compute. reflexivity.
Defined.

(** X6: the card of a completed level is enabled wherever the level
    lies. When the store holds a completed level beyond the boundary (a
    saved store may), its enabled card leads to a rejection: [selectLevel]
    leaves the state as it is and shows an alert. *)
Theorem review_card_beyond_boundary_is_rejected (LEVELS : list Level.t)
    (st : AppState) (i : nat) (l : Level.t) :
  NoDup (Level.id <$> LEVELS) → synced LEVELS st →
  LEVELS !! i = Some l → completedLevel (userProgress st) l = true →
  (boundary LEVELS (userProgress st) < i)%nat →
  cardStatus LEVELS st l = Completed
  ∧ cardDisabled (cardStatus LEVELS st l) = false
  ∧ (selectLevel LEVELS (Level.id l) st).1 = st
  ∧ ∃ msg, (selectLevel LEVELS (Level.id l) st).2 = Alert msg.
Proof.
  intros Hnd Hs Hl Hc Hb.
  assert (Hne : LEVELS ≠ []) by (intros Heq; by rewrite Heq in Hl).
  assert (Hcard : cardStatus LEVELS st l = Completed).
  { unfold cardStatus, getLevelStatus. unfold completedLevel in Hc. by rewrite Hc. }
  rewrite Hcard. split_and!; [done..| |];
    (edestruct (selectLevel_rejects LEVELS (Level.id l) st) as [H1 H2];
     [rewrite (findLevel_position LEVELS Hnd i l Hl); by eexists
     | unfold openable; rewrite (findLevel_position LEVELS Hnd i l Hl),
         (findLevelIndex_position LEVELS i l Hnd Hl),
         (synced_boundary LEVELS Hnd st Hne Hs); apply Z.leb_gt; lia
     | by apply synced_in_catalog
     | done]).
Qed.

(** X6 at work on the catalog [A -> B -> C] with only C completed. *)
Lemma review_card_of_C_is_rejected :
  let st := progressEffect catalogABC
              (mkApp level_selector None {[ "C" := completedWith ["c.1"] ]} "1" None) in
  cardStatus catalogABC st (Level.mk "C" "Level C" [task "c.1" JavaScript] None)
    = Completed
  ∧ (selectLevel catalogABC "C" st).1 = st.
Proof.
  intros st.
  destruct (review_card_beyond_boundary_is_rejected catalogABC st 2
              (Level.mk "C" "Level C" [task "c.1" JavaScript] None))
    as (H1 & _ & H3 & _).
  - apply (bool_decide_unpack _). vm_compute. exact I.
  - apply progressEffect_synced.
  - reflexivity.
  - vm_compute. reflexivity.
  - vm_compute. lia.
  - by split.
Defined.

(** X7: a store mutation touches only the entry of the level it names:
    every other entry is what it was. In the named entry the project code
    is replaced when an update comes with the call and kept otherwise
    (the empty project code when [completeLevel] creates the entry). *)
Theorem mutation_touches_one_level (LEVELS : list Level.t) (m : Mutation)
    (store : UserProgress) :
  (∀ other, other ≠ target m → mutate LEVELS m store !! other = store !! other)
  ∧ is_Some (mutate LEVELS m store !! target m)
  ∧ currentProjectCode (progressOf (mutate LEVELS m store) (target m))
    = match m with
      | MarkTask _ _ (Some pc) | MarkLevel _ (Some pc) => pc
      | MarkTask l _ None | MarkLevel l None => currentProjectCode (progressOf store l)
      end.
Proof.
  split_and!.
  - intros other Hne. by apply mutate_other.
  - destruct m as [l t pc|l pc]; simpl.
    + by destruct (updateTaskProgress_entry LEVELS l t pc store) as (p' & -> & _).
    + by destruct (completeLevel_entry l pc store) as (p' & -> & _).
  - destruct m as [l t pc|l pc]; simpl; unfold progressOf.
    + unfold updateTaskProgress. rewrite lookup_insert_eq. simpl.
      destruct (findLevel LEVELS l) as [ld|]; [destruct (_ =? _)|];
        by destruct pc.
    + unfold completeLevel. rewrite lookup_insert_eq. simpl.
      by destruct pc, (store !! l).
Qed.

(* ===================================================================== *)
(** * The level session *)
(* ===================================================================== *)

Section Session.
Variable content : Task.t → TaskCode.
Variable level : Level.t.
Variable userProgress : LevelProgress.

Lemma handleCodeChange_fields (newCode : string) (st : LevelViewState) :
  currentTaskIndex (handleCodeChange newCode st) = currentTaskIndex st
  ∧ projectCode (handleCodeChange newCode st) = projectCode st
  ∧ isSubmitting (handleCodeChange newCode st) = isSubmitting st
  ∧ feedbackSuccess (feedback (handleCodeChange newCode st))
    = feedbackSuccess (feedback st).
Proof.
  unfold handleCodeChange. simpl.
  destruct (feedbackSuccess (feedback st)) eqn:Hf; simpl; by rewrite ?Hf.
Qed.

(** While the validator of the current task rejects every code, a run of
    edits and submissions changes neither the task nor the project code
    and sends nothing. *)
Lemma rejected_session (actions : list Action) (st : LevelViewState) (t : Task.t) :
  currentTask level st = Some t → isSubmitting st = false →
  feedbackSuccess (feedback st) = false →
  (∀ code, success (validate (content t) code (projectCode st)) = false) →
  ∃ st', session content level userProgress actions st = (st', [], [])
    ∧ currentTaskIndex st' = currentTaskIndex st
    ∧ projectCode st' = projectCode st
    ∧ submitDisabled st' = false.
Proof.
  revert st. induction actions as [|[newCode|] actions IH]; intros st Ht Hs Hf Hrej.
  - exists st. unfold submitDisabled. by rewrite Hs, Hf.
  - destruct (handleCodeChange_fields newCode st) as (Hi & Hp & Hsub & Hfb).
    destruct (IH (handleCodeChange newCode st)) as (st' & Hrun & Hi' & Hp' & Hd).
    + unfold currentTask in *. by rewrite Hi.
    + by rewrite Hsub.
    + by rewrite Hfb.
    + by rewrite Hp.
    + exists st'. cbn [session]. rewrite Hrun. split_and!; [done|congruence..|done].
  - set (st1 := {| currentTaskIndex := currentTaskIndex st; userCode := userCode st;
                   feedback := Some (validate (content t) (userCode st) (projectCode st));
                   projectCode := projectCode st; isSubmitting := false |}).
    assert (Hsub : handleSubmitCode content level userProgress st = (st1, None, None)).
    { unfold handleSubmitCode. rewrite Ht, Hs. cbv zeta.
      by rewrite (Hrej (userCode st)). }
    destruct (IH st1) as (st' & Hrun & Hi' & Hp' & Hd); try done.
    { simpl. apply Hrej. }
    exists st'. cbn [session]. by rewrite Hsub, Hrun.
Qed.

(** After a successful submission nothing more is sent while its timer
    has not fired. *)
Lemma submitting_session (actions : list Action) (st : LevelViewState) :
  isSubmitting st = true →
  ∃ st', session content level userProgress actions st = (st', [], [])
    ∧ isSubmitting st' = true.
Proof.
  revert st. induction actions as [|[newCode|] actions IH]; intros st Hs.
  - by exists st.
  - destruct (handleCodeChange_fields newCode st) as (_ & _ & Hsub & _).
    destruct (IH (handleCodeChange newCode st)) as (st' & Hrun & Hs');
      [by rewrite Hsub|].
    exists st'. by cbn [session].
  - assert (Hsub : handleSubmitCode content level userProgress st = (st, None, None)).
    { unfold handleSubmitCode. rewrite Hs. by destruct (currentTask level st). }
    destruct (IH st Hs) as (st' & Hrun & Hs'). exists st'.
    cbn [session]. by rewrite Hsub, Hrun.
Qed.

End Session.

(** X8: a failed submission leaves the session on the same task with the
    project code untouched, shows the validator's result, sends nothing
    to [App] and leaves the submit button enabled; and as long as the
    validator of the current task rejects every code, no run of edits and
    submissions sends anything or moves the session. *)
Theorem rejected_submissions_change_nothing (content : Task.t → TaskCode)
    (level : Level.t) (userProgress : LevelProgress) (st : LevelViewState)
    (t : Task.t) :
  currentTask level st = Some t → isSubmitting st = false →
  feedbackSuccess (feedback st) = false →
  (success (validate (content t) (userCode st) (projectCode st)) = false →
   handleSubmitCode content level userProgress st
   = (mkView (currentTaskIndex st) (userCode st)
        (Some (validate (content t) (userCode st) (projectCode st)))
        (projectCode st) false, None, None))
  ∧ ((∀ code, success (validate (content t) code (projectCode st)) = false) →
     ∀ actions, ∃ st',
       session content level userProgress actions st = (st', [], [])
       ∧ currentTaskIndex st' = currentTaskIndex st
       ∧ projectCode st' = projectCode st
       ∧ submitDisabled st' = false).
Proof.
  intros Ht Hs Hf. split.
  - intros Hfail. unfold handleSubmitCode. rewrite Ht, Hs. cbv zeta.
    by rewrite Hfail.
  - intros Hrej actions. by eapply rejected_session.
Qed.

(** X8 at work: a fresh session of level 9 shows task 9.1, and a
    submission is rejected because the project has no markup. *)
Lemma fresh_level_9_submission_is_rejected :
  let st := mountLevelView (@level_9_content noEngine) level_9 defaultProgress in
  currentTask level_9 st = Some (task "9.1" CSS)
  ∧ handleSubmitCode (@level_9_content noEngine) level_9 defaultProgress st
    = (mkView 0 (userCode st)
         (Some (failure "Add class='highlight' to a <p> tag in your HTML."))
         emptyProjectCode false, None, None).
Proof.
  intros st. split; [reflexivity|].
  exact (proj1 (rejected_submissions_change_nothing (@level_9_content noEngine) level_9
                  defaultProgress st (task "9.1" CSS) eq_refl eq_refl eq_refl)
               eq_refl).
Defined.

(** X9: a successful submission reports the current task once, with the
    project code the validator returned or else the session's, and sets
    one timer; until the timer fires the session is submitting, and
    whatever the learner edits or submits meanwhile sends nothing more.
    The timer ends the submitting state. *)
Theorem successful_submission_reports_once (content : Task.t → TaskCode)
    (level : Level.t) (userProgress : LevelProgress) (st : LevelViewState)
    (t : Task.t) (actions : list Action) :
  currentTask level st = Some t → isSubmitting st = false →
  success (validate (content t) (userCode st) (projectCode st)) = true →
  let result := validate (content t) (userCode st) (projectCode st) in
  let pc := default (projectCode st) (updatedProjectCode result) in
  ∃ st' timer,
    session content level userProgress (Submit :: actions) st
    = (st', [TaskComplete (Level.id level) (Task.id t) (Some pc)], [timer])
    ∧ isSubmitting st' = true
    ∧ (timer = NextTaskAfterDelay ∨ timer = CompleteLevelAfterDelay (Level.id level) pc)
    ∧ isSubmitting (fireTimer timer st').1 = false.
Proof.
  intros Ht Hs Hok result pc.
  set (st1 := {| currentTaskIndex := currentTaskIndex st; userCode := userCode st;
                 feedback := Some result; projectCode := pc; isSubmitting := true |}).
  set (timer := if (len (Level.tasks level) - 1 <=? currentTaskIndex st)
                   || (Z.of_nat (size (completedTasks userProgress)) + 1
                       =? len (Level.tasks level))
                then CompleteLevelAfterDelay (Level.id level) pc
                else NextTaskAfterDelay).
  assert (Hsub : handleSubmitCode content level userProgress st
                 = (st1, Some (TaskComplete (Level.id level) (Task.id t) (Some pc)),
                    Some timer)).
  { unfold handleSubmitCode. rewrite Ht, Hs. cbv zeta. by rewrite Hok. }
  destruct (submitting_session content level userProgress actions st1 eq_refl)
    as (st' & Hrun & Hs').
  exists st', timer. cbn [session]. rewrite Hsub, Hrun. split; [done|].
  split; [done|]. unfold timer. split; destruct (_ || _); auto.
Qed.

(** X9 at work: in level 9, with the class in the markup of the project
    and the rule in the editor, task 9.1 is reported once. *)
Lemma task_9_1_reported_once :
  let pc := {| html := Some "<p class='highlight'>Second para.</p>";
               css := None; js := None |} in
  let p := {| completedTasks := ∅; currentProjectCode := pc; isCompleted := false |} in
  let st := handleCodeChange ".highlight { background-color: yellow; }"
              (mountLevelView (@level_9_content noEngine) level_9 p) in
  ∃ st' timer,
    session (@level_9_content noEngine) level_9 p [Submit; Edit ".highlight {}"; Submit] st
    = (st', [TaskComplete "9" "9.1" (Some pc)], [timer])
    ∧ isSubmitting st' = true.
Proof.
  intros pc p st.
  destruct (successful_submission_reports_once (@level_9_content noEngine) level_9 p st
              (task "9.1" CSS) [Edit ".highlight {}"; Submit] eq_refl eq_refl)
    as (st' & timer & Hrun & Hs & _).
  - vm_compute. reflexivity.
  - exists st', timer. split; [exact Hrun|exact Hs].
Defined.

Section SessionAndStore.
Variable content : Task.t → TaskCode.
Variable level : Level.t.
Variable p : LevelProgress.

Lemma loadStarterCode_fields (st : LevelViewState) :
  currentTaskIndex (loadStarterCode content level st) = currentTaskIndex st
  ∧ projectCode (loadStarterCode content level st) = projectCode st
  ∧ isSubmitting (loadStarterCode content level st) = isSubmitting st.
Proof. unfold loadStarterCode. by destruct (currentTask level st). Qed.

Lemma mountLevelView_fields :
  currentTaskIndex (mountLevelView content level p)
  = (if 0 <=? firstUncompletedIndex level p then firstUncompletedIndex level p
     else len (Level.tasks level))
  ∧ projectCode (mountLevelView content level p) = currentProjectCode p
  ∧ isSubmitting (mountLevelView content level p) = false.
Proof.
  unfold mountLevelView.
  destruct (loadStarterCode_fields
    (syncWithProgress level p
       (loadStarterCode content level
          {| currentTaskIndex := 0; userCode := EmptyString; feedback := None;
             projectCode := currentProjectCode p; isSubmitting := false |})))
    as (-> & -> & ->).
  split_and!; [done..|]. simpl.
  by destruct (loadStarterCode_fields
    {| currentTaskIndex := 0; userCode := EmptyString; feedback := None;
       projectCode := currentProjectCode p; isSubmitting := false |}) as (_ & _ & ->).
Qed.

(** A session in step with the store shows the first task that is not
    completed. *)
Lemma current_task_is_first_uncompleted (st : LevelViewState) (t : Task.t) :
  currentTaskIndex st
  = (if 0 <=? firstUncompletedIndex level p then firstUncompletedIndex level p
     else len (Level.tasks level)) →
  currentTask level st = Some t →
  ∃ k, currentTaskIndex st = Z.of_nat k ∧ Level.tasks level !! k = Some t
     ∧ (Task.id t ∉ completedTasks p)
     ∧ ∀ j y, (j < k)%nat → Level.tasks level !! j = Some y →
         Task.id y ∈ completedTasks p.
Proof.
  intros Hidx Ht. unfold currentTask in Ht. rewrite Hidx in Ht.
  unfold firstUncompletedIndex, findIndex in *.
  destruct (Z.leb_spec 0 (findIndex_from
    (λ t, negb (bool_decide (Task.id t ∈ completedTasks p))) (Level.tasks level) 0))
    as [Hge|Hlt].
  - destruct (findIndex_from_found
                (λ t, negb (bool_decide (Task.id t ∈ completedTasks p)))
                (Level.tasks level) 0) as (k & x & Heq & Hx & Hpx & Hb); [lia..|].
    rewrite Heq in Hidx, Ht. unfold at_index in Ht.
    destruct (Z.ltb_spec (0 + Z.of_nat k) 0); [lia|].
    replace (Z.to_nat (0 + Z.of_nat k)) with k in Ht by lia.
    assert (x = t) by congruence. subst x.
    exists k. split_and!; [lia|done| |].
    + apply negb_true_iff in Hpx. by apply bool_decide_eq_false in Hpx.
    + intros j y Hj Hy. specialize (Hb j y Hj Hy).
      apply negb_false_iff in Hb. by apply bool_decide_eq_true in Hb.
  - unfold at_index, len in Ht. destruct (_ <? _); [done|].
    rewrite Nat2Z.id in Ht. by rewrite lookup_ge_None_2 in Ht.
Qed.

End SessionAndStore.

Lemma handleSubmitCode_accepted (content : Task.t → TaskCode) (level : Level.t)
    (p : LevelProgress) (s : LevelViewState) (t : Task.t) :
  currentTask level s = Some t → isSubmitting s = false →
  success (validate (content t) (userCode s) (projectCode s)) = true →
  (handleSubmitCode content level p s).1.1
  = mkView (currentTaskIndex s) (userCode s)
      (Some (validate (content t) (userCode s) (projectCode s)))
      (default (projectCode s)
         (updatedProjectCode (validate (content t) (userCode s) (projectCode s))))
      true.
Proof.
  intros Ht Hs Hok. unfold handleSubmitCode. rewrite Ht, Hs. cbv zeta.
  by rewrite Hok.
Qed.

Lemma afterTaskComplete_fields (content : Task.t → TaskCode) (level : Level.t)
    (p' : LevelProgress) (s : LevelViewState) :
  isSubmitting (afterTaskComplete content level p' s) = isSubmitting s
  ∧ currentTaskIndex (afterTaskComplete content level p' s)
    = (if 0 <=? firstUncompletedIndex level p' then firstUncompletedIndex level p'
       else len (Level.tasks level)).
Proof.
  unfold afterTaskComplete. cbv zeta.
  set (s1 := if match feedback s with
                | Some result => bool_decide (is_Some (updatedProjectCode result))
                | None => false
                end
             then loadStarterCode content level s else s).
  assert (Hs1 : isSubmitting s1 = isSubmitting s).
  { unfold s1. destruct (match feedback s with Some _ => _ | None => _ end); [|done].
    by destruct (loadStarterCode_fields content level s) as (_ & _ & ->). }
  destruct (currentTaskIndex (syncWithProgress level p' s1) =? currentTaskIndex s).
  - by split.
  - destruct (loadStarterCode_fields content level (syncWithProgress level p' s1))
      as (-> & _ & ->). by split.
Qed.

(** After a task is reported from a session in step with the store, the
    first task that is not completed is another one. *)
Lemma reported_task_moves_index (LEVELS : list Level.t) (level : Level.t)
    (store : UserProgress) (s : LevelViewState) (t : Task.t)
    (pcUpdate : option ProjectCode) :
  let p := progressOf store (Level.id level) in
  let p' := progressOf (updateTaskProgress LEVELS (Level.id level) (Task.id t)
                          pcUpdate store) (Level.id level) in
  currentTaskIndex s
  = (if 0 <=? firstUncompletedIndex level p then firstUncompletedIndex level p
     else len (Level.tasks level)) →
  currentTask level s = Some t →
  (if 0 <=? firstUncompletedIndex level p' then firstUncompletedIndex level p'
   else len (Level.tasks level)) ≠ currentTaskIndex s.
Proof.
  intros p p' Hidx Ht.
  destruct (current_task_is_first_uncompleted level p s t Hidx Ht)
    as (k & Hk & Htk & _ & _).
  assert (Hdone : Task.id t ∈ completedTasks p').
  { destruct (updateTaskProgress_entry LEVELS (Level.id level) (Task.id t) pcUpdate store)
      as (e & He & Hset & _).
    unfold p'. unfold progressOf at 1. rewrite He. simpl. rewrite Hset. set_solver. }
  rewrite Hk. unfold firstUncompletedIndex, findIndex.
  destruct (decide (findIndex_from
    (λ x, negb (bool_decide (Task.id x ∈ completedTasks p'))) (Level.tasks level) 0 = -1))
    as [Hnone|Hsome].
  - rewrite Hnone. cbn. apply lookup_lt_Some in Htk. unfold len. lia.
  - destruct (findIndex_from_found _ _ 0 Hsome) as (k' & y & Heq & Hy & Hpy & _); [lia|].
    rewrite Heq. destruct (Z.leb_spec 0 (0 + Z.of_nat k')); [|lia].
    intros Hsame. assert (k' = k) by lia. subst k'.
    assert (y = t) by congruence. subst y.
    apply negb_true_iff, bool_decide_eq_false in Hpy. done.
Qed.



Lemma tasks_within_after (level : Level.t) (p : LevelProgress) (k : nat) (t : Task.t) :
  Level.tasks level !! k = Some t →
  (∀ j y, (j < k)%nat → Level.tasks level !! j = Some y →
     Task.id y ∈ completedTasks p) →
  len (Level.tasks level) - 1 ≤ Z.of_nat k →
  taskSet level ⊆ completedTasks p ∪ {[ Task.id t ]}.
Proof.
  intros Ht Hbefore Hlast x Hx. unfold taskSet, Level.taskIds in Hx.
  apply elem_of_list_to_set, list_elem_of_fmap in Hx as (y & -> & Hy).
  apply list_elem_of_lookup in Hy as [j Hj].
  pose proof (lookup_lt_Some _ _ _ Hj) as Hlt. unfold len in Hlast.
  destruct (decide (j = k)) as [->|Hne].
  - assert (y = t) by congruence. set_solver.
  - apply elem_of_union_l, (Hbefore j); [lia|done].
Qed.

(** X10: a session in step with a store whose set for the level lies
    within the level's tasks follows the discipline of the progress
    store. A successful submission reports a task of the level that was
    not yet completed, and it sets the timer that completes the level
    exactly when the set then holds every task of the level; the
    mutations it leads to are disciplined. *)
Theorem submission_follows_discipline (LEVELS : list Level.t)
    (content : Task.t → TaskCode) (level : Level.t) (store : UserProgress)
    (st : LevelViewState) (t : Task.t) :
  let p := progressOf store (Level.id level) in
  findLevel LEVELS (Level.id level) = Some level →
  NoDup (Level.taskIds level) →
  completedTasks p ⊆ taskSet level →
  currentTaskIndex st
  = (if 0 <=? firstUncompletedIndex level p then firstUncompletedIndex level p
     else len (Level.tasks level)) →
  isSubmitting st = false →
  currentTask level st = Some t →
  success (validate (content t) (userCode st) (projectCode st)) = true →
  ∃ st' pc timer,
    handleSubmitCode content level p st
    = (st', Some (TaskComplete (Level.id level) (Task.id t) (Some pc)), Some timer)
    ∧ Task.id t ∈ Level.taskIds level
    ∧ (Task.id t ∉ completedTasks p)
    ∧ (timer = CompleteLevelAfterDelay (Level.id level) pc
       ↔ taskSet level ⊆ completedTasks p ∪ {[ Task.id t ]})
    ∧ disciplined LEVELS store
        (mutationsOf (Some (TaskComplete (Level.id level) (Task.id t) (Some pc)))
                     (Some timer)) = true.
Proof.
  intros p Hfound Hnd Hsub Hidx Hs Ht Hok.
  destruct (current_task_is_first_uncompleted level p st t Hidx Ht)
    as (k & Hk & Htk & Hnew & Hbefore).
  assert (Hin : Task.id t ∈ Level.taskIds level).
  { unfold Level.taskIds. apply list_elem_of_fmap. exists t. split; [done|].
    by eapply list_elem_of_lookup_2. }
  set (pc := default (projectCode st)
               (updatedProjectCode (validate (content t) (userCode st) (projectCode st)))).
  set (cond := (len (Level.tasks level) - 1 <=? currentTaskIndex st)
               || (Z.of_nat (size (completedTasks p)) + 1 =? len (Level.tasks level))).
  assert (Hcond : cond = true ↔ taskSet level ⊆ completedTasks p ∪ {[ Task.id t ]}).
  { unfold cond. rewrite orb_true_iff, Z.leb_le, Z.eqb_eq. split.
    - intros [Hlast|Hsize].
      + apply (tasks_within_after level p k t Htk Hbefore). lia.
      + assert (Hle : completedTasks p ∪ {[Task.id t]} ⊆ taskSet level).
        { unfold taskSet in *. set_solver. }
        rewrite <- (set_subseteq_size_eq _ _ Hle); [done|].
        rewrite (size_taskSet level Hnd), size_union, size_singleton by set_solver.
        unfold len in Hsize. lia.
    - intros Hall. right.
      assert (Heq : completedTasks p ∪ {[Task.id t]} = taskSet level).
      { apply set_eq. intros x. split; [|by apply Hall].
        unfold taskSet in *. set_solver. }
      pose proof (size_taskSet level Hnd) as Hsz. rewrite <- Heq in Hsz.
      rewrite size_union, size_singleton in Hsz by set_solver.
      unfold len. lia. }
  eexists _, pc, (if cond then CompleteLevelAfterDelay (Level.id level) pc
                   else NextTaskAfterDelay).
  split_and!.
  - unfold handleSubmitCode. rewrite Ht, Hs. cbv zeta. rewrite Hok. reflexivity.
  - done.
  - done.
  - rewrite <- Hcond. by destruct cond.
  - unfold mutationsOf.
    assert (Hfirst : disciplined_step LEVELS store
                       (MarkTask (Level.id level) (Task.id t) (Some pc)) = true).
    { simpl. rewrite Hfound. by apply bool_decide_eq_true. }
    destruct cond eqn:Hc; simpl app; cbn [disciplined]; rewrite Hfirst;
      [|done].
    rewrite andb_true_r. simpl. rewrite Hfound. apply bool_decide_eq_true.
    apply Forall_forall. intros x Hx.
    destruct (updateTaskProgress_entry LEVELS (Level.id level) (Task.id t) (Some pc) store)
      as (p' & Hp' & Hset & _).
    unfold progressOf at 1. rewrite Hp'. simpl. rewrite Hset.
    apply Hcond; [done|]. unfold taskSet. by apply elem_of_list_to_set.
Qed.

(** X10 at work: the first task of level 9, with the class in the markup
    of the project and the rule in the editor. *)
Lemma task_9_1_follows_discipline :
  let pc := {| html := Some "<p class='highlight'>Second para.</p>";
               css := None; js := None |} in
  let store : UserProgress :=
    {[ "9" := {| completedTasks := ∅; currentProjectCode := pc; isCompleted := false |} ]} in
  let st := handleCodeChange ".highlight { background-color: yellow; }"
              (mountLevelView (@level_9_content noEngine) level_9 (progressOf store "9")) in
  ∃ st' pc' timer,
    handleSubmitCode (@level_9_content noEngine) level_9 (progressOf store "9") st
    = (st', Some (TaskComplete "9" "9.1" (Some pc')), Some timer)
    ∧ disciplined LEVELS store
        (mutationsOf (Some (TaskComplete "9" "9.1" (Some pc'))) (Some timer)) = true.
Proof.
  intros pc store st.
  destruct (submission_follows_discipline LEVELS (@level_9_content noEngine) level_9 store st
              (task "9.1" CSS)) as (st' & pc' & timer & Hrun & _ & _ & _ & Hd).
  - reflexivity.
  - apply (bool_decide_unpack _). vm_compute. exact I.
  - apply empty_subseteq.
  - reflexivity.
  - reflexivity.
  - reflexivity.
  - vm_compute. reflexivity.
  - exists st', pc', timer. split; [exact Hrun|exact Hd].
Defined.

(** X11: the screen of a session that has just been mounted. For an
    entry kept by the discipline (the set within the level's tasks, the
    flag set exactly when the set has them all) a completed level shows
    the completion screen and any other level shows its first task that
    is not completed: the task at the position of the session's index,
    not in the set, every task before it being in the set. An entry with every task in the set and the flag
    not set shows the loading placeholder, from which no action leads
    on. *)
Theorem mounted_session_screen (content : Task.t → TaskCode) (level : Level.t)
    (p : LevelProgress) :
  let st := mountLevelView content level p in
  ((isCompleted p = true ↔ taskSet level ⊆ completedTasks p) →
   (isCompleted p = true → screen level p st = LevelCompleteScreen)
   ∧ (isCompleted p = false →
      ∃ t k, screen level p st = TaskScreen t
         ∧ Level.tasks level !! k = Some t
         ∧ currentTaskIndex st = Z.of_nat k
         ∧ (Task.id t ∉ completedTasks p)
         ∧ ∀ j y, (j < k)%nat → Level.tasks level !! j = Some y →
             Task.id y ∈ completedTasks p))
  ∧ (taskSet level ⊆ completedTasks p → isCompleted p = false →
     screen level p st = LoadingScreen
     ∧ ∀ actions, ∃ st', session content level p actions st = (st', [], [])).
Proof.
  intros st.
  destruct (mountLevelView_fields content level p) as (Hidx & Hpc & Hsub).
  fold st in Hidx, Hpc, Hsub.
  assert (Hall : taskSet level ⊆ completedTasks p →
            currentTaskIndex st = len (Level.tasks level)
            ∧ currentTask level st = None).
  { intros HT.
    assert (Hfi : firstUncompletedIndex level p = -1).
    { unfold firstUncompletedIndex, findIndex.
      destruct (decide (findIndex_from
        (λ t, negb (bool_decide (Task.id t ∈ completedTasks p)))
        (Level.tasks level) 0 = -1)) as [|Hne]; [done|].
      destruct (findIndex_from_found _ _ 0 Hne) as (k & x & _ & Hx & Hpx & _); [lia|].
      apply negb_true_iff, bool_decide_eq_false in Hpx. exfalso. apply Hpx, HT.
      unfold taskSet, Level.taskIds. apply elem_of_list_to_set, list_elem_of_fmap.
      exists x. split; [done|]. by eapply list_elem_of_lookup_2. }
    rewrite Hfi in Hidx. simpl in Hidx. split; [done|].
    unfold currentTask, at_index, len. rewrite Hidx. unfold len.
    destruct (_ <? _); [done|]. rewrite Nat2Z.id. by apply lookup_ge_None_2. }
  split.
  - intros Hiff. split.
    + intros Hc. destruct (Hall (proj1 Hiff Hc)) as [Hi _].
      unfold screen. rewrite Hi, Hc. by rewrite Z.leb_refl.
    + intros Hc.
      assert (Hfi : firstUncompletedIndex level p ≠ -1).
      { intros Hfi. unfold firstUncompletedIndex, findIndex in Hfi.
        apply findIndex_from_none in Hfi; [|lia]. rewrite Forall_forall in Hfi.
        assert (taskSet level ⊆ completedTasks p); [|rewrite <- Hiff in *; congruence].
        intros x Hx. unfold taskSet, Level.taskIds in Hx.
        apply elem_of_list_to_set, list_elem_of_fmap in Hx as (y & -> & Hy).
        specialize (Hfi y Hy). apply negb_false_iff in Hfi.
        by apply bool_decide_eq_true in Hfi. }
      unfold firstUncompletedIndex, findIndex in Hfi, Hidx.
      destruct (findIndex_from_found _ _ 0 Hfi) as (k & x & Heq & Hx & Hpx & Hb); [lia|].
      rewrite Heq in Hidx.
      replace (0 + Z.of_nat k) with (Z.of_nat k) in Hidx by lia.
      assert (Hgo : (0 <=? Z.of_nat k) = true) by (apply Z.leb_le; lia).
      rewrite Hgo in Hidx.
      exists x, k. unfold screen. rewrite Hc, andb_false_r.
      unfold currentTask, at_index. rewrite Hidx.
      destruct (Z.ltb_spec (Z.of_nat k) 0); [lia|]. rewrite Nat2Z.id, Hx.
      split_and!; [done..| |].
      * by apply negb_true_iff, bool_decide_eq_false in Hpx.
      * intros j y Hj Hy. specialize (Hb j y Hj Hy).
        apply negb_false_iff in Hb. by apply bool_decide_eq_true in Hb.
  - intros HT Hc. destruct (Hall HT) as [Hi Hnone]. split.
    + unfold screen. by rewrite Hnone, Hc, andb_false_r.
    + intros actions.
      assert (Hno : ∀ s, currentTaskIndex s = len (Level.tasks level) →
                ∃ s', session content level p actions s = (s', [], [])).
      { clear. induction actions as [|[c|] actions IH]; intros s Hs.
        - by eexists.
        - cbn [session]. apply IH.
          by destruct (handleCodeChange_fields c s) as (-> & _).
        - cbn [session]. unfold handleSubmitCode, currentTask, at_index, len.
          rewrite Hs. unfold len. destruct (_ <? _).
          + destruct (IH s Hs) as [s' ->]. by eexists.
          + rewrite Nat2Z.id, lookup_ge_None_2 by lia.
            destruct (IH s Hs) as [s' ->]. by eexists. }
      by apply Hno.
Qed.

Lemma validate_9_1_needs_markup `{RegExpEngine} (code : string) (pc : ProjectCode) :
  truthy_string (html pc) = false →
  validate_9_1 code pc = failure "Add class='highlight' to a <p> tag in your HTML.".
Proof. intros Hpc. unfold validate_9_1. by rewrite Hpc. Qed.

(** X12: level 9 cannot be passed while the project code of its entry
    holds no markup, as in the entry of a fresh start:
    the session shows task 9.1, whose validator rejects every code for
    want of the class in the project's markup, so no run of edits and
    submissions reports a task or sets a timer, and the session stays on
    task 9.1 with the same project code. *)
Theorem level_9_needs_project_markup `{RegExpEngine} (p : LevelProgress)
    (actions : list Action) :
  truthy_string (html (currentProjectCode p)) = false →
  "9.1" ∉ completedTasks p →
  let st := mountLevelView level_9_content level_9 p in
  screen level_9 p st = TaskScreen (task "9.1" CSS)
  ∧ ∃ st', session level_9_content level_9 p actions st = (st', [], [])
      ∧ screen level_9 p st' = TaskScreen (task "9.1" CSS)
      ∧ projectCode st' = currentProjectCode p
      ∧ submitDisabled st' = false.
Proof.
  intros Hpc Hnew st.
  assert (Hst : st = mkView 0 (starterCode (level_9_content (task "9.1" CSS))
                                 (currentProjectCode p))
                       None (currentProjectCode p) false).
  { assert (Hfi : firstUncompletedIndex level_9 p = 0).
    { unfold firstUncompletedIndex, findIndex, level_9.
      cbn [Level.tasks findIndex_from task Task.id].
      by rewrite (bool_decide_eq_false_2 _ Hnew). }
    unfold st, mountLevelView, syncWithProgress. rewrite Hfi. reflexivity. }
  assert (Hscreen : ∀ s, currentTaskIndex s = 0 →
            screen level_9 p s = TaskScreen (task "9.1" CSS)).
  { intros s Hs. unfold screen, currentTask. by rewrite Hs. }
  split; [apply Hscreen; by rewrite Hst|].
  destruct (rejected_session level_9_content level_9 p actions st (task "9.1" CSS))
    as (st' & Hrun & Hi & Hp & Hd).
  - by rewrite Hst.
  - by rewrite Hst.
  - by rewrite Hst.
  - intros code. rewrite Hst. change (success (validate_9_1 code (currentProjectCode p)) = false).
    by rewrite validate_9_1_needs_markup.
  - exists st'. split_and!; [done| |by rewrite Hp, Hst|done].
    apply Hscreen. by rewrite Hi, Hst.
Qed.

(** X12 at work: the entry of a fresh start. *)
Lemma fresh_level_9_is_blocked :
  ∃ st', session (@level_9_content noEngine) level_9 defaultProgress
           [Edit ".highlight { background-color: yellow; }"; Submit; Submit]
           (mountLevelView (@level_9_content noEngine) level_9 defaultProgress)
         = (st', [], [])
       ∧ screen level_9 defaultProgress st' = TaskScreen (task "9.1" CSS).
Proof.
  destruct (@level_9_needs_project_markup noEngine defaultProgress
              [Edit ".highlight { background-color: yellow; }"; Submit; Submit])
    as (_ & st' & Hrun & Hscreen & _).
  - reflexivity.
  - apply not_elem_of_empty.
  - exists st'. split; [exact Hrun|exact Hscreen].
Defined.

Section OneChildTwice.
Context `{Browser}.
Variable doc : Document.
Variables outer inner a b : string.
Hypothesis outer_truthy : truthy_string (Some outer) = true.
Hypothesis outer_element : outer ≠ "!--".
Hypothesis a_truthy : truthy_string (Some a) = true.
Hypothesis b_truthy : truthy_string (Some b) = true.
Variables outers inners : list Element.
Hypothesis query_outer : querySelectorAll doc outer = inr outers.
Hypothesis query_inner : querySelectorAll doc (outer +:+ " > " +:+ inner) = inr inners.

Lemma selectorOf_oneChildWithText (txt : string) :
  selectorOf (oneChildWithText inner txt outer) = outer +:+ " > " +:+ inner.
Proof using outer_truthy.
  unfold selectorOf, oneChildWithText. cbn [parentSelector tag].
  by rewrite outer_truthy.
Qed.

Lemma checkElement_oneChildWithText (txt : string) :
  truthy_string (Some txt) = true →
  checkElement inners (oneChildWithText inner txt outer)
  = match inners with
    | [e] => if includes (textContent e) txt then None
             else Some (textLiteralMessage (oneChildWithText inner txt outer) txt
                          (textContent e))
    | _ => Some (countMessage (oneChildWithText inner txt outer) 1 (len inners))
    end.
Proof.
  intros Htxt. unfold checkElement. cbn [count oneChildWithText countDiffers countFalsy].
  destruct inners as [|e [|e' es]].
  - reflexivity.
  - change (len [e] =? 1) with true. cbn [negb]. change (1 =? 0) with false.
    cbn [andb]. unfold checkText.
    destruct txt as [|c txt']; [done|].
    cbn [text attributes checkAttributes oneChildWithText].
    by destruct (includes (textContent e) (String c txt')).
  - assert (Hl : (len (e :: e' :: es) =? 1) = false).
    { apply Z.eqb_neq. unfold len. simpl length. lia. }
    by rewrite Hl.
Qed.

(** The result of the markup validator for a parent and one child
    expected twice with two texts. *)
Lemma one_child_twice :
  expectations_loop doc
    [ expected outer None; oneChildWithText inner a outer;
      oneChildWithText inner b outer ]
  = match outers, inners with
    | [], _ => failure (missingMessage (expected outer None))
    | _ :: _, [e] =>
        if includes (textContent e) a then
          if includes (textContent e) b then passed "HTML structure looks good!"
          else failure (textLiteralMessage (oneChildWithText inner b outer) b
                          (textContent e))
        else failure (textLiteralMessage (oneChildWithText inner a outer) a
                        (textContent e))
    | _ :: _, _ =>
        failure (countMessage (oneChildWithText inner a outer) 1 (len inners))
    end.
Proof using All.
  cbn [expectations_loop]. unfold expectationFailure.
  change (selectorOf (expected outer None)) with outer.
  rewrite !selectorOf_oneChildWithText, query_outer, query_inner.
  destruct outers as [|u us].
  - unfold checkElement, expected. cbn [count countDiffers countFalsy tag].
    apply String.eqb_neq in outer_element. by rewrite outer_element.
  - rewrite checkElement_present, !checkElement_oneChildWithText by done.
    destruct inners as [|e [|e' es]]; [done| |done].
    destruct (includes (textContent e) a); [|done].
    by destruct (includes (textContent e) b).
Qed.

End OneChildTwice.

(** X13: what the validator of task 4.1 accepts, over any document whose
    [ul] and [ul > li] queries answer. A code is accepted exactly when
    its document has a [ul] and one single [li] in a [ul] whose text
    holds both Apple and Banana; the second look at the list items never
    accepts, so acceptance always comes with the markup validator's
    message. A document with two list items, as the instruction asks,
    is rejected with the count message. *)
Theorem task_4_1_accepts_a_single_item `{Browser} (code : string)
    (uls lis : list Element) :
  querySelectorAll (parseFromString code) "ul" = inr uls →
  querySelectorAll (parseFromString code) "ul > li" = inr lis →
  ∃ r, validate_4_1 code = inr r
    ∧ (success r = true
       ↔ uls ≠ [] ∧ ∃ li, lis = [li] ∧ includes (textContent li) "Apple" = true
                        ∧ includes (textContent li) "Banana" = true)
    ∧ (success r = true → message r = "HTML structure looks good!")
    ∧ (uls ≠ [] → len lis = 2 →
       r = failure "Expected 1 <li> element(s) inside ul, but found 2.").
Proof.
  intros Hul Hli. unfold validate_4_1, validateHTMLStructure.
  change task_4_1_expectations
    with [ expected "ul" None; oneChildWithText "li" "Apple" "ul";
           oneChildWithText "li" "Banana" "ul" ].
  rewrite (one_child_twice (parseFromString code) "ul" "li" "Apple" "Banana"
             eq_refl ltac:(done) eq_refl eq_refl uls lis Hul Hli).
  cbv zeta. rewrite Hli.
  destruct uls as [|u us].
  { eexists. split; [reflexivity|]. split_and!; [|done..].
    split; [done|]. by intros [? _]. }
  destruct lis as [|e [|e' [|e'' es]]].
  - eexists. split; [reflexivity|]. split_and!; [|done..].
    split; [done|]. by intros (_ & li & ? & _).
  - destruct (includes (textContent e) "Apple") eqn:Ha;
      [destruct (includes (textContent e) "Banana") eqn:Hb|].
    + eexists. split; [reflexivity|]. split_and!; [|done..].
      split; [|done]. intros _. split; [done|]. by exists e.
    + cbn [success failure negb andb message].
      destruct (includes _ "count"); (eexists; split; [reflexivity|]);
        (split_and!; [|done..]); (split; [done|]);
        intros (_ & li & [= <-] & _ & Hb'); congruence.
    + cbn [success failure negb andb message].
      destruct (includes _ "count"); (eexists; split; [reflexivity|]);
        (split_and!; [|done..]); (split; [done|]);
        intros (_ & li & [= <-] & Ha' & _); congruence.
  - eexists. split; [reflexivity|]. split_and!; [|done|done].
    split; [done|]. by intros (_ & li & ? & _).
  - cbn [success failure negb andb message].
    assert (Hlen : (len (e :: e' :: e'' :: es) =? 2) = false).
    { apply Z.eqb_neq. unfold len. simpl length. lia. }
    rewrite Hlen.
    destruct (includes _ "count"); (eexists; split; [reflexivity|]);
      (split_and!; [|done|]);
      try (split; [done|]; by intros (_ & li & ? & _));
      intros _ Hl; unfold len in Hl; simpl length in Hl; lia.
Qed.

(** X13 at work: the list of the two fruits. *)
Lemma two_fruits_are_rejected :
  @validate_4_1 (fixedDocumentBrowser twoFruitsDocument)
    "<ul><li>Apple</li><li>Banana</li></ul>"
  = inr (failure "Expected 1 <li> element(s) inside ul, but found 2.").
Proof.
  destruct (@task_4_1_accepts_a_single_item (fixedDocumentBrowser twoFruitsDocument)
              "<ul><li>Apple</li><li>Banana</li></ul>" _ _ eq_refl eq_refl)
    as (r & Hr & _ & _ & Hcount).
  rewrite Hr, Hcount; [reflexivity|done|reflexivity].
Defined.

(** X14: what the validator of task 13.1 accepts, over any document whose
    [p] and [p > span] queries answer: a [p] and one single [span] in a
    [p] whose text holds both span1 and span2. The paragraph with the two
    spans of the instruction is rejected with the count message. *)
Theorem task_13_1_accepts_a_single_span `{Browser} (code : string)
    (ps spans : list Element) :
  querySelectorAll (parseFromString code) "p" = inr ps →
  querySelectorAll (parseFromString code) "p > span" = inr spans →
  (success (validateHTMLStructure code task_13_1_expectations) = true
   ↔ ps ≠ [] ∧ ∃ e, spans = [e] ∧ includes (textContent e) "span1" = true
                   ∧ includes (textContent e) "span2" = true)
  ∧ (ps ≠ [] → len spans = 2 →
     validateHTMLStructure code task_13_1_expectations
     = failure "Expected 1 <span> element(s) inside p, but found 2.").
Proof.
  intros Hp Hspan. unfold validateHTMLStructure.
  change task_13_1_expectations
    with [ expected "p" None; oneChildWithText "span" "span1" "p";
           oneChildWithText "span" "span2" "p" ].
  rewrite (one_child_twice (parseFromString code) "p" "span" "span1" "span2"
             eq_refl ltac:(done) eq_refl eq_refl ps spans Hp Hspan).
  destruct ps as [|u us].
  { split; [|done]. split; [done|]. by intros [? _]. }
  destruct spans as [|e [|e' [|e'' es]]].
  - split; [|done]. split; [done|]. by intros (_ & ? & ? & _).
  - destruct (includes (textContent e) "span1") eqn:Ha;
      [destruct (includes (textContent e) "span2") eqn:Hb|].
    + split; [|done]. split; [|done]. intros _. split; [done|]. by exists e.
    + split; [|done]. split; [done|]. intros (_ & ? & [= <-] & _ & ?). congruence.
    + split; [|done]. split; [done|]. intros (_ & ? & [= <-] & ? & _). congruence.
  - split; [|done]. split; [done|]. by intros (_ & ? & ? & _).
  - split.
    + split; [done|]. by intros (_ & ? & ? & _).
    + intros _ Hl. unfold len in Hl. simpl length in Hl. lia.
Qed.

(** X14 at work: the paragraph of the instruction. *)
Lemma two_spans_are_rejected :
  @validateHTMLStructure (fixedDocumentBrowser twoSpansDocument)
    "<p>First <span>span1</span> and <span>span2</span>.</p>" task_13_1_expectations
  = failure "Expected 1 <span> element(s) inside p, but found 2.".
Proof.
  destruct (@task_13_1_accepts_a_single_span (fixedDocumentBrowser twoSpansDocument)
              "<p>First <span>span1</span> and <span>span2</span>.</p>" _ _
              eq_refl eq_refl) as [_ Hcount].
  apply Hcount; [done|reflexivity].
Defined.

Section Views.
Variable LEVELS : list Level.t.
Hypothesis ids_distinct : NoDup (Level.id <$> LEVELS).
Hypothesis ids_truthy : ∀ l, l ∈ LEVELS → Level.id l ≠ EmptyString.

Lemma findLevel_member (levelId : string) (l : Level.t) :
  findLevel LEVELS levelId = Some l → l ∈ LEVELS ∧ Level.id l = levelId.
Proof using Type.
  unfold findLevel. intros Hf. apply find_some in Hf as [Hin Heq].
  split; [by apply list_elem_of_In|by apply String.eqb_eq].
Qed.

Lemma highest_index_grows (m : Mutation) (st st' : AppState) :
  LEVELS ≠ [] → synced LEVELS st → synced LEVELS st' →
  userProgress st' = mutate LEVELS m (userProgress st) →
  findLevelIndex LEVELS (highestLevelUnlocked st)
  ≤ findLevelIndex LEVELS (highestLevelUnlocked st').
Proof using ids_distinct.
  intros Hne Hs Hs' Hstore.
  rewrite !(synced_boundary LEVELS ids_distinct) by done.
  apply inj_le. rewrite Hstore. apply boundary_mono. intros l.
  unfold completedLevel. rewrite !isCompletedIn_progressOf.
  apply (mutate_monotone LEVELS m).
Qed.

End Views.

(** X15: what the application shows after its first render and any
    events, for a catalog with distinct, non-empty level ids. In the
    selector view no level is current. In the level view the current
    level is a level of the catalog, so the level session is rendered
    (never an empty page), and that level is not beyond the highest
    unlocked one. *)
Theorem level_on_screen_is_unlocked (LEVELS : list Level.t) (saved : option json)
    (st0 : AppState) (events : list Event) :
  NoDup (Level.id <$> LEVELS) →
  (∀ l, l ∈ LEVELS → Level.id l ≠ EmptyString) →
  mountApp LEVELS saved = Some st0 →
  let st := runEvents LEVELS events st0 in
  match currentView st with
  | level_selector => currentLevelId st = None ∧ rendersLevelView LEVELS st = false
  | level_view =>
      rendersLevelView LEVELS st = true
      ∧ ∃ l, l ∈ LEVELS ∧ getCurrentLevel LEVELS st = Some l
           ∧ currentLevelId st = Some (Level.id l)
           ∧ findLevelIndex LEVELS (Level.id l)
             ≤ findLevelIndex LEVELS (highestLevelUnlocked st)
  end.
Proof.
  intros Hnd Hids Hm st. unfold st. clear st.
  induction events as [|e events IH] using rev_ind.
  { unfold mountApp in Hm. destruct (load saved); [|done].
    injection Hm as <-. by cbn. }
  unfold runEvents in *. rewrite fold_left_app. cbn [fold_left].
  assert (Hs : synced LEVELS (fold_left (λ s e, (handle LEVELS e s).1) events st0)).
  { by eapply (runEvents_synced LEVELS events), mountApp_synced. }
  set (st := fold_left (λ s e, (handle LEVELS e s).1) events st0) in *.
  assert (Hs' : synced LEVELS (handle LEVELS e st).1) by by apply handle_synced.
  assert (Hopen : ∀ levelId l, findLevel LEVELS levelId = Some l →
            findLevelIndex LEVELS levelId
            ≤ findLevelIndex LEVELS (highestLevelUnlocked st) →
            let st' := opened levelId st in
            rendersLevelView LEVELS st' = true
            ∧ ∃ l, l ∈ LEVELS ∧ getCurrentLevel LEVELS st' = Some l
                 ∧ currentLevelId st' = Some (Level.id l)
                 ∧ findLevelIndex LEVELS (Level.id l)
                   ≤ findLevelIndex LEVELS (highestLevelUnlocked st')).
  { intros levelId l Hf Hle st'.
    destruct (findLevel_member LEVELS levelId l Hf) as [Hin Hid].
    assert (Hcur : getCurrentLevel LEVELS st' = Some l) by done.
    split.
    - unfold rendersLevelView. cbn [currentView st' opened]. rewrite Hcur.
      cbn [currentLevelId]. specialize (Hids l Hin). rewrite Hid in Hids.
      destruct levelId; [done|]. by rewrite bool_decide_eq_true_2.
    - exists l. split_and!; [done..|by rewrite Hid|by rewrite Hid]. }
  destruct e as [levelId|levelId taskId pc|levelId pc|].
  - cbn [handle].
    destruct (findLevel LEVELS levelId) as [l|] eqn:Hf;
      [|unfold selectLevel; rewrite Hf; exact IH].
    destruct (openable LEVELS st levelId) eqn:Ho.
    + rewrite selectLevel_opens by done. apply (Hopen levelId l Hf).
      unfold openable in Ho. rewrite Hf in Ho. by apply Z.leb_le.
    + assert (Hne : LEVELS ≠ []) by (intros ->; done).
      destruct (selectLevel_rejects LEVELS levelId st) as [-> _];
        [by rewrite Hf|done|by apply synced_in_catalog|exact IH].
  - cbn [handle fst progressEffect currentView].
    destruct (currentView st) eqn:Hv.
    + destruct IH as [Hnone Hr]. split; [done|].
      unfold rendersLevelView. by cbn [currentView progressEffect].
    + destruct IH as (Hr & l & Hin & Hcur & Hid & Hle).
      split.
      * unfold rendersLevelView, getCurrentLevel in *.
        cbn [currentView currentLevelId]. by rewrite Hv in *.
      * exists l. split_and!; [done..|].
        assert (Hne : LEVELS ≠ []) by (intros ->; by apply elem_of_nil in Hin).
        etrans; [exact Hle|].
        by apply (highest_index_grows LEVELS Hnd (MarkTask levelId taskId pc) st
                    (handle LEVELS (TaskComplete levelId taskId pc) st).1).
  - by cbn.
  - by cbn.
Qed.

(** X15 at work: a fresh start, level 1 opened, a task reported. *)
Lemma level_1_on_screen :
  let st := runEvents LEVELS [SelectLevel "1"; TaskComplete "1" "1.1" None]
              (progressEffect LEVELS (mkApp level_selector None ∅ "1" None)) in
  currentView st = level_view ∧ rendersLevelView LEVELS st = true.
Proof.
  intros st.
  pose proof (level_on_screen_is_unlocked LEVELS None
                (progressEffect LEVELS (mkApp level_selector None ∅ "1" None))
                [SelectLevel "1"; TaskComplete "1" "1.1" None]
                NoDup_level_ids) as Hview.
  assert (Hv : currentView st = level_view) by reflexivity.
  fold st in Hview. cbv zeta in Hview. rewrite Hv in Hview.
  split; [done|]. apply Hview; [|reflexivity].
  intros l Hl. apply (bool_decide_unpack _).
  revert l Hl. apply Forall_forall. apply (bool_decide_unpack _).
  vm_compute. exact I.
Defined.
